(** * cleanhtml: the markup-normalisation pipeline of [src/lib/html-cleaner.ts]

    A shallow embedding of the HTML cleaner: the document tree, the four
    tree passes of [cleanHTML] ([processNode], [cleanListItems],
    [removeEmptyElements], [autoLinkEmailsAndPhones]) and the two string
    formatters ([beautifyHTML], [minifyHTML]), followed by the properties
    the specification states about them.

    Strings are [string]: one [ascii] stands for one UTF-16 code unit of the
    JavaScript string, so the development covers the code units 0..255. *)

From Stdlib Require Import Bool Arith Lia List ZArith.
From Stdlib Require Import Strings.Ascii Strings.String.
Import ListNotations.

Local Open Scope list_scope.
Local Set Warnings "-register-all".
Local Open Scope string_scope.

(* ================================================================== *)
(** * JavaScript strings *)
(* ================================================================== *)

Module JS.

(** The double quote, written by its code so that no literal needs an
    escaped quote. *)
Definition dquote : ascii := "034"%char.

(** The line feed, as a character and as a one-character string. *)
Definition lf : ascii := "010"%char.
Definition newline : string := String lf EmptyString.

Definition code (c : ascii) : nat := nat_of_ascii c.

Definition in_range (lo hi : nat) (c : ascii) : bool :=
  Nat.leb lo (code c) && Nat.leb (code c) hi.

(** ECMAScript WhiteSpace and LineTerminator below 256: TAB, LF, VT, FF, CR,
    SPACE and NBSP.  [String.prototype.trim] and the regex class [\s] use
    the same set. *)
Definition is_space (c : ascii) : bool :=
  in_range 9 13 c || Nat.eqb (code c) 32 || Nat.eqb (code c) 160.

(** [\d] *)
Definition is_digit (c : ascii) : bool := in_range 48 57 c.

Definition is_upper (c : ascii) : bool := in_range 65 90 c.
Definition is_lower (c : ascii) : bool := in_range 97 122 c.
Definition is_alpha (c : ascii) : bool := is_upper c || is_lower c.

(** [\w] *)
Definition is_word (c : ascii) : bool :=
  is_alpha c || is_digit c || Nat.eqb (code c) 95.

(** [.] matches everything but a line terminator (LF, CR below 256). *)
Definition is_dot (c : ascii) : bool :=
  negb (Nat.eqb (code c) 10 || Nat.eqb (code c) 13).

Definition is_chr (a : ascii) (c : ascii) : bool := Ascii.eqb c a.

Definition one_of (l : string) (c : ascii) : bool :=
  existsb (Ascii.eqb c) (list_ascii_of_string l).

(** [toLowerCase] / [toUpperCase] on one code unit below 256: the ASCII
    letters and the Latin-1 letters 0xC0..0xDE / 0xE0..0xFE (but not the
    multiplication and division signs 0xD7 / 0xF7). *)
Definition lower_char (c : ascii) : ascii :=
  if is_upper c || (in_range 192 222 c && negb (Nat.eqb (code c) 215))
  then ascii_of_nat (code c + 32) else c.

Definition upper_ascii (c : ascii) : ascii :=
  if is_lower c then ascii_of_nat (code c - 32) else c.

Fixpoint map_string (f : ascii -> ascii) (s : string) : string :=
  match s with
  | EmptyString => EmptyString
  | String c r => String (f c) (map_string f r)
  end.

Definition toLowerCase (s : string) : string := map_string lower_char s.

(** [tagName] of an HTML element is the ASCII upper-casing of its name. *)
Definition toAsciiUpper (s : string) : string := map_string upper_ascii s.

(** ** takeWhile, dropWhile, drop *)

Fixpoint dropWhile (p : ascii -> bool) (s : string) : string :=
  match s with
  | EmptyString => EmptyString
  | String c r => if p c then dropWhile p r else s
  end.

Fixpoint takeWhile (p : ascii -> bool) (s : string) : string :=
  match s with
  | EmptyString => EmptyString
  | String c r => if p c then String c (takeWhile p r) else EmptyString
  end.

Fixpoint drop (n : nat) (s : string) : string :=
  match n, s with
  | S k, String _ r => drop k r
  | _, _ => s
  end.

Fixpoint filter_string (p : ascii -> bool) (s : string) : string :=
  match s with
  | EmptyString => EmptyString
  | String c r => if p c then String c (filter_string p r) else filter_string p r
  end.

Fixpoint forallb_string (p : ascii -> bool) (s : string) : bool :=
  match s with
  | EmptyString => true
  | String c r => p c && forallb_string p r
  end.

(** ** trim *)

Definition trimStart (s : string) : string := dropWhile is_space s.

Fixpoint trimEnd (s : string) : string :=
  match s with
  | EmptyString => EmptyString
  | String c r =>
      match trimEnd r with
      | EmptyString => if is_space c then EmptyString else String c EmptyString
      | r' => String c r'
      end
  end.

Definition trim (s : string) : string := trimEnd (trimStart s).

(** ** startsWith, endsWith, indexOf, substring, repeat, join *)

Fixpoint startsWith (s p : string) {struct p} : bool :=
  match p with
  | EmptyString => true
  | String a p' =>
      match s with
      | EmptyString => false
      | String b s' => Ascii.eqb a b && startsWith s' p'
      end
  end.

Fixpoint endsWith (s p : string) : bool :=
  String.eqb s p ||
  match s with
  | EmptyString => false
  | String _ r => endsWith r p
  end.

(** [s.indexOf(c)] for a one-character needle; [-1] when absent. *)
Fixpoint indexOf (c : ascii) (s : string) : Z :=
  match s with
  | EmptyString => (-1)%Z
  | String a r =>
      if Ascii.eqb a c then 0%Z
      else let i := indexOf c r in
           if (i <? 0)%Z then (-1)%Z else (i + 1)%Z
  end.

(** [s.substring(a, b)] and [s.substring(a)] for [0 <= a <= b]. *)
Definition substring2 (a b : nat) (s : string) : string :=
  String.substring a (b - a) s.

Definition substringFrom (a : nat) (s : string) : string :=
  String.substring a (String.length s - a) s.

Fixpoint repeat_nat (s : string) (n : nat) : string :=
  match n with
  | O => EmptyString
  | S k => s ++ repeat_nat s k
  end.

(** [s.repeat(count)] throws a RangeError on a negative count. *)
Definition repeat (s : string) (count : Z) : option string :=
  if (count <? 0)%Z then None else Some (repeat_nat s (Z.to_nat count)).

Definition join (sep : string) (l : list string) : string :=
  String.concat sep l.

(* ------------------------------------------------------------------ *)
(** ** Regular expressions

    The fragment of ECMAScript regular expressions the source uses:
    character classes, greedy quantifiers on a character class, sequence,
    ordered alternation and one capture group.  The matcher is the
    backtracking matcher of the language definition, in continuation
    passing style: the continuation receives the rest of the input and the
    capture, and answers whether the rest of the pattern matches. *)

Inductive regex : Type :=
| Eps
| Cls (p : ascii -> bool)
| Rep (p : ascii -> bool) (lo : nat) (hi : option nat)
| Seq (a b : regex)
| Alt (a b : regex)
| Grp (a : regex).

(** End state of a match: the unread input and the text of group 1. *)
Definition mstate : Type := (string * option string)%type.

Definition more (hi : option nat) : bool :=
  match hi with
  | None => true
  | Some h => negb (Nat.eqb h 0)
  end.

Definition dec_hi (hi : option nat) : option nat := option_map Nat.pred hi.

(** Greedy [p{lo,hi}]: take as many as allowed, give back one at a time. *)
Fixpoint rep (p : ascii -> bool) (lo : nat) (hi : option nat) (s : string)
         (k : string -> option mstate) : option mstate :=
  match s with
  | String c r =>
      if p c && more hi then
        match rep p (Nat.pred lo) (dec_hi hi) r k with
        | Some x => Some x
        | None => if Nat.eqb lo 0 then k s else None
        end
      else if Nat.eqb lo 0 then k s else None
  | EmptyString => if Nat.eqb lo 0 then k s else None
  end.

Fixpoint run (r : regex) (s : string) (g : option string)
         (k : string -> option string -> option mstate) : option mstate :=
  match r with
  | Eps => k s g
  | Cls p =>
      match s with
      | String c t => if p c then k t g else None
      | EmptyString => None
      end
  | Rep p lo hi => rep p lo hi s (fun t => k t g)
  | Seq a b => run a s g (fun t g' => run b t g' k)
  | Alt a b =>
      match run a s g k with
      | Some x => Some x
      | None => run b s g k
      end
  | Grp a =>
      run a s g
          (fun t _ => k t (Some (String.substring 0 (String.length s - String.length t) s)))
  end.

(** One match attempt at the start of [s]. *)
Record jsmatch : Type := MkMatch
  { m_text : string;            (* match[0] *)
    m_group1 : option string;   (* match[1], [None] for undefined *)
    m_rest : string }.          (* input after the match *)

Definition exec (r : regex) (s : string) : option jsmatch :=
  match run r s None (fun t g => Some (t, g)) with
  | Some (t, g) =>
      Some (MkMatch (String.substring 0 (String.length s - String.length t) s) g t)
  | None => None
  end.

(** [re.test(s)]: a match at some position. *)
Fixpoint test (r : regex) (s : string) : bool :=
  match exec r s with
  | Some _ => true
  | None =>
      match s with
      | EmptyString => false
      | String _ t => test r t
      end
  end.

(** [s.matchAll(re)] for a global regex: the matches from left to right as
    (index, match).  [skip] counts the characters of the current match that
    are still to be passed over; an empty match advances by one. *)
Fixpoint matchAll_from (r : regex) (s : string) (pos skip : nat)
  : list (nat * jsmatch) :=
  match s with
  | EmptyString =>
      match skip, exec r s with
      | O, Some m => [(pos, m)]
      | _, _ => []
      end
  | String _ t =>
      match skip with
      | S k => matchAll_from r t (S pos) k
      | O =>
          match exec r s with
          | Some m =>
              (pos, m) :: matchAll_from r t (S pos) (Nat.pred (String.length (m_text m)))
          | None => matchAll_from r t (S pos) 0
          end
      end
  end.

Definition matchAll (r : regex) (s : string) : list (nat * jsmatch) :=
  matchAll_from r s 0 0.

(** [s.replace(re, by)] for a global regex and a replacement without
    [$]-patterns. *)
Fixpoint replaceAll_from (r : regex) (by_ : string) (s : string) (skip : nat)
  : string :=
  match s with
  | EmptyString =>
      match skip, exec r s with
      | O, Some _ => by_
      | _, _ => EmptyString
      end
  | String c t =>
      match skip with
      | S k => replaceAll_from r by_ t k
      | O =>
          match exec r s with
          | Some m =>
              match String.length (m_text m) with
              | O => by_ ++ String c (replaceAll_from r by_ t 0)
              | S n => by_ ++ replaceAll_from r by_ t n
              end
          | None => String c (replaceAll_from r by_ t 0)
          end
      end
  end.

Definition replaceAll (r : regex) (by_ : string) (s : string) : string :=
  replaceAll_from r by_ s 0.

(** [s.replace(re, "$1")] for a regex without the global flag: the first
    match is replaced by the text of group 1. *)
Fixpoint replaceFirstGroup1 (r : regex) (s : string) : string :=
  match exec r s with
  | Some m =>
      match m_group1 m with
      | Some g => g ++ m_rest m
      | None => m_rest m
      end
  | None =>
      match s with
      | EmptyString => EmptyString
      | String c t => String c (replaceFirstGroup1 r t)
      end
  end.

(** Builders. *)
Definition chr (a : ascii) : regex := Cls (is_chr a).

(** A character of a case-insensitive pattern ([/i]): both sides are
    canonicalised by upper-casing; a code unit above 127 never
    canonicalises to an ASCII letter. *)
Definition chr_i (a : ascii) : regex :=
  Cls (fun c => Ascii.eqb (upper_ascii c) (upper_ascii a)).

Fixpoint seq (l : list regex) : regex :=
  match l with
  | [] => Eps
  | [r] => r
  | r :: l' => Seq r (seq l')
  end.

Fixpoint alt (l : list regex) : regex :=
  match l with
  | [] => Cls (fun _ => false)
  | [r] => r
  | r :: l' => Alt r (alt l')
  end.

Definition lit (s : string) : regex := seq (map chr (list_ascii_of_string s)).
Definition lit_i (s : string) : regex := seq (map chr_i (list_ascii_of_string s)).

Definition opt (p : ascii -> bool) : regex := Rep p 0 (Some 1).
Definition star (p : ascii -> bool) : regex := Rep p 0 None.
Definition plus (p : ascii -> bool) : regex := Rep p 1 None.
Definition exactly (n : nat) (p : ascii -> bool) : regex := Rep p n (Some n).
Definition at_least (n : nat) (p : ascii -> bool) : regex := Rep p n None.

End JS.

(* ================================================================== *)
(** * The constants of the module *)
(* ================================================================== *)

Definition sp_or_dash (c : ascii) : bool := JS.is_space c || JS.is_chr "-" c.

(** [/(?:\+61\s?\d[\s-]?\d{4}[\s-]?\d{4})|(?:\(0\d\)\s?\d{4}[\s-]?\d{4})|
     (?:0[2-478]\s?\d{4}[\s-]?\d{4})|(?:04\d{2}[\s-]?\d{3}[\s-]?\d{3})|
     (?:1[38]00[\s-]?\d{3}[\s-]?\d{3})/g] *)
Definition PHONE_INTL : JS.regex :=
  JS.seq [JS.lit "+61"; JS.opt JS.is_space; JS.Cls JS.is_digit; JS.opt sp_or_dash;
          JS.exactly 4 JS.is_digit; JS.opt sp_or_dash; JS.exactly 4 JS.is_digit].

Definition PHONE_PAREN : JS.regex :=
  JS.seq [JS.lit "(0"; JS.Cls JS.is_digit; JS.lit ")"; JS.opt JS.is_space;
          JS.exactly 4 JS.is_digit; JS.opt sp_or_dash; JS.exactly 4 JS.is_digit].

Definition PHONE_LANDLINE : JS.regex :=
  JS.seq [JS.lit "0"; JS.Cls (fun c => JS.in_range 50 52 c || JS.is_chr "7" c || JS.is_chr "8" c);
          JS.opt JS.is_space;
          JS.exactly 4 JS.is_digit; JS.opt sp_or_dash; JS.exactly 4 JS.is_digit].

Definition PHONE_MOBILE : JS.regex :=
  JS.seq [JS.lit "04"; JS.exactly 2 JS.is_digit; JS.opt sp_or_dash;
          JS.exactly 3 JS.is_digit; JS.opt sp_or_dash; JS.exactly 3 JS.is_digit].

Definition PHONE_TOLLFREE : JS.regex :=
  JS.seq [JS.lit "1"; JS.Cls (JS.one_of "38"); JS.lit "00"; JS.opt sp_or_dash;
          JS.exactly 3 JS.is_digit; JS.opt sp_or_dash; JS.exactly 3 JS.is_digit].

Definition PHONE_REGEX : JS.regex :=
  JS.alt [PHONE_INTL; PHONE_PAREN; PHONE_LANDLINE; PHONE_MOBILE; PHONE_TOLLFREE].

(** [/[a-zA-Z0-9._%+-]+@[a-zA-Z0-9.-]+\.[a-zA-Z]{2,}/g] *)
Definition email_local (c : ascii) : bool :=
  JS.is_alpha c || JS.is_digit c || JS.one_of "._%+-" c.

Definition email_domain (c : ascii) : bool :=
  JS.is_alpha c || JS.is_digit c || JS.one_of ".-" c.

Definition EMAIL_REGEX : JS.regex :=
  JS.seq [JS.plus email_local; JS.lit "@"; JS.plus email_domain;
          JS.lit "."; JS.at_least 2 JS.is_alpha].

Definition VOID_ELEMENTS : list string :=
  ["area"; "base"; "br"; "col"; "embed"; "hr"; "img"; "input";
   "link"; "meta"; "param"; "source"; "track"; "wbr"].

Definition includes (l : list string) (s : string) : bool :=
  existsb (String.eqb s) l.

(* ================================================================== *)
(** * The document tree *)
(* ================================================================== *)

(** A node of the parsed document.  An element keeps its local name (lower
    case, as the parser and [createElement] produce it), its attributes in
    document order and its children.  Elements are those of the HTML
    namespace.

    The HTML [template] element is a constructor of its own: the parser
    puts what stands between its tags into the template's contents, a
    fragment of another document, and leaves the element without child
    nodes.  [childNodes], [textContent], [querySelectorAll] and a
    [TreeWalker] do not reach the contents; [innerHTML] serialises them. *)
Inductive node : Type :=
| Elem (tag : string) (attrs : list (string * string)) (children : list node)
| Text (data : string)
| Comment (data : string)
| Template (attrs : list (string * string)) (contents : list node).

Definition attributes : Type := list (string * string).

Module Dom.

(** [element.tagName] of an element of the HTML namespace: its name in
    upper case. *)
Definition tagName (tag : string) : string := JS.toAsciiUpper tag.

Fixpoint getAttribute (name : string) (attrs : attributes) : option string :=
  match attrs with
  | [] => None
  | (n, v) :: rest => if String.eqb n name then Some v else getAttribute name rest
  end.

(** Attribute names are unique within an element, so removing the attribute
    of a name is removing every pair of that name. *)
Definition removeAttribute (name : string) (attrs : attributes) : attributes :=
  filter (fun a => negb (String.eqb (fst a) name)) attrs.

(** [node.textContent]: the data of a text or comment node; for an element
    the concatenated data of its text descendants, comments left out.  A
    template has no descendants. *)
Fixpoint textContent (n : node) : string :=
  match n with
  | Text d => d
  | Comment d => d
  | Elem _ _ cs =>
      String.concat ""
        (map (fun c => match c with
                       | Comment _ => ""
                       | _ => textContent c
                       end) cs)
  | Template _ _ => ""
  end.

(** [el.textContent = s] replaces the children by one text node, or by
    nothing when [s] is empty. *)
Definition setTextContent (s : string) : list node :=
  if String.eqb s "" then [] else [Text s].

(** ** Serialisation ([innerHTML]), after the fragment serialisation
    algorithm of the HTML standard. *)

Definition serializes_as_void : list string :=
  ["area"; "base"; "basefont"; "bgsound"; "br"; "col"; "embed"; "frame"; "hr";
   "img"; "input"; "keygen"; "link"; "meta"; "param"; "source"; "track"; "wbr"].

Definition raw_text_parents : list string :=
  ["style"; "script"; "xmp"; "iframe"; "noembed"; "noframes"; "plaintext"].

Fixpoint escape (attr_mode : bool) (s : string) : string :=
  match s with
  | EmptyString => EmptyString
  | String c r =>
      (if Ascii.eqb c "&" then "&amp;"
       else if Nat.eqb (JS.code c) 160 then "&nbsp;"
       else if attr_mode then
              (if Ascii.eqb c JS.dquote then "&quot;" else String c EmptyString)
       else if Ascii.eqb c "<" then "&lt;"
       else if Ascii.eqb c ">" then "&gt;"
       else String c EmptyString) ++ escape attr_mode r
  end.

Definition serializeAttr (a : string * string) : string :=
  " " ++ fst a ++ "=" ++ String JS.dquote (escape true (snd a))
      ++ String JS.dquote EmptyString.

(** For a template the algorithm serialises the nodes of its contents in
    the place of its children. *)
Fixpoint outerHTML (raw : bool) (n : node) : string :=
  match n with
  | Text d => if raw then d else escape false d
  | Comment d => "<!--" ++ d ++ "-->"
  | Elem tag attrs cs =>
      "<" ++ tag ++ String.concat "" (map serializeAttr attrs) ++ ">" ++
      (if includes serializes_as_void tag then ""
       else String.concat "" (map (outerHTML (includes raw_text_parents tag)) cs)
            ++ "</" ++ tag ++ ">")
  | Template attrs contents =>
      "<template" ++ String.concat "" (map serializeAttr attrs) ++ ">" ++
      String.concat "" (map (outerHTML false) contents) ++ "</template>"
  end.

(** [parent.innerHTML] with [parent]'s name [tag] and children [cs]. *)
Definition innerHTML (tag : string) (cs : list node) : string :=
  String.concat "" (map (outerHTML (includes raw_text_parents tag)) cs).

(** [template.innerHTML]: the serialisation of the contents. *)
Definition templateHTML (contents : list node) : string :=
  String.concat "" (map (outerHTML false) contents).

End Dom.

(* ================================================================== *)
(** * Stage 1: [processNode] *)
(* ================================================================== *)

Definition attrsToRemove : list string := ["class"; "style"; "dir"; "aria-level"].

Definition option_string_eqb (o : option string) (s : string) : bool :=
  match o with
  | Some v => String.eqb v s
  | None => false
  end.

(** The three attribute steps of [processNode] (lines 31-44). *)
Definition stripAttributes (attrs : attributes) : attributes :=
  let a1 := fold_left (fun acc attr => Dom.removeAttribute attr acc) attrsToRemove attrs in
  let a2 := if option_string_eqb (Dom.getAttribute "role" a1) "presentation"
            then Dom.removeAttribute "role" a1 else a1 in
  fold_left (fun acc (attr : string * string) =>
               if String.eqb (JS.trim (snd attr)) ""
               then Dom.removeAttribute (fst attr) acc else acc)
            a2 a2.

(** The chain of prefix tests of [checkForHeadingMarker] (lines 87-102):
    [headingLevel] and [prefix], or [None] when both stay null. *)
Definition headingMarker (textContent : string) : option (string * string) :=
  if JS.startsWith textContent "H1:" then Some ("h1", "H1:")
  else if JS.startsWith textContent "H2:" then Some ("h2", "H2:")
  else if JS.startsWith textContent "H3:" then Some ("h3", "H3:")
  else if JS.startsWith textContent "H4:" then Some ("h4", "H4:")
  else None.

(** [checkForHeadingMarker(element)]: [Some h] when the element is replaced
    by the heading [h] (the function returns true), [None] otherwise. *)
Definition checkForHeadingMarker (tag : string) (cs : list node) : option node :=
  if negb (String.eqb (Dom.tagName tag) "P") then None
  else
    let textContent := JS.trim (Dom.textContent (Elem tag [] cs)) in
    match headingMarker textContent with
    | None => None
    | Some (headingLevel, prefix) =>
        let headingText :=
          JS.trim (JS.substringFrom (String.length prefix) textContent) in
        Some (Elem headingLevel [] (Dom.setTextContent headingText))
    end.

(** [/font-weight:\s*(bold|700|800|900)/i] and [/font-style:\s*italic/i] *)
Definition BOLD_STYLE : JS.regex :=
  JS.seq [JS.lit_i "font-weight:"; JS.star JS.is_space;
          JS.Grp (JS.alt [JS.lit_i "bold"; JS.lit_i "700"; JS.lit_i "800"; JS.lit_i "900"])].

Definition ITALIC_STYLE : JS.regex :=
  JS.seq [JS.lit_i "font-style:"; JS.star JS.is_space; JS.lit_i "italic"].

(** [a || ""] on the result of [getAttribute]. *)
Definition or_empty (o : option string) : string :=
  match o with
  | Some v => v
  | None => ""
  end.

(** What the span branch (lines 52-79) leaves in the place of a span with
    the attributes [attrs] and the children [cs]. *)
Definition convertSpan (attrs : attributes) (cs : list node) : list node :=
  let style := or_empty (Dom.getAttribute "style" attrs) in
  let isBold := JS.test BOLD_STYLE style in
  let isItalic := JS.test ITALIC_STYLE style in
  if isBold then
    [Elem "strong" [] (if isItalic then [Elem "em" [] cs] else cs)]
  else if isItalic then [Elem "em" [] cs]
  else cs.

(** [processNode(node)] for a node with a parent: the nodes that stand in
    its place afterwards.  The loop over the children removes comments and
    recurses into elements; the replacements a child makes in its parent
    ([replaceChild], [unwrapElement]) are the list it returns.  For a
    template the loop has no child to visit; its attributes are stripped,
    and it is neither a paragraph nor a span. *)
Fixpoint processNode (n : node) : list node :=
  match n with
  | Comment _ => []
  | Text _ => [n]
  | Template attrs contents => [Template (stripAttributes attrs) contents]
  | Elem tag attrs cs =>
      let cs' := flat_map processNode cs in
      let attrs' := stripAttributes attrs in
      match checkForHeadingMarker tag cs' with
      | Some heading => [heading]
      | None =>
          if String.eqb (Dom.tagName tag) "SPAN" then convertSpan attrs' cs'
          else [Elem tag attrs' cs']
      end
  end.

(** [processNode(body)]: the body is neither a paragraph nor a span, so it
    stays; its children are processed. *)
Definition processBody (cs : list node) : list node := flat_map processNode cs.

(* ================================================================== *)
(** * Stage 2: [cleanListItems] and [boldUpToColon] *)
(* ================================================================== *)

(** The effect of [unwrapElement] on every paragraph of a subtree, in
    document order: each [p] is replaced by its children. *)
Fixpoint unwrapParagraphs (n : node) : list node :=
  match n with
  | Elem tag attrs cs =>
      let cs' := flat_map unwrapParagraphs cs in
      if String.eqb tag "p" then cs' else [Elem tag attrs cs']
  | _ => [n]
  end.

Definition isStrongOrB (tag : string) : bool :=
  String.eqb (Dom.tagName tag) "STRONG" || String.eqb (Dom.tagName tag) "B".

(** The loop of [boldUpToColon] over the snapshot of the children.
    [kept] are the children already passed that stayed in the item (nodes
    that are neither text nor element), [acc] the children of the detached
    [strong], [rest] the part of the snapshot still to visit; the result is
    the child list of the item when the function returns.  A template is
    an element child that is neither [STRONG] nor [B]. *)
Fixpoint boldLoop (kept acc rest : list node) : list node :=
  match rest with
  | [] => kept ++ acc
  | child :: rest' =>
      match child with
      | Text text =>
          let colonIdx := JS.indexOf ":" text in
          if negb (colonIdx =? -1)%Z then
            let beforeColon := JS.substring2 0 (Z.to_nat (colonIdx + 1)) text in
            let afterColon := JS.substringFrom (Z.to_nat (colonIdx + 1)) text in
            kept ++ Elem "strong" [] (acc ++ [Text beforeColon])
                 :: (if String.eqb afterColon "" then [] else [Text afterColon])
                 ++ rest'
          else boldLoop kept (acc ++ [child]) rest'
      | Elem tag _ _ =>
          if isStrongOrB tag then kept ++ child :: rest'
          else
            let colonIdx := JS.indexOf ":" (Dom.textContent child) in
            if negb (colonIdx =? -1)%Z then
              Elem "strong" [] (acc ++ [child]) :: kept ++ rest'
            else boldLoop kept (acc ++ [child]) rest'
      | Comment _ => boldLoop (kept ++ [child]) acc rest'
      | Template _ _ =>
          let colonIdx := JS.indexOf ":" (Dom.textContent child) in
          if negb (colonIdx =? -1)%Z then
            Elem "strong" [] (acc ++ [child]) :: kept ++ rest'
          else boldLoop kept (acc ++ [child]) rest'
      end
  end.

Definition boldUpToColon (children : list node) : list node :=
  boldLoop [] [] children.

(** The body of the loop of [cleanListItems] for one [li] with the children
    [cs]: its children afterwards. *)
Definition cleanListItem (cs : list node) : list node :=
  let cs1 := flat_map unwrapParagraphs cs in
  let startsBold :=
    match cs1 with
    | Elem tag _ _ :: _ => isStrongOrB tag
    | _ => false
    end in
  if startsBold then cs1
  else
    let colonIndex := JS.indexOf ":" (Dom.textContent (Elem "li" [] cs1)) in
    if (0 <? colonIndex)%Z && (colonIndex <? 80)%Z then boldUpToColon cs1
    else cs1.

(** [querySelectorAll("li")] lists the items in document order, so an item
    is rewritten before the items inside it.  [fuel] bounds the depth of
    the descent. *)
Fixpoint cleanListItems_fuel (fuel : nat) (n : node) : node :=
  match fuel with
  | O => n
  | S f =>
      match n with
      | Elem tag attrs cs =>
          let cs1 := if String.eqb tag "li" then cleanListItem cs else cs in
          Elem tag attrs (map (cleanListItems_fuel f) cs1)
      | _ => n
      end
  end.

(** A measure that the descent decreases: an item counts 3, since the
    rewrite adds a [strong] and may split one text node. *)
Fixpoint weight (n : node) : nat :=
  match n with
  | Elem tag _ cs =>
      (if String.eqb tag "li" then 3 else 1) + list_sum (map weight cs)
  | _ => 1
  end.

Definition cleanListItems (cs : list node) : list node :=
  map (fun n => cleanListItems_fuel (weight n) n) cs.

(* ================================================================== *)
(** * Stage 3: [removeEmptyElements] *)
(* ================================================================== *)

Definition usefulAttrs : list string :=
  ["href"; "src"; "alt"; "title"; "id"; "name"; "data-"; "aria-"; "role"].

Definition hasUsefulAttributes (attrs : attributes) : bool :=
  existsb (fun attr : string * string =>
             existsb (fun useful => JS.startsWith (fst attr) useful) usefulAttrs)
          attrs.

Definition selfClosing : list string := ["IMG"; "BR"; "HR"; "INPUT"; "META"; "LINK"].

Definition String_dq : string := String JS.dquote EmptyString.

(** [removeEmptyElements(node)] for an element below the body: the empty
    list when it is removed, itself with pruned children otherwise.  A
    template has no child to visit and is no [P]; its [innerHTML] is the
    serialisation of its contents. *)
Fixpoint removeEmptyElements (n : node) : list node :=
  match n with
  | Elem tag attrs cs =>
      let cs' := flat_map removeEmptyElements cs in
      let innerHTML := JS.trim (Dom.innerHTML tag cs') in
      if String.eqb (Dom.tagName tag) "P"
         && (String.eqb innerHTML "" || String.eqb innerHTML "<br>"
             || String.eqb (JS.toLowerCase innerHTML) "<br/>")
      then []
      else if negb (includes selfClosing (Dom.tagName tag))
              && String.eqb innerHTML "" && negb (hasUsefulAttributes attrs)
      then []
      else [Elem tag attrs cs']
  | Template attrs contents =>
      let innerHTML := JS.trim (Dom.templateHTML contents) in
      if negb (includes selfClosing (Dom.tagName "template"))
         && String.eqb innerHTML "" && negb (hasUsefulAttributes attrs)
      then []
      else [n]
  | _ => [n]
  end.

(** [removeEmptyElements(body)]: the body itself is exempt. *)
Definition removeEmptyBody (cs : list node) : list node :=
  flat_map removeEmptyElements cs.

(* ================================================================== *)
(** * Stage 4: [autoLinkEmailsAndPhones] *)
(* ================================================================== *)

(** [new RegExp(`(${PHONE_REGEX.source})|(${EMAIL_REGEX.source})`, "g")];
    only group 1 is read. *)
Definition combined : JS.regex := JS.Alt (JS.Grp PHONE_REGEX) EMAIL_REGEX.

(** [matchText.replace(/[\s()-]/g, "")] *)
Definition PHONE_PUNCT : JS.regex :=
  JS.Cls (fun c => JS.is_space c || JS.one_of "()-" c).

Definition truthy (o : option string) : bool :=
  match o with
  | Some v => negb (String.eqb v "")
  | None => false
  end.

Definition anchorFor (m : JS.jsmatch) : node :=
  let matchText := JS.m_text m in
  let href :=
    if truthy (JS.m_group1 m)
    then "tel:" ++ JS.replaceAll PHONE_PUNCT "" matchText
    else "mailto:" ++ matchText in
  Elem "a" [("href", href)] (Dom.setTextContent matchText).

(** The loop over the matches (lines 275-300): the nodes appended to the
    fragment and the final [lastIndex]. *)
Fixpoint linkMatches (text : string) (matches : list (nat * JS.jsmatch))
         (lastIndex : nat) : list node * nat :=
  match matches with
  | [] => ([], lastIndex)
  | (matchIndex, m) :: rest =>
      let before :=
        if (lastIndex <? matchIndex)%nat
        then [Text (JS.substring2 lastIndex matchIndex text)] else [] in
      let '(nodes, last) :=
        linkMatches text rest (matchIndex + String.length (JS.m_text m)) in
      ((before ++ anchorFor m :: nodes)%list, last)
  end.

(** The nodes that replace a text node with the data [text]. *)
Definition linkText (text : string) : list node :=
  let matches := JS.matchAll combined text in
  match matches with
  | [] => [Text text]
  | _ =>
      let '(nodes, lastIndex) := linkMatches text matches 0 in
      (nodes ++ (if (lastIndex <? String.length text)%nat
                 then [Text (JS.substringFrom lastIndex text)] else []))%list
  end.

(** [inLink]: some ancestor is an [a] element ([closest("a")]).  The
    walker finds no text node below a template. *)
Fixpoint autoLink (inLink : bool) (n : node) : list node :=
  match n with
  | Text d => if inLink then [n] else linkText d
  | Comment _ => [n]
  | Template _ _ => [n]
  | Elem tag attrs cs =>
      [Elem tag attrs (flat_map (autoLink (inLink || String.eqb tag "a")) cs)]
  end.

Definition autoLinkEmailsAndPhones (cs : list node) : list node :=
  flat_map (autoLink false) cs.

(* ================================================================== *)
(** * [cleanHTML] on the parsed body *)
(* ================================================================== *)

(** The four passes on the children of the body. *)
Definition cleanBody (cs : list node) : list node :=
  autoLinkEmailsAndPhones (removeEmptyBody (cleanListItems (processBody cs))).

(** [body.innerHTML.trim()] after the passes. *)
Definition cleanParsed (cs : list node) : string :=
  JS.trim (Dom.innerHTML "body" (cleanBody cs)).

(* ================================================================== *)
(** * The platform's parser, on well-nested fragments *)
(* ================================================================== *)

(** [new DOMParser().parseFromString(html, "text/html").body] is a
    primitive of the platform.  This module models it on the fragments the
    examples below are written in: properly nested tags from a fixed list of
    ordinary elements and [template], quoted attribute values, comments and
    the five character references the serialiser emits.  The answer is
    [None] on every input for which the tree builder of the HTML standard
    would have to repair the markup (implied end tags, misnesting, unknown
    names, among them the names of SVG and MathML), so a [Some] is the tree
    the platform builds. *)
Module Parser.

Inductive token : Type :=
| TStart (name : string) (attrs : attributes) (selfClosing : bool)
| TEnd (name : string)
| TComment (data : string)
| TText (data : string).

(** The white space of the HTML tokenizer (carriage returns are outside the
    modelled fragment). *)
Definition html_space (c : ascii) : bool :=
  Nat.eqb (JS.code c) 9 || Nat.eqb (JS.code c) 10
  || Nat.eqb (JS.code c) 12 || Nat.eqb (JS.code c) 32.

(** Splits at the first occurrence of [pat]: the text before and after. *)
Fixpoint breakOn (pat s : string) : option (string * string) :=
  if String.prefix pat s then Some (EmptyString, JS.drop (String.length pat) s)
  else match s with
       | EmptyString => None
       | String c r =>
           match breakOn pat r with
           | Some (a, b) => Some (String c a, b)
           | None => None
           end
       end.

Definition entity (s : string) : option (ascii * nat) :=
  if String.prefix "amp;" s then Some ("&"%char, 4)
  else if String.prefix "lt;" s then Some ("<"%char, 3)
  else if String.prefix "gt;" s then Some (">"%char, 3)
  else if String.prefix "quot;" s then Some (JS.dquote, 5)
  else if String.prefix "nbsp;" s then Some ("160"%char, 5)
  else None.

(** Character references; [skip] counts the characters of the reference
    still to pass over. *)
Fixpoint decode (s : string) (skip : nat) : option string :=
  match s with
  | EmptyString => Some EmptyString
  | String c r =>
      match skip with
      | S k => decode r k
      | O =>
          if Ascii.eqb c "&" then
            match entity r with
            | Some (ch, n) => option_map (String ch) (decode r n)
            | None => None
            end
          else option_map (String c) (decode r 0)
      end
  end.

Definition is_alnum (c : ascii) : bool := JS.is_alpha c || JS.is_digit c.

Definition attr_name_char (c : ascii) : bool :=
  negb (html_space c || JS.one_of "'>/=<" c || Ascii.eqb c JS.dquote
        || Nat.eqb (JS.code c) 0).

Definition lower_ascii (c : ascii) : ascii :=
  if JS.is_upper c then ascii_of_nat (JS.code c + 32) else c.

Definition asciiLower (s : string) : string := JS.map_string lower_ascii s.

(** The attributes of a start tag, after its name: the attributes, the
    self-closing flag and the input after the tag. *)
Fixpoint lexAttrs (fuel : nat) (s : string) (acc : attributes)
  : option (attributes * bool * string) :=
  match fuel with
  | O => None
  | S f =>
      let s1 := JS.dropWhile html_space s in
      match s1 with
      | EmptyString => None
      | String c r =>
          if Ascii.eqb c ">" then Some (rev acc, false, r)
          else if String.prefix "/>" s1 then Some (rev acc, true, JS.drop 2 s1)
          else if Nat.eqb (String.length s1) (String.length s) then None
          else
            let name := asciiLower (JS.takeWhile attr_name_char s1) in
            let s2 := JS.dropWhile attr_name_char s1 in
            if String.eqb name "" then None
            else if match Dom.getAttribute name acc with Some _ => true | None => false end
            then None
            else
              match s2 with
              | String e (String q r2) =>
                  if Ascii.eqb e "=" then
                    if Ascii.eqb q JS.dquote || Ascii.eqb q "'" then
                      match breakOn (String q EmptyString) r2 with
                      | Some (v, r3) =>
                          match decode v 0 with
                          | Some v' => lexAttrs f r3 ((name, v') :: acc)
                          | None => None
                          end
                      | None => None
                      end
                    else None
                  else lexAttrs f s2 ((name, EmptyString) :: acc)
              | _ => lexAttrs f s2 ((name, EmptyString) :: acc)
              end
      end
  end.

Fixpoint lex (fuel : nat) (s : string) : option (list token) :=
  match fuel with
  | O => None
  | S f =>
      match s with
      | EmptyString => Some []
      | String c r =>
          if negb (Ascii.eqb c "<") then
            let text := JS.takeWhile (fun a => negb (Ascii.eqb a "<")) s in
            match decode text 0, lex f (JS.dropWhile (fun a => negb (Ascii.eqb a "<")) r) with
            | Some d, Some ts => Some (TText d :: ts)
            | _, _ => None
            end
          else if String.prefix "!--" r then
            let body := JS.drop 3 r in
            if String.prefix ">" body || String.prefix "->" body then None
            else match breakOn "-->" body with
                 | Some (d, rest) =>
                     if match breakOn "--!>" d with Some _ => true | None => false end
                     then None
                     else option_map (cons (TComment d)) (lex f rest)
                 | None => None
                 end
          else if String.prefix "/" r then
            let name := JS.takeWhile is_alnum (JS.drop 1 r) in
            let rest := JS.dropWhile html_space (JS.dropWhile is_alnum (JS.drop 1 r)) in
            match name, rest with
            | String n0 _, String g rest' =>
                if JS.is_alpha n0 && Ascii.eqb g ">"
                then option_map (cons (TEnd (asciiLower name))) (lex f rest')
                else None
            | _, _ => None
            end
          else
            let name := JS.takeWhile is_alnum r in
            match name with
            | String n0 _ =>
                if JS.is_alpha n0 then
                  match lexAttrs (S (String.length r)) (JS.dropWhile is_alnum r) [] with
                  | Some (attrs, sc, rest) =>
                      option_map (cons (TStart (asciiLower name) attrs sc)) (lex f rest)
                  | None => None
                  end
                else None
            | EmptyString => None
            end
      end
  end.

Definition headings : list string := ["h1"; "h2"; "h3"; "h4"; "h5"; "h6"].
Definition phrasing : list string :=
  ["span"; "a"; "b"; "i"; "u"; "em"; "strong"].
Definition blocks : list string :=
  ["div"; "p"; "ul"; "ol"; "li"; "blockquote"; "hr"].
Definition voids : list string := ["br"; "img"; "hr"].

Definition known (name : string) : bool :=
  includes headings name || includes phrasing name || includes blocks name
  || includes voids name.

(** A new [li] closes an open [li] unless a list or another special
    element lies between. *)
Fixpoint li_ok (open : list string) : bool :=
  match open with
  | [] => true
  | x :: r =>
      if String.eqb x "li" then false
      else if includes ["ul"; "ol"; "blockquote"] x || includes headings x then true
      else li_ok r
  end.

(** The open elements that the scope tests of the tree builder see: a
    template is a boundary of every scope, and it puts a marker on the list
    of active formatting elements. *)
Fixpoint in_scope (open : list string) : list string :=
  match open with
  | [] => []
  | x :: r => if String.eqb x "template" then [] else x :: in_scope r
  end.

(** The start tag [name] is inserted as it stands: no open element is
    closed for it.  [open] are the open elements in scope. *)
Definition plain_start (name : string) (open : list string) : bool :=
  (known name || String.eqb name "template")
  && negb ((includes blocks name || includes headings name) && includes open "p")
  && negb (includes headings name
           && match open with x :: _ => includes headings x | [] => false end)
  && (negb (String.eqb name "li") || li_ok open)
  && negb (String.eqb name "a" && includes open "a").

(** An open element: its name, its attributes and the children of its
    parent inserted before it, latest first. *)
Definition frame : Type := (string * attributes * list node)%type.

Fixpoint build (toks : list token) (cur : list node) (stack : list frame)
  : option (list node) :=
  match toks with
  | [] => match stack with
          | [] => Some (rev cur)
          | _ => None
          end
  | TText d :: r => build r (Text d :: cur) stack
  | TComment d :: r => build r (Comment d :: cur) stack
  | TStart n a sc :: r =>
      if plain_start n (in_scope (map (fun f : frame => fst (fst f)) stack)) then
        if includes voids n then build r (Elem n a [] :: cur) stack
        else if sc then None
        else build r [] ((n, a, cur) :: stack)
      else None
  | TEnd n :: r =>
      match stack with
      | (n', a, up) :: st =>
          if String.eqb n n' then
            build r ((if String.eqb n "template" then Template a (rev cur)
                      else Elem n a (rev cur)) :: up) st
          else None
      | [] => None
      end
  end.

(** Before the body is open, white space is ignored and comments are
    inserted outside the body. *)
Fixpoint skipProlog (toks : list token) : list token :=
  match toks with
  | TComment _ :: r => skipProlog r
  | TText d :: r =>
      match JS.dropWhile html_space d with
      | EmptyString => skipProlog r
      | d' => TText d' :: r
      end
  | _ => toks
  end.

Definition unsupported_char (c : ascii) : bool :=
  Nat.eqb (JS.code c) 0 || Nat.eqb (JS.code c) 13.

(** A template that comes before anything has opened the body is put
    into the head. *)
Definition opens_in_head (toks : list token) : bool :=
  match toks with
  | TStart n _ _ :: _ => String.eqb n "template"
  | _ => false
  end.

(** The children of the body of the parsed document. *)
Definition parseFromString (html : string) : option (list node) :=
  if existsb unsupported_char (list_ascii_of_string html) then None
  else match lex (S (String.length html)) html with
       | Some toks =>
           if opens_in_head (skipProlog toks) then None
           else build (skipProlog toks) [] []
       | None => None
       end.

End Parser.

(** [cleanHTML(html)]; [None] when [html] lies outside the modelled
    fragment of the parser. *)
Definition cleanHTML (html : string) : option string :=
  option_map cleanParsed (Parser.parseFromString html).

(* ================================================================== *)
(** * Stage 5: [beautifyHTML] and [minifyHTML] *)
(* ================================================================== *)

(** [/>\s+</g] *)
Definition BETWEEN_TAGS : JS.regex :=
  JS.seq [JS.chr ">"; JS.plus JS.is_space; JS.chr "<"].

(** [/\n\s*/g] *)
Definition NEWLINE_RUN : JS.regex :=
  JS.seq [JS.chr JS.lf; JS.star JS.is_space].

(** [/<\/?(\w+)[\s>].*/] *)
Definition TAG_NAME : JS.regex :=
  JS.seq [JS.chr "<"; JS.opt (JS.is_chr "/"); JS.Grp (JS.plus JS.is_word);
          JS.Cls (fun c => JS.is_space c || JS.is_chr ">" c); JS.star JS.is_dot].

(** The tokenizer loop of [beautifyHTML] (lines 329-350) on the input from
    index [i] on.  Every round consumes at least one character; [None]
    stands for running out of [fuel]. *)
Fixpoint tokenize (fuel : nat) (s : string) : option (list string) :=
  match fuel with
  | O => None
  | S f =>
      match s with
      | EmptyString => Some []
      | String c _ =>
          if Ascii.eqb c "<" then
            let end_ := JS.indexOf ">" s in
            if (end_ =? -1)%Z then Some [s]
            else
              option_map (cons (JS.substring2 0 (Z.to_nat (end_ + 1)) s))
                         (tokenize f (JS.substringFrom (Z.to_nat (end_ + 1)) s))
          else
            let end_ := JS.indexOf "<" s in
            if (end_ =? -1)%Z then Some [s]
            else
              let text := JS.substring2 0 (Z.to_nat end_) s in
              option_map (fun ts => if String.eqb (JS.trim text) "" then ts
                                    else text :: ts)
                         (tokenize f (JS.substringFrom (Z.to_nat end_) s))
      end
  end.

(** The loop over the tokens (lines 352-368), started at the level
    [indent]: for every line pushed, the level it is indented by and its
    token. *)
Fixpoint indentLines (tokens : list string) (indent : Z) : list (Z * string) :=
  match tokens with
  | [] => []
  | token :: rest =>
      if JS.startsWith token "</" then
        let indent := Z.max 0 (indent - 1) in
        (indent, token) :: indentLines rest indent
      else if JS.startsWith token "<" then
        let tagName := JS.toLowerCase (JS.replaceFirstGroup1 TAG_NAME token) in
        let isSelfClosing := JS.endsWith token "/>" || includes VOID_ELEMENTS tagName in
        (indent, token)
          :: indentLines rest
               (if negb isSelfClosing && negb (JS.startsWith token "<!")
                then (indent + 1)%Z else indent)
      else (indent, token) :: indentLines rest indent
  end.

(** ["  ".repeat(indent) + token]; [repeat] throws on a negative level. *)
Definition pushLine (line : Z * string) : option string :=
  option_map (fun pad => pad ++ snd line) (JS.repeat "  " (fst line)).

Fixpoint traverse {A B : Type} (f : A -> option B) (l : list A) : option (list B) :=
  match l with
  | [] => Some []
  | x :: r =>
      match f x, traverse f r with
      | Some y, Some ys => Some (y :: ys)
      | _, _ => None
      end
  end.

(** [beautifyHTML(html)]; [None] when the tokenizer runs out of fuel or
    [repeat] throws. *)
Definition beautifyHTML (html : string) : option string :=
  let result := JS.replaceAll BETWEEN_TAGS "><" html in
  match tokenize (S (String.length result)) result with
  | Some tokens => option_map (JS.join JS.newline) (traverse pushLine (indentLines tokens 0))
  | None => None
  end.

Definition minifyHTML (html : string) : string :=
  JS.trim (JS.replaceAll BETWEEN_TAGS "><" (JS.replaceAll NEWLINE_RUN "" html)).

(* ================================================================== *)
(** * The cleaner of the page, [src/app/page.tsx] *)
(* ================================================================== *)

(** The page does not import the library: it runs its own copies of
    [processNode], [checkForHeadingMarker] and [cleanHTML].  The attribute
    steps, [unwrapElement], [hasUsefulAttributes] and [removeEmptyElements]
    are, line for line, those of the library. *)
Module Page.

(** The chain of prefix tests of the page's [checkForHeadingMarker]
    (lines 62-71): three markers. *)
Definition headingMarker (textContent : string) : option (string * string) :=
  if JS.startsWith textContent "H1:" then Some ("h1", "H1:")
  else if JS.startsWith textContent "H2:" then Some ("h2", "H2:")
  else if JS.startsWith textContent "H3:" then Some ("h3", "H3:")
  else None.

Definition checkForHeadingMarker (tag : string) (cs : list node) : option node :=
  if negb (String.eqb (Dom.tagName tag) "P") then None
  else
    let textContent := JS.trim (Dom.textContent (Elem tag [] cs)) in
    match headingMarker textContent with
    | None => None
    | Some (headingLevel, prefix) =>
        let headingText :=
          JS.trim (JS.substringFrom (String.length prefix) textContent) in
        Some (Elem headingLevel [] (Dom.setTextContent headingText))
    end.

(** The page's [processNode(node)] (lines 16-52): the loop over the
    children recurses into elements and touches nothing else; every span
    is unwrapped. *)
Fixpoint processNode (n : node) : list node :=
  match n with
  | Elem tag attrs cs =>
      let cs' := flat_map processNode cs in
      let attrs' := stripAttributes attrs in
      match checkForHeadingMarker tag cs' with
      | Some heading => [heading]
      | None =>
          if String.eqb (Dom.tagName tag) "SPAN" then cs'
          else [Elem tag attrs' cs']
      end
  | Template attrs contents => [Template (stripAttributes attrs) contents]
  | _ => [n]
  end.

Definition processBody (cs : list node) : list node := flat_map processNode cs.

(** The two passes of the page's [cleanHTML] (lines 10-11) on the children
    of the body. *)
Definition cleanBody (cs : list node) : list node :=
  removeEmptyBody (processBody cs).

Definition cleanParsed (cs : list node) : string :=
  JS.trim (Dom.innerHTML "body" (cleanBody cs)).

Definition cleanHTML (html : string) : option string :=
  option_map cleanParsed (Parser.parseFromString html).

End Page.

(* ================================================================== *)
(** * The inputs of the examples *)
(* ================================================================== *)

Definition quoted (s : string) : string := String_dq ++ s ++ String_dq.

(** [<span style="font-weight:bold">Note</span>] *)
Definition bold_span_markup : string :=
  "<span style=" ++ quoted "font-weight:bold" ++ ">Note</span>".

(** [<span style="font-weight:bold;font-style:italic">Note</span>] *)
Definition bold_italic_span_markup : string :=
  "<span style=" ++ quoted "font-weight:bold;font-style:italic" ++ ">Note</span>".

(** A paragraph with editor clutter on it and on the span inside. *)
Definition sample_body : list node :=
  [Elem "p" [("class", "a"); ("id", " "); ("role", "presentation")]
     [Elem "span" [("style", "color:red"); ("dir", "ltr")]
        [Text "Call 0412 345 678"]]].

(** A body with work for each of the four passes. *)
Definition sample_page : list node :=
  [Elem "ul" [] [Elem "li" [] [Elem "p" [("class", "x")] [Text "Mail: a@b.com"]]];
   Elem "p" [] [Text " "; Elem "br" [] []];
   Comment "x"].

(** [<div><template><span class="x">a<!--c--></span></template></div>]
    and the body the parser builds for it. *)
Definition template_markup : string :=
  "<div><template><span class=" ++ quoted "x" ++ ">a<!--c--></span></template></div>".

Definition template_body : list node :=
  [Elem "div" []
     [Template [] [Elem "span" [("class", "x")] [Text "a"; Comment "c"]]]].

(** All the element nodes of a subtree, in document order: the node and
    its descendants.  The nodes of a template's contents are not among its
    descendants. *)
Fixpoint elements (n : node) : list node :=
  match n with
  | Elem _ _ cs => n :: flat_map elements cs
  | Template _ _ => [n]
  | _ => []
  end.

(** The element nodes that the serialisation of a subtree shows: those of
    [elements] and, below a template, those of its contents. *)
Fixpoint written_elements (n : node) : list node :=
  match n with
  | Elem _ _ cs => n :: flat_map written_elements cs
  | Template _ contents => n :: flat_map written_elements contents
  | _ => []
  end.

(** Attribute names are unique within every element of the subtree, as in
    any document tree. *)
Definition unique_names (n : node) : Prop :=
  match n with
  | Elem _ attrs _ => NoDup (map fst attrs)
  | Template attrs _ => NoDup (map fst attrs)
  | _ => True
  end.

Definition well_formed (cs : list node) : Prop :=
  Forall unique_names (flat_map elements cs).

(** The attribute invariant of the specification, on one attribute list. *)
Definition clean_attribute (a : string * string) : Prop :=
  ~ In (fst a) attrsToRemove
  /\ ~ (fst a = "role" /\ snd a = "presentation")
  /\ JS.trim (snd a) <> "".

Definition clean_attributes (n : node) : Prop :=
  match n with
  | Elem _ attrs _ => Forall clean_attribute attrs
  | Template attrs _ => Forall clean_attribute attrs
  | _ => True
  end.

(** Removing every attribute whose name is in [names]. *)
Definition without (names : list string) (attrs : attributes) : attributes :=
  filter (fun a => negb (includes names (fst a))) attrs.

Definition blank (a : string * string) : bool := String.eqb (JS.trim (snd a)) "".

(* ================================================================== *)
(** * Notions used in the statements and proofs *)
(* ================================================================== *)

(** The names [stripAttributes] removes from [attrs]. *)
Definition role_names (attrs : attributes) : list string :=
  if option_string_eqb (Dom.getAttribute "role" (without attrsToRemove attrs)) "presentation"
  then ["role"] else [].

Definition stripped_names (attrs : attributes) : list string :=
  (attrsToRemove ++ role_names attrs)
  ++ map fst (filter blank (without (attrsToRemove ++ role_names attrs) attrs)).

Definition heading_levels : list ascii := ["1"; "2"; "3"; "4"]%char.

Definition marker_prefix (k : ascii) : string := String "H" (String k ":").
Definition heading_tag (k : ascii) : string := String "h" (String k "").

Definition all_clean (l : list node) : Prop :=
  Forall clean_attributes (flat_map elements l).

Definition blank_string (s : string) : bool := JS.forallb_string JS.is_space s.

(** The claim as the specification words it: the names [href], [src],
    [alt], [title], [id], [name] and [role] are matched exactly, [data-]
    and [aria-] as prefixes. *)
Definition useful_as_specified (attrs : attributes) : bool :=
  existsb (fun a : string * string =>
             includes ["href"; "src"; "alt"; "title"; "id"; "name"; "role"] (fst a)
             || JS.startsWith (fst a) "data-" || JS.startsWith (fst a) "aria-")
          attrs.

Definition survives_as_specified (n : node) : Prop :=
  match n with
  | Elem tag attrs cs =>
      includes selfClosing (Dom.tagName tag) = true
      \/ JS.trim (Dom.innerHTML tag cs) <> ""
      \/ useful_as_specified attrs = true
  | Template attrs contents =>
      JS.trim (Dom.templateHTML contents) <> ""
      \/ useful_as_specified attrs = true
  | _ => True
  end.

(** What the code guarantees: every entry of [usefulAttrs] is a prefix. *)
Definition survives (n : node) : Prop :=
  match n with
  | Elem tag attrs cs =>
      includes selfClosing (Dom.tagName tag) = true
      \/ JS.trim (Dom.innerHTML tag cs) <> ""
      \/ exists a useful, In a attrs /\ In useful usefulAttrs
                          /\ JS.startsWith (fst a) useful = true
  | Template attrs contents =>
      JS.trim (Dom.templateHTML contents) <> ""
      \/ exists a useful, In a attrs /\ In useful usefulAttrs
                          /\ JS.startsWith (fst a) useful = true
  | _ => True
  end.

(** A node whose serialisation is blank: a text node of white space. *)
Definition blank_node (raw : bool) (n : node) : bool :=
  blank_string (Dom.outerHTML raw n).

Definition rendered (line : Z * string) : string :=
  JS.repeat_nat "  " (Z.to_nat (fst line)) ++ snd line.

(** The tail of a gap [>], white space, [<] at the start of [u]: the input
    after the [<]. *)
Definition gap_rest (u : string) : option string :=
  match u with
  | String c t =>
      if JS.is_chr ">" c && (1 <=? String.length (JS.takeWhile JS.is_space t))%nat then
        match JS.dropWhile JS.is_space t with
        | String c' r => if JS.is_chr "<" c' then Some r else None
        | EmptyString => None
        end
      else None
  | EmptyString => None
  end.

(** No match of [r] starts anywhere in [s]. *)
Fixpoint NoMatch (r : JS.regex) (s : string) : Prop :=
  JS.exec r s = None
  /\ match s with
     | EmptyString => True
     | String _ t => NoMatch r t
     end.

Definition no_newline (s : string) : bool :=
  JS.forallb_string (fun c => negb (JS.is_chr JS.lf c)) s.

(** The leading white space of a string and the character after it. *)
Definition lead (s : string) : string * option ascii :=
  (JS.takeWhile JS.is_space s,
   match JS.dropWhile JS.is_space s with
   | String c _ => Some c
   | EmptyString => None
   end).

Definition all_ascii : list ascii := map ascii_of_nat (List.seq 0 256).

(** Every character of the class [p] lies in the class [q]. *)
Definition subclass (p q : ascii -> bool) : bool :=
  forallb (fun c => implb (p c) (q c)) all_ascii.

(** All the classes of [r] lie in [q]. *)
Fixpoint classes_in (q : ascii -> bool) (r : JS.regex) : bool :=
  match r with
  | JS.Eps => true
  | JS.Cls p => subclass p q
  | JS.Rep p _ _ => subclass p q
  | JS.Seq a b => classes_in q a && classes_in q b
  | JS.Alt a b => classes_in q a && classes_in q b
  | JS.Grp a => classes_in q a
  end.

Fixpoint has_group (r : JS.regex) : bool :=
  match r with
  | JS.Seq a b => has_group a || has_group b
  | JS.Alt a b => has_group a || has_group b
  | JS.Grp _ => true
  | _ => false
  end.

(** The length of the shortest string [r] matches. *)
Fixpoint min_length (r : JS.regex) : nat :=
  match r with
  | JS.Eps => 0
  | JS.Cls _ => 1
  | JS.Rep _ lo _ => lo
  | JS.Seq a b => min_length a + min_length b
  | JS.Alt a b => Nat.min (min_length a) (min_length b)
  | JS.Grp a => min_length a
  end.

Definition phone_punct (c : ascii) : bool := JS.is_space c || JS.one_of "()-" c.

Definition digit_or_punct (c : ascii) : bool := JS.is_digit c || phone_punct c.

(** [PHONE_INTL] after its leading [+]. *)
Definition PHONE_INTL_TAIL : JS.regex :=
  JS.Seq (JS.lit "61")
         (JS.seq [JS.opt JS.is_space; JS.Cls JS.is_digit; JS.opt sp_or_dash;
                  JS.exactly 4 JS.is_digit; JS.opt sp_or_dash; JS.exactly 4 JS.is_digit]).

Definition PHONE_NATIONAL : JS.regex :=
  JS.alt [PHONE_PAREN; PHONE_LANDLINE; PHONE_MOBILE; PHONE_TOLLFREE].

(** A telephone match is an optional leading [+] followed by digits,
    white space, dashes and parentheses; only the international form has
    the [+]. *)
Definition phone_text (w : string) : Prop :=
  w <> ""
  /\ (JS.forallb_string digit_or_punct w = true
      \/ exists w', w = String "+" w' /\ JS.forallb_string digit_or_punct w' = true).

(** The target after [tel:]: digits, behind a [+] for the international
    form. *)
Definition tel_number (matchText d : string) : Prop :=
  JS.forallb_string JS.is_digit d = true
  \/ (JS.startsWith matchText "+" = true
      /\ exists d', d = String "+" d' /\ JS.forallb_string JS.is_digit d' = true).

(** A node the sanitizer leaves as it is. *)
Definition sanitized (n : node) : Prop := processNode n = [n].

(** A node the pruner leaves as it is. *)
Definition pruned (n : node) : Prop := removeEmptyElements n = [n].

Definition total_weight (l : list node) : nat := list_sum (map weight l).

(** ** Notions for the further properties *)

(** Every node of a subtree, in document order: the node and its
    descendants. *)
Fixpoint nodes_of (n : node) : list node :=
  n :: match n with
       | Elem _ _ cs => flat_map nodes_of cs
       | _ => []
       end.

(** A subtree without comment nodes and without [span] elements. *)
Fixpoint tidy (n : node) : bool :=
  match n with
  | Comment _ => false
  | Text _ => true
  | Template _ _ => true
  | Elem tag _ cs =>
      negb (String.eqb (Dom.tagName tag) "SPAN") && forallb tidy cs
  end.

(** The text of sibling nodes: [textContent] of an element holding them. *)
Definition innerText (cs : list node) : string :=
  Dom.textContent (Elem "body" [] cs).

(** The characters of a string that are not white space. *)
Definition nonspace (s : string) : string :=
  JS.filter_string (fun c => negb (JS.is_space c)) s.

(** What the Auto-Linker puts in the place of a piece of a text node: the
    piece as a text node, or an [a] element with the one attribute [href]
    around the piece, which is not empty. *)
Definition piece (n : node) : Prop :=
  match n with
  | Text _ => True
  | Elem tag [(name, _)] [Text d] => tag = "a" /\ name = "href" /\ d <> ""
  | _ => False
  end.

(** [linked n l]: the nodes [l] are the node [n] with pieces of its text
    nodes wrapped in links, and nothing else changed: a text node has become
    pieces whose texts, in their order, make up its data; every other node
    is in its place, an element with the same name and attributes. *)
Inductive linked : node -> list node -> Prop :=
| linked_text (d : string) (l : list node) :
    Forall piece l -> innerText l = d -> linked (Text d) l
| linked_comment (d : string) : linked (Comment d) [Comment d]
| linked_template (attrs : attributes) (contents : list node) :
    linked (Template attrs contents) [Template attrs contents]
| linked_elem (tag : string) (attrs : attributes) (cs : list node)
              (ls : list (list node)) :
    Forall2 linked cs ls -> linked (Elem tag attrs cs) [Elem tag attrs (List.concat ls)].

(** A subtree without [strong] and [b] elements. *)
Fixpoint no_bold (n : node) : bool :=
  match n with
  | Elem tag _ cs => negb (isStrongOrB tag) && forallb no_bold cs
  | _ => true
  end.

(** No list item of the subtree holds a [strong] or [b] element. *)
Fixpoint items_plain (n : node) : bool :=
  match n with
  | Elem tag _ cs =>
      (if String.eqb tag "li" then forallb no_bold cs else true)
      && forallb items_plain cs
  | _ => true
  end.

(** A subtree without [p] elements. *)
Fixpoint no_paragraph (n : node) : bool :=
  match n with
  | Elem tag _ cs => negb (String.eqb tag "p") && forallb no_paragraph cs
  | _ => true
  end.

(** No list item of the subtree holds a [p] element, at any depth. *)
Fixpoint items_unwrapped (n : node) : bool :=
  match n with
  | Elem tag _ cs =>
      (if String.eqb tag "li" then forallb no_paragraph cs else true)
      && forallb items_unwrapped cs
  | _ => true
  end.

Definition no_colon (s : string) : bool :=
  JS.forallb_string (fun c => negb (Ascii.eqb c ":")) s.

(** [EMAIL_REGEX] after the local part and the [@]. *)
Definition EMAIL_TAIL : JS.regex :=
  JS.seq [JS.plus email_domain; JS.lit "."; JS.at_least 2 JS.is_alpha].

(** An address as the pattern matches it: a non-empty local part, [@], and
    a domain part of at least four characters. *)
Definition email_text (w : string) : Prop :=
  exists local domain,
    w = local ++ String "@" domain
    /\ local <> ""
    /\ JS.forallb_string email_local local = true
    /\ JS.forallb_string email_domain domain = true
    /\ 4 <= String.length domain.

(** No paragraph of the subtree has a text that starts, once trimmed, with
    one of the heading markers. *)
Definition unmarked (n : node) : Prop :=
  match n with
  | Elem tag _ cs => checkForHeadingMarker tag cs = None
  | _ => True
  end.

(** An element that serialises without an end tag has no children, as in
    every parsed document. *)
Definition childless_void (n : node) : Prop :=
  match n with
  | Elem tag _ cs => includes Dom.serializes_as_void tag = true -> cs = []
  | _ => True
  end.

(** The same of every element of a list of subtrees. *)
Definition childless (l : list node) : Prop :=
  Forall childless_void (flat_map elements l).

(** A subtree without comment nodes. *)
Fixpoint comment_free (n : node) : bool :=
  match n with
  | Comment _ => false
  | Text _ => true
  | Template _ _ => true
  | Elem _ _ cs => forallb comment_free cs
  end.

(** [unmarked], for the three markers of the page. *)
Definition page_unmarked (n : node) : Prop :=
  match n with
  | Elem tag _ cs => Page.checkForHeadingMarker tag cs = None
  | _ => True
  end.

(** A body with a comment at each depth. *)
Definition commented_page : list node :=
  [Comment "a";
   Elem "div" [("class", "x")]
     [Elem "span" [] [Comment "b"; Text "H4: t"]; Elem "p" [] [Elem "br" [] []]]].

Fixpoint count_char (c : ascii) (s : string) : nat :=
  match s with
  | EmptyString => 0
  | String a r => (if Ascii.eqb a c then 1 else 0) + count_char c r
  end.

Fixpoint last_char (s : string) : option ascii :=
  match s with
  | EmptyString => None
  | String a r =>
      match last_char r with
      | Some b => Some b
      | None => Some a
      end
  end.

(** A string that opens with its only [<] and closes with its only [>]. *)
Definition one_tag (s : string) : Prop :=
  (exists r, s = String "<" r)
  /\ count_char "<" s = 1
  /\ count_char ">" s = 1
  /\ last_char s = Some ">"%char.

(* ================================================================== *)
(** * Properties *)
(* ================================================================== *)

(** ** Induction on trees *)

Lemma node_induction (P : node -> Prop) :
  (forall tag attrs cs, Forall P cs -> P (Elem tag attrs cs)) ->
  (forall d, P (Text d)) ->
  (forall d, P (Comment d)) ->
  (forall attrs contents, P (Template attrs contents)) ->
  forall n, P n.
Proof.
  intros He Ht Hc Hp. fix IH 1. intros [tag attrs cs | d | d | attrs contents].
  - apply He.
    exact ((fix go (l : list node) : Forall P l :=
              match l with
              | [] => Forall_nil P
              | x :: r => Forall_cons x (IH x) (go r)
              end) cs).
  - apply Ht.
  - apply Hc.
  - apply Hp.
Qed.

(** ** Attributes *)

Lemma includes_In (l : list string) (s : string) :
  includes l s = true <-> In s l.
Proof.
  unfold includes. rewrite existsb_exists. split.
  - intros [x [Hx Heq]]. apply String.eqb_eq in Heq. now subst.
  - intros H. exists s. split; [assumption | apply String.eqb_refl].
Qed.

Lemma includes_app (l1 l2 : list string) (s : string) :
  includes (l1 ++ l2) s = includes l1 s || includes l2 s.
Proof. unfold includes. apply existsb_app. Qed.

Lemma without_nil (attrs : attributes) : without [] attrs = attrs.
Proof.
  unfold without. induction attrs as [|a l IH]; simpl; [reflexivity|].
  f_equal. exact IH.
Qed.

Lemma without_without (ms ns : list string) (attrs : attributes) :
  without ns (without ms attrs) = without (ms ++ ns) attrs.
Proof.
  unfold without. induction attrs as [|a l IH]; simpl; [reflexivity|].
  rewrite includes_app.
  destruct (includes ms (fst a)) eqn:Hm; simpl.
  - exact IH.
  - destruct (includes ns (fst a)); simpl; now rewrite IH.
Qed.

Lemma removeAttribute_without (name : string) (attrs : attributes) :
  Dom.removeAttribute name attrs = without [name] attrs.
Proof.
  unfold Dom.removeAttribute, without. apply filter_ext. intros a.
  unfold includes. simpl. now rewrite orb_false_r.
Qed.

Lemma fold_remove_names (names : list string) (attrs : attributes) :
  fold_left (fun acc attr => Dom.removeAttribute attr acc) names attrs
  = without names attrs.
Proof.
  revert attrs. induction names as [|n ns IH]; intros attrs; simpl.
  - symmetry. apply without_nil.
  - rewrite IH, removeAttribute_without, without_without. reflexivity.
Qed.

Lemma fold_remove_blank (snapshot attrs : attributes) :
  fold_left (fun acc (attr : string * string) =>
               if String.eqb (JS.trim (snd attr)) ""
               then Dom.removeAttribute (fst attr) acc else acc)
            snapshot attrs
  = without (map fst (filter blank snapshot)) attrs.
Proof.
  revert attrs. induction snapshot as [|a l IH]; intros attrs; simpl.
  - symmetry. apply without_nil.
  - rewrite IH. unfold blank at 2.
    destruct (String.eqb (JS.trim (snd a)) ""); simpl.
    + now rewrite removeAttribute_without, without_without.
    + reflexivity.
Qed.

Lemma In_without (names : list string) (attrs : attributes) (a : string * string) :
  In a (without names attrs) <-> In a attrs /\ ~ In (fst a) names.
Proof.
  unfold without. rewrite filter_In, negb_true_iff.
  rewrite <- includes_In. destruct (includes names (fst a)); intuition congruence.
Qed.

Lemma getAttribute_without_in (name : string) (names : list string) (attrs : attributes) :
  In name names -> Dom.getAttribute name (without names attrs) = None.
Proof.
  intros Hin. induction attrs as [|[n v] l IH]; simpl; [reflexivity|].
  destruct (includes names n) eqn:Hn; simpl; [exact IH|].
  destruct (String.eqb n name) eqn:He; [|exact IH].
  apply String.eqb_eq in He. subst n.
  apply includes_In in Hin. congruence.
Qed.

Lemma getAttribute_without_out (name : string) (names : list string) (attrs : attributes) :
  ~ In name names ->
  Dom.getAttribute name (without names attrs) = Dom.getAttribute name attrs.
Proof.
  intros Hout. induction attrs as [|[n v] l IH]; simpl; [reflexivity|].
  destruct (includes names n) eqn:Hn; simpl.
  - destruct (String.eqb n name) eqn:He; [|exact IH].
    apply String.eqb_eq in He. subst n. apply includes_In in Hn. contradiction.
  - now rewrite IH.
Qed.

Lemma stripAttributes_without (attrs : attributes) :
  stripAttributes attrs = without (stripped_names attrs) attrs.
Proof.
  unfold stripAttributes, stripped_names, role_names.
  rewrite fold_remove_names.
  destruct (option_string_eqb (Dom.getAttribute "role" (without attrsToRemove attrs)) "presentation").
  - rewrite removeAttribute_without, without_without.
    rewrite fold_remove_blank, without_without. reflexivity.
  - rewrite app_nil_r. rewrite fold_remove_blank, without_without. reflexivity.
Qed.

Lemma stripAttributes_no_style (attrs : attributes) :
  Dom.getAttribute "style" (stripAttributes attrs) = None.
Proof.
  rewrite stripAttributes_without. apply getAttribute_without_in.
  unfold stripped_names. apply in_or_app. left. apply in_or_app. left.
  simpl. tauto.
Qed.

(** After the attribute steps the span branch reads an empty style, finds
    neither indicator and unwraps. *)
Lemma convertSpan_stripped (attrs : attributes) (cs : list node) :
  convertSpan (stripAttributes attrs) cs = cs.
Proof.
  unfold convertSpan. rewrite stripAttributes_no_style. reflexivity.
Qed.

(** C1 (the code departs from the claim).  For the span of the
    specification's example, with [style] set to [font-weight:bold],
    [cleanHTML] returns the bare text [Note] and not [<strong>Note</strong>];
    with [font-style:italic] added it returns [Note] again.  The cause:
    [processNode] removes the [style] attribute before the span branch
    reads it, so for every span the branch finds no indicator and unwraps
    the span, although the same branch applied to the attributes as parsed
    builds [strong] and [em]. *)
Theorem C1_bold_span_is_unwrapped :
  cleanHTML bold_span_markup = Some "Note"
  /\ cleanHTML bold_italic_span_markup = Some "Note"
  /\ (forall attrs cs,
        processNode (Elem "span" attrs cs) = flat_map processNode cs)
  /\ convertSpan [("style", "font-weight:bold")] [Text "Note"]
     = [Elem "strong" [] [Text "Note"]]
  /\ convertSpan [("style", "font-weight:bold;font-style:italic")] [Text "Note"]
     = [Elem "strong" [] [Elem "em" [] [Text "Note"]]].
Proof.
  split; [vm_compute; reflexivity|].
  split; [vm_compute; reflexivity|].
  split; [|split; vm_compute; reflexivity].
  intros attrs cs. simpl processNode.
  change (checkForHeadingMarker "span" (flat_map processNode cs)) with (@None node).
  cbv iota. change (String.eqb (Dom.tagName "span") "SPAN") with true. cbv iota.
  apply convertSpan_stripped.
Qed.

(** ** Strings *)

Lemma substring_all (s : string) : String.substring 0 (String.length s) s = s.
Proof. induction s as [|c r IH]; simpl; [reflexivity | now rewrite IH]. Qed.

Lemma trimEnd_nonspace_head (c : ascii) (s : string) :
  JS.is_space c = false -> JS.trimEnd (String c s) <> "".
Proof.
  intros Hc. simpl. destruct (JS.trimEnd s); [rewrite Hc|]; discriminate.
Qed.

Lemma trim_nonspace_head (c : ascii) (s : string) :
  JS.is_space c = false -> JS.trim (String c s) <> "".
Proof.
  intros Hc. unfold JS.trim, JS.trimStart. simpl. rewrite Hc.
  now apply trimEnd_nonspace_head.
Qed.

(** ** Heading markers (C6) *)

Lemma headingMarker_marker (k : ascii) (rest : string) :
  In k heading_levels ->
  headingMarker (marker_prefix k ++ rest) = Some (heading_tag k, marker_prefix k).
Proof.
  intros Hk. simpl in Hk.
  destruct Hk as [<- | [<- | [<- | [<- | []]]]]; reflexivity.
Qed.

Lemma substringFrom_app (p rest : string) :
  JS.substringFrom (String.length p) (p ++ rest) = rest.
Proof.
  unfold JS.substringFrom. induction p as [|c p IH]; simpl.
  - rewrite Nat.sub_0_r. apply substring_all.
  - exact IH.
Qed.

Lemma checkForHeadingMarker_marker (cs : list node) (k : ascii) (rest : string) :
  In k heading_levels ->
  JS.trim (Dom.textContent (Elem "p" [] cs)) = marker_prefix k ++ rest ->
  checkForHeadingMarker "p" cs
  = Some (Elem (heading_tag k) [] (Dom.setTextContent (JS.trim rest))).
Proof.
  intros Hk Htext. unfold checkForHeadingMarker.
  change (negb (String.eqb (Dom.tagName "p") "P")) with false. cbv iota zeta.
  rewrite Htext, (headingMarker_marker k rest Hk), substringFrom_app.
  reflexivity.
Qed.

Lemma checkForHeadingMarker_no_marker (tag : string) (cs : list node) :
  (forall k, In k heading_levels ->
             JS.startsWith (JS.trim (Dom.textContent (Elem tag [] cs))) (marker_prefix k) = false) ->
  checkForHeadingMarker tag cs = None.
Proof.
  intros H. unfold checkForHeadingMarker.
  destruct (negb (String.eqb (Dom.tagName tag) "P")); [reflexivity|].
  cbv zeta. unfold headingMarker.
  change "H1:" with (marker_prefix "1"). change "H2:" with (marker_prefix "2").
  change "H3:" with (marker_prefix "3"). change "H4:" with (marker_prefix "4").
  rewrite !H by (simpl; tauto). reflexivity.
Qed.

(** C6.  [cleanHTML] turns [<p>H2: Pricing</p>] into [<h2>Pricing</h2>]
    and leaves [<p>h2: Pricing</p>] as it is.  In general a paragraph whose
    trimmed text starts with [Hk:] for k = 1..4 is replaced by the heading
    [hk] holding the trimmed remainder, and a paragraph whose trimmed text
    starts with none of the four upper-case prefixes is kept, with its
    processed children. *)
Theorem C6_heading_marker :
  cleanHTML "<p>H2: Pricing</p>" = Some "<h2>Pricing</h2>"
  /\ cleanHTML "<p>h2: Pricing</p>" = Some "<p>h2: Pricing</p>"
  /\ (forall attrs cs k rest,
        In k heading_levels ->
        JS.trim (Dom.textContent (Elem "p" [] (flat_map processNode cs)))
        = marker_prefix k ++ rest ->
        processNode (Elem "p" attrs cs)
        = [Elem (heading_tag k) [] (Dom.setTextContent (JS.trim rest))])
  /\ (forall attrs cs,
        (forall k, In k heading_levels ->
           JS.startsWith (JS.trim (Dom.textContent (Elem "p" [] (flat_map processNode cs))))
                         (marker_prefix k) = false) ->
        processNode (Elem "p" attrs cs)
        = [Elem "p" (stripAttributes attrs) (flat_map processNode cs)]).
Proof.
  split; [vm_compute; reflexivity|].
  split; [vm_compute; reflexivity|].
  split.
  - intros attrs cs k rest Hk Htext. simpl processNode.
    now rewrite (checkForHeadingMarker_marker _ k rest).
  - intros attrs cs H. simpl processNode.
    now rewrite checkForHeadingMarker_no_marker.
Qed.

Lemma C6_heading_marker_witness :
  processNode (Elem "p" [("class", "x")] [Text "  H3: Plans "])
  = [Elem "h3" [] [Text "Plans"]]
  /\ processNode (Elem "p" [] [Text "h3: Plans"])
     = [Elem "p" [] [Text "h3: Plans"]].
Proof.
  split.
  - apply (proj1 (proj2 (proj2 C6_heading_marker))
             [("class", "x")] [Text "  H3: Plans "] "3"%char " Plans").
    + simpl. tauto.
    + vm_compute. reflexivity.
  - apply (proj2 (proj2 (proj2 C6_heading_marker)) [] [Text "h3: Plans"]).
    intros k Hk. simpl in Hk.
    destruct Hk as [<- | [<- | [<- | [<- | []]]]]; vm_compute; reflexivity.
Defined.

(** ** The aborted label rewrite (C3) *)

(** C3 (the code departs from the claim).  In the item
    [<li>x<b>y</b>: z</li>] the scan of [boldUpToColon] moves the text [x]
    into the detached [strong], meets the [b] element and returns at once:
    the block that moves the accumulated children back is skipped, and the
    item is left without [x].  The claim asks for all three children in
    their order. *)
Theorem C3_abort_drops_moved_children :
  boldUpToColon [Text "x"; Elem "b" [] [Text "y"]; Text ": z"]
  = [Elem "b" [] [Text "y"]; Text ": z"]
  /\ cleanHTML "<ul><li>x<b>y</b>: z</li></ul>"
     = Some "<ul><li><b>y</b>: z</li></ul>"
  /\ (forall acc attrs cs rest,
        boldLoop [] acc (Elem "b" attrs cs :: rest) = Elem "b" attrs cs :: rest
        /\ boldLoop [] acc (Elem "strong" attrs cs :: rest)
           = Elem "strong" attrs cs :: rest).
Proof.
  split; [vm_compute; reflexivity|].
  split; [vm_compute; reflexivity|].
  intros acc attrs cs rest. split; reflexivity.
Qed.

(** ** The example of the Auto-Linker (C7) *)

(** C7.  The text node [Call 0412 345 678 or email a@b.com] is replaced
    by four nodes: the text [Call ], a link to [tel:0412345678] around
    [0412 345 678], the text [ or email ] and a link to [mailto:a@b.com]
    around [a@b.com]; within a paragraph the pipeline serialises them in
    that order. *)
Theorem C7_auto_link_example :
  autoLinkEmailsAndPhones [Text "Call 0412 345 678 or email a@b.com"]
  = [Text "Call ";
     Elem "a" [("href", "tel:0412345678")] [Text "0412 345 678"];
     Text " or email ";
     Elem "a" [("href", "mailto:a@b.com")] [Text "a@b.com"]]
  /\ cleanHTML "<p>Call 0412 345 678 or email a@b.com</p>"
     = Some ("<p>Call <a href=" ++ quoted "tel:0412345678" ++ ">0412 345 678</a>"
             ++ " or email <a href=" ++ quoted "mailto:a@b.com" ++ ">a@b.com</a></p>").
Proof. split; vm_compute; reflexivity. Qed.

(** ** The attribute invariant (C5) *)

Lemma all_clean_nil : all_clean [].
Proof. constructor. Qed.

Lemma all_clean_app (l1 l2 : list node) :
  all_clean (l1 ++ l2) <-> all_clean l1 /\ all_clean l2.
Proof. unfold all_clean. rewrite flat_map_app. apply Forall_app. Qed.

Lemma all_clean_cons (n : node) (l : list node) :
  all_clean (n :: l) <-> all_clean [n] /\ all_clean l.
Proof. apply (all_clean_app [n] l). Qed.

Lemma all_clean_elem (tag : string) (attrs : attributes) (cs : list node) :
  all_clean [Elem tag attrs cs] <-> Forall clean_attribute attrs /\ all_clean cs.
Proof.
  unfold all_clean. simpl. rewrite app_nil_r. split.
  - intros H. inversion H; subst. now split.
  - intros [Ha Hc]. now constructor.
Qed.

Lemma all_clean_template (attrs : attributes) (contents : list node) :
  all_clean [Template attrs contents] <-> Forall clean_attribute attrs.
Proof.
  unfold all_clean. simpl. split.
  - intros H. now inversion H; subst.
  - intros H. now repeat constructor.
Qed.

Lemma all_clean_text (d : string) : all_clean [Text d].
Proof. constructor. Qed.

Lemma all_clean_comment (d : string) : all_clean [Comment d].
Proof. constructor. Qed.

Lemma all_clean_flat_map (f : node -> list node) (l : list node) :
  Forall (fun n => all_clean (f n)) l -> all_clean (flat_map f l).
Proof.
  induction 1 as [|n l Hn _ IH]; simpl; [constructor|].
  apply all_clean_app. now split.
Qed.

Lemma all_clean_forall (l : list node) :
  all_clean l <-> Forall (fun n => all_clean [n]) l.
Proof.
  induction l as [|n l IH].
  - split; constructor.
  - rewrite all_clean_cons, IH. split.
    + intros [H1 H2]. now constructor.
    + intros H. inversion H; subst. now split.
Qed.

Lemma getAttribute_unique (name v : string) (attrs : attributes) :
  NoDup (map fst attrs) -> In (name, v) attrs ->
  Dom.getAttribute name attrs = Some v.
Proof.
  induction attrs as [|[n w] l IH]; simpl; intros Hnd Hin; [contradiction|].
  inversion Hnd as [|? ? Hnotin Hnd']; subst.
  destruct Hin as [Heq | Hin].
  - inversion Heq; subst. now rewrite String.eqb_refl.
  - destruct (String.eqb n name) eqn:He.
    + apply String.eqb_eq in He. subst n. exfalso. apply Hnotin.
      change name with (fst (name, v)). now apply in_map.
    + now apply IH.
Qed.

Lemma without_unique (names : list string) (attrs : attributes) :
  NoDup (map fst attrs) -> NoDup (map fst (without names attrs)).
Proof.
  unfold without. induction attrs as [|a l IH]; simpl; intros Hnd; [constructor|].
  inversion Hnd as [|? ? Hnotin Hnd']; subst.
  destruct (negb (includes names (fst a))); simpl; [|now apply IH].
  constructor; [|now apply IH].
  intros Hin. apply Hnotin. apply in_map_iff in Hin. destruct Hin as [b [Hb Hin]].
  apply filter_In in Hin. apply in_map_iff. exists b. tauto.
Qed.

Lemma option_string_eqb_true (o : option string) (s : string) :
  option_string_eqb o s = true <-> o = Some s.
Proof.
  destruct o as [v|]; simpl.
  - rewrite String.eqb_eq. split; congruence.
  - split; discriminate.
Qed.

(** What the attribute steps of [processNode] establish on an element. *)
Lemma stripAttributes_clean (attrs : attributes) :
  NoDup (map fst attrs) -> Forall clean_attribute (stripAttributes attrs).
Proof.
  intros Hnd. rewrite stripAttributes_without. apply Forall_forall.
  intros [n v] Hin. apply In_without in Hin. destruct Hin as [Hin Hout].
  unfold stripped_names in Hout. simpl fst in Hout.
  assert (H1 : ~ In n (attrsToRemove ++ role_names attrs))
    by (intros H; apply Hout; apply in_or_app; now left).
  assert (H2 : ~ In n (map fst (filter blank
                                  (without (attrsToRemove ++ role_names attrs) attrs))))
    by (intros H; apply Hout; apply in_or_app; now right).
  unfold clean_attribute. simpl fst. simpl snd. repeat split.
  - intros H. apply H1. apply in_or_app. now left.
  - intros [Hn Hv]. subst n v. apply H1. apply in_or_app. right.
    unfold role_names.
    assert (Hr : ~ In "role" attrsToRemove)
      by (simpl; intuition discriminate).
    assert (Hg : Dom.getAttribute "role" (without attrsToRemove attrs)
                 = Some "presentation").
    { apply getAttribute_unique; [now apply without_unique|].
      apply In_without. now split. }
    rewrite Hg. simpl. now left.
  - intros Hblank. apply H2.
    change n with (fst (n, v)). apply in_map. apply filter_In. split.
    + apply In_without. now split.
    + unfold blank. simpl. rewrite Hblank. reflexivity.
Qed.

Lemma processNode_clean (n : node) :
  Forall unique_names (elements n) -> all_clean (processNode n).
Proof.
  induction n as [tag attrs cs IH | d | d | tattrs tcs] using node_induction; intros Hwf.
  - simpl in Hwf. inversion Hwf as [|? ? Hattrs Hcs]; subst.
    assert (Hcs' : all_clean (flat_map processNode cs)).
    { apply all_clean_flat_map. apply Forall_forall. intros c Hc.
      rewrite Forall_forall in IH. apply IH; [assumption|].
      apply Forall_forall. intros e He. rewrite Forall_forall in Hcs.
      apply Hcs. apply in_flat_map. now exists c. }
    simpl processNode.
    destruct (checkForHeadingMarker tag (flat_map processNode cs)) as [h|] eqn:Hh.
    + unfold checkForHeadingMarker in Hh.
      destruct (negb (String.eqb (Dom.tagName tag) "P")); [discriminate|].
      cbv zeta in Hh.
      destruct (headingMarker _) as [[level prefix]|]; [|discriminate].
      inversion Hh; subst. apply all_clean_elem. split; [constructor|].
      unfold Dom.setTextContent. destruct (String.eqb _ ""); constructor.
    + destruct (String.eqb (Dom.tagName tag) "SPAN").
      * now rewrite convertSpan_stripped.
      * apply all_clean_elem. split; [|assumption].
        now apply stripAttributes_clean.
  - apply all_clean_text.
  - apply all_clean_nil.
  - simpl in Hwf. inversion Hwf; subst. apply all_clean_template.
    now apply stripAttributes_clean.
Qed.

Lemma processBody_clean (cs : list node) :
  well_formed cs -> all_clean (processBody cs).
Proof.
  unfold well_formed, processBody. intros Hwf.
  apply all_clean_flat_map. apply Forall_forall. intros c Hc.
  apply processNode_clean. apply Forall_forall. intros e He.
  rewrite Forall_forall in Hwf. apply Hwf. apply in_flat_map. now exists c.
Qed.

Lemma unwrapParagraphs_clean (n : node) :
  all_clean [n] -> all_clean (unwrapParagraphs n).
Proof.
  induction n as [tag attrs cs IH | d | d | tattrs tcs] using node_induction; intros H;
    [|assumption|assumption|assumption].
  apply all_clean_elem in H. destruct H as [Ha Hc].
  assert (Hcs : all_clean (flat_map unwrapParagraphs cs)).
  { apply all_clean_flat_map. apply all_clean_forall in Hc.
    rewrite Forall_forall in IH, Hc. apply Forall_forall. intros c Hin. auto. }
  simpl. destruct (String.eqb tag "p"); [assumption|].
  apply all_clean_elem. now split.
Qed.

Lemma boldLoop_clean (rest kept acc : list node) :
  all_clean kept -> all_clean acc -> all_clean rest ->
  all_clean (boldLoop kept acc rest).
Proof.
  revert kept acc. induction rest as [|child rest IH]; intros kept acc Hk Ha Hr; simpl.
  - apply all_clean_app. now split.
  - apply all_clean_cons in Hr. destruct Hr as [Hc Hr].
    destruct child as [tag attrs cs | text | d | tattrs tcs].
    + destruct (isStrongOrB tag).
      * apply all_clean_app. split; [assumption|].
        apply all_clean_cons. now split.
      * destruct (negb (JS.indexOf ":" (Dom.textContent (Elem tag attrs cs)) =? -1)%Z).
        -- apply all_clean_cons. split.
           ++ apply all_clean_elem. split; [constructor|].
              apply all_clean_app. now split.
           ++ apply all_clean_app. now split.
        -- apply IH; try assumption. apply all_clean_app. now split.
    + destruct (negb (JS.indexOf ":" text =? -1)%Z).
      * apply all_clean_app. split; [assumption|].
        apply all_clean_cons. split.
        -- apply all_clean_elem. split; [constructor|].
           apply all_clean_app. split; [assumption | apply all_clean_text].
        -- apply all_clean_app. split; [|assumption].
           destruct (String.eqb _ ""); [apply all_clean_nil | apply all_clean_text].
      * apply IH; try assumption. apply all_clean_app. now split.
    + apply IH; try assumption. apply all_clean_app. now split.
    + apply IH; try assumption. apply all_clean_app. now split.
Qed.

Lemma cleanListItem_clean (cs : list node) :
  all_clean cs -> all_clean (cleanListItem cs).
Proof.
  intros H. unfold cleanListItem.
  assert (H1 : all_clean (flat_map unwrapParagraphs cs)).
  { apply all_clean_flat_map. apply all_clean_forall in H.
    apply Forall_forall. intros c Hc. apply unwrapParagraphs_clean.
    rewrite Forall_forall in H. now apply H. }
  cbv zeta.
  destruct (match flat_map unwrapParagraphs cs with
            | Elem tag _ _ :: _ => isStrongOrB tag
            | _ => false
            end); [assumption|].
  destruct ((0 <? _)%Z && (_ <? 80)%Z); [|assumption].
  apply boldLoop_clean; [apply all_clean_nil | apply all_clean_nil | assumption].
Qed.

Lemma cleanListItems_fuel_clean (fuel : nat) (n : node) :
  all_clean [n] -> all_clean [cleanListItems_fuel fuel n].
Proof.
  revert n. induction fuel as [|f IH]; intros n H; [assumption|].
  destruct n as [tag attrs cs | d | d | tattrs tcs]; [|assumption|assumption|assumption].
  apply all_clean_elem in H. destruct H as [Ha Hc].
  simpl. apply all_clean_elem. split; [assumption|].
  assert (H1 : all_clean (if String.eqb tag "li" then cleanListItem cs else cs)).
  { destruct (String.eqb tag "li"); [now apply cleanListItem_clean | assumption]. }
  apply all_clean_forall in H1. apply all_clean_forall.
  apply Forall_map. apply Forall_forall. intros c Hin.
  apply IH. rewrite Forall_forall in H1. now apply H1.
Qed.

Lemma cleanListItems_clean (cs : list node) :
  all_clean cs -> all_clean (cleanListItems cs).
Proof.
  intros H. apply all_clean_forall in H. apply all_clean_forall.
  unfold cleanListItems. apply Forall_map. apply Forall_forall. intros c Hin.
  apply cleanListItems_fuel_clean. rewrite Forall_forall in H. now apply H.
Qed.

Lemma removeEmptyElements_clean (n : node) :
  all_clean [n] -> all_clean (removeEmptyElements n).
Proof.
  induction n as [tag attrs cs IH | d | d | tattrs tcs] using node_induction; intros H;
    [|assumption|assumption|].
  - apply all_clean_elem in H. destruct H as [Ha Hc].
    assert (Hcs : all_clean (flat_map removeEmptyElements cs)).
    { apply all_clean_flat_map. apply all_clean_forall in Hc.
      rewrite Forall_forall in IH, Hc. apply Forall_forall. intros c Hin. auto. }
    simpl.
    repeat match goal with
           | |- all_clean (if ?b then _ else _) => destruct b
           end; try apply all_clean_nil.
    apply all_clean_elem. now split.
  - cbn [removeEmptyElements]. cbv zeta.
    destruct (_ && _); [apply all_clean_nil | assumption].
Qed.

Lemma removeEmptyBody_clean (cs : list node) :
  all_clean cs -> all_clean (removeEmptyBody cs).
Proof.
  intros H. apply all_clean_flat_map. apply all_clean_forall in H.
  apply Forall_forall. intros c Hc. apply removeEmptyElements_clean.
  rewrite Forall_forall in H. now apply H.
Qed.

Lemma anchorFor_clean (m : JS.jsmatch) : all_clean [anchorFor m].
Proof.
  unfold anchorFor. cbv zeta. apply all_clean_elem. split.
  - constructor; [|constructor].
    unfold clean_attribute. simpl fst. simpl snd. repeat split.
    + simpl. intuition discriminate.
    + intros [H _]. discriminate.
    + destruct (truthy (JS.m_group1 m)); now apply trim_nonspace_head.
  - unfold Dom.setTextContent. destruct (String.eqb _ ""); constructor.
Qed.

Lemma linkMatches_clean (text : string) (matches : list (nat * JS.jsmatch))
      (lastIndex : nat) :
  all_clean (fst (linkMatches text matches lastIndex)).
Proof.
  revert lastIndex. induction matches as [|[i m] rest IH]; intros lastIndex; simpl.
  - apply all_clean_nil.
  - specialize (IH (i + String.length (JS.m_text m))).
    destruct (linkMatches text rest (i + String.length (JS.m_text m))) as [nodes last].
    simpl in *. apply all_clean_app. split.
    + destruct (lastIndex <? i)%nat; [apply all_clean_text | apply all_clean_nil].
    + apply all_clean_cons. split; [apply anchorFor_clean | assumption].
Qed.

Lemma linkText_clean (text : string) : all_clean (linkText text).
Proof.
  unfold linkText. cbv zeta.
  destruct (JS.matchAll combined text) as [|p l] eqn:Hm; [apply all_clean_text|].
  pose proof (linkMatches_clean text (p :: l) 0) as H.
  destruct (linkMatches text (p :: l) 0) as [nodes last]. simpl in H.
  apply all_clean_app. split; [assumption|].
  destruct (last <? String.length text)%nat; [apply all_clean_text | apply all_clean_nil].
Qed.

Lemma autoLink_clean (n : node) (inLink : bool) :
  all_clean [n] -> all_clean (autoLink inLink n).
Proof.
  revert inLink.
  induction n as [tag attrs cs IH | d | d | tattrs tcs] using node_induction; intros inLink H.
  - apply all_clean_elem in H. destruct H as [Ha Hc]. simpl.
    apply all_clean_elem. split; [assumption|].
    apply all_clean_flat_map. apply all_clean_forall in Hc.
    rewrite Forall_forall in IH, Hc. apply Forall_forall. intros c Hin. auto.
  - simpl. destruct inLink; [assumption | apply linkText_clean].
  - assumption.
  - assumption.
Qed.

Lemma autoLinkEmailsAndPhones_clean (cs : list node) :
  all_clean cs -> all_clean (autoLinkEmailsAndPhones cs).
Proof.
  intros H. apply all_clean_flat_map. apply all_clean_forall in H.
  apply Forall_forall. intros c Hc. apply autoLink_clean.
  rewrite Forall_forall in H. now apply H.
Qed.

(** C5 (as the code has it).  For every parsed body (a tree in which the
    attribute names of an element are distinct), every element among the
    descendants of the body in the tree [cleanHTML] serialises carries no
    attribute named [class], [style], [dir] or [aria-level], no [role]
    attribute with the value [presentation] and no attribute whose value
    trims to the empty string; this covers the headings, [strong] elements
    and hyperlinks the passes create, and the template elements
    themselves.  The elements inside the contents of a template are not
    descendants of the body: see the counterexample. *)
Theorem C5_attribute_invariant (cs : list node) :
  well_formed cs ->
  Forall clean_attributes (flat_map elements (cleanBody cs)).
Proof.
  intros Hwf. unfold cleanBody.
  apply autoLinkEmailsAndPhones_clean, removeEmptyBody_clean,
        cleanListItems_clean, processBody_clean, Hwf.
Qed.

Lemma C5_attribute_invariant_witness :
  well_formed sample_body
  /\ Forall clean_attributes (flat_map elements (cleanBody sample_body)).
Proof.
  assert (Hwf : well_formed sample_body).
  { unfold well_formed, sample_body. simpl.
    repeat constructor; simpl; intuition discriminate. }
  split; [exact Hwf | exact (C5_attribute_invariant sample_body Hwf)].
Defined.

(** C5, counterexample to the claim as worded.  The passes walk over child
    nodes; the contents of a template are not child nodes, so nothing
    visits the [span] inside the template, and [innerHTML] writes it out
    with its [class] attribute: the output is the input. *)
Lemma C5_template_contents_counterexample :
  Parser.parseFromString template_markup = Some template_body
  /\ cleanHTML template_markup = Some template_markup
  /\ ~ Forall clean_attributes (flat_map written_elements (cleanBody template_body)).
Proof.
  split; [vm_compute; reflexivity|]. split; [vm_compute; reflexivity|].
  assert (E : cleanBody template_body = template_body) by (vm_compute; reflexivity).
  rewrite E. unfold template_body. cbn [flat_map written_elements app].
  intros H. inversion H as [|? ? _ H1]; subst. inversion H1 as [|? ? _ H2]; subst.
  inversion H2 as [|? ? Hspan _]; subst. cbn [clean_attributes] in Hspan.
  inversion Hspan as [|? ? [Hname _] _]; subst. apply Hname. simpl. now left.
Qed.

(** ** Blank strings *)

Lemma blank_string_app (s t : string) :
  blank_string (s ++ t) = blank_string s && blank_string t.
Proof.
  unfold blank_string. induction s as [|c r IH]; simpl; [reflexivity|].
  now rewrite IH, andb_assoc.
Qed.

Lemma trimEnd_empty (s : string) : JS.trimEnd s = "" <-> blank_string s = true.
Proof.
  unfold blank_string. induction s as [|c r IH]; simpl.
  - tauto.
  - destruct (JS.trimEnd r) as [|c' r'].
    + destruct (JS.is_space c); simpl.
      * rewrite <- IH. tauto.
      * split; discriminate.
    + split; [discriminate|]. intros H. apply andb_true_iff in H.
      destruct H as [_ H]. apply IH in H. discriminate.
Qed.

Lemma blank_string_dropWhile (s : string) :
  blank_string (JS.dropWhile JS.is_space s) = blank_string s.
Proof.
  unfold blank_string. induction s as [|c r IH]; simpl; [reflexivity|].
  destruct (JS.is_space c) eqn:Hc; simpl; [exact IH | now rewrite Hc].
Qed.

Lemma trim_empty (s : string) : JS.trim s = "" <-> blank_string s = true.
Proof.
  unfold JS.trim, JS.trimStart. now rewrite trimEnd_empty, blank_string_dropWhile.
Qed.

Lemma concat_empty_cons (x : string) (l : list string) :
  String.concat "" (x :: l) = x ++ String.concat "" l.
Proof.
  destruct l as [|y l]; simpl; [|reflexivity].
  induction x as [|c x IH]; simpl; [reflexivity | now rewrite <- IH].
Qed.

Lemma blank_string_concat (l : list string) :
  blank_string (String.concat "" l) = forallb blank_string l.
Proof.
  induction l as [|x l IH]; [reflexivity|].
  rewrite concat_empty_cons, blank_string_app, IH. reflexivity.
Qed.

(** ** The pruning invariant (C4) *)

Lemma hasUsefulAttributes_true (attrs : attributes) :
  hasUsefulAttributes attrs = true ->
  exists a useful, In a attrs /\ In useful usefulAttrs
                   /\ JS.startsWith (fst a) useful = true.
Proof.
  unfold hasUsefulAttributes. intros H.
  apply existsb_exists in H. destruct H as [a [Ha H]].
  apply existsb_exists in H. destruct H as [u [Hu H]].
  now exists a, u.
Qed.

Lemma Forall_flat_map_elements (P : node -> Prop) (f : node -> list node)
      (l : list node) :
  Forall (fun n => Forall P (flat_map elements (f n))) l ->
  Forall P (flat_map elements (flat_map f l)).
Proof.
  induction 1 as [|n l Hn _ IH]; simpl; [constructor|].
  rewrite flat_map_app. apply Forall_app. now split.
Qed.

Lemma removeEmptyElements_elem (tag : string) (attrs : attributes) (cs : list node) :
  removeEmptyElements (Elem tag attrs cs)
  = let cs' := flat_map removeEmptyElements cs in
    let innerHTML := JS.trim (Dom.innerHTML tag cs') in
    if String.eqb (Dom.tagName tag) "P"
       && (String.eqb innerHTML "" || String.eqb innerHTML "<br>"
           || String.eqb (JS.toLowerCase innerHTML) "<br/>")
    then []
    else if negb (includes selfClosing (Dom.tagName tag))
            && String.eqb innerHTML "" && negb (hasUsefulAttributes attrs)
    then []
    else [Elem tag attrs cs'].
Proof. reflexivity. Qed.

Lemma removeEmptyElements_template (attrs : attributes) (contents : list node) :
  removeEmptyElements (Template attrs contents)
  = if String.eqb (JS.trim (Dom.templateHTML contents)) ""
       && negb (hasUsefulAttributes attrs)
    then []
    else [Template attrs contents].
Proof. reflexivity. Qed.

Lemma removeEmptyElements_survives (n : node) :
  Forall survives (flat_map elements (removeEmptyElements n)).
Proof.
  induction n as [tag attrs cs IH | d | d | tattrs tcs] using node_induction;
    [|constructor|constructor|].
  - pose proof (Forall_flat_map_elements survives removeEmptyElements cs IH) as Hcs.
    rewrite removeEmptyElements_elem. cbv zeta.
    set (cs' := flat_map removeEmptyElements cs) in *.
    destruct (String.eqb (Dom.tagName tag) "P" && _); [constructor|].
    destruct (includes selfClosing (Dom.tagName tag)) eqn:Hvoid; simpl.
    + rewrite app_nil_r. constructor; [|assumption]. now left.
    + destruct (String.eqb (JS.trim (Dom.innerHTML tag cs')) "") eqn:Hinner; simpl.
      * destruct (hasUsefulAttributes attrs) eqn:Hu; simpl; [|constructor].
        rewrite app_nil_r. constructor; [|assumption].
        right. right. now apply hasUsefulAttributes_true.
      * rewrite app_nil_r. constructor; [|assumption].
        right. left. now apply String.eqb_neq.
  - rewrite removeEmptyElements_template.
    destruct (String.eqb (JS.trim (Dom.templateHTML tcs)) "") eqn:Hinner; cbn [andb].
    + destruct (hasUsefulAttributes tattrs) eqn:Hu; cbn [negb]; [|constructor].
      cbn [flat_map elements app]. constructor; [|constructor].
      right. now apply hasUsefulAttributes_true.
    + cbn [flat_map elements app]. constructor; [|constructor].
      left. now apply String.eqb_neq.
Qed.

Lemma innerHTML_blank (tag : string) (cs : list node) :
  blank_string (Dom.innerHTML tag cs)
  = forallb (blank_node (includes Dom.raw_text_parents tag)) cs.
Proof.
  unfold Dom.innerHTML. rewrite blank_string_concat.
  induction cs as [|c cs IH]; [reflexivity|].
  cbn [map forallb]. rewrite IH. reflexivity.
Qed.

Lemma anchorFor_not_blank (raw : bool) (m : JS.jsmatch) :
  blank_node raw (anchorFor m) = false.
Proof. reflexivity. Qed.

Lemma linkMatches_not_blank (raw : bool) (text : string)
      (p : nat * JS.jsmatch) (l : list (nat * JS.jsmatch)) (lastIndex : nat) :
  forallb (blank_node raw) (fst (linkMatches text (p :: l) lastIndex)) = false.
Proof.
  destruct p as [i m]. cbn [linkMatches].
  destruct (linkMatches text l (i + String.length (JS.m_text m))) as [nodes last].
  cbn [fst]. rewrite forallb_app. cbn [forallb]. rewrite anchorFor_not_blank.
  now rewrite andb_false_r.
Qed.

Lemma linkText_blank (raw : bool) (text : string) :
  forallb (blank_node raw) (linkText text) = true ->
  blank_node raw (Text text) = true.
Proof.
  unfold linkText. cbv zeta.
  destruct (JS.matchAll combined text) as [|p l].
  - simpl. now rewrite andb_true_r.
  - pose proof (linkMatches_not_blank raw text p l 0) as H.
    destruct (linkMatches text (p :: l) 0) as [nodes last]. simpl in H.
    rewrite forallb_app, H. discriminate.
Qed.

Lemma autoLink_blank (raw inLink : bool) (n : node) :
  forallb (blank_node raw) (autoLink inLink n) = true -> blank_node raw n = true.
Proof.
  destruct n as [tag attrs cs | d | d | tattrs tcs]; simpl.
  - discriminate.
  - destruct inLink; [simpl; now rewrite andb_true_r | apply linkText_blank].
  - discriminate.
  - discriminate.
Qed.

Lemma autoLink_children_blank (raw inLink : bool) (cs : list node) :
  forallb (blank_node raw) (flat_map (autoLink inLink) cs) = true ->
  forallb (blank_node raw) cs = true.
Proof.
  induction cs as [|c cs IH]; simpl; [reflexivity|].
  rewrite forallb_app. intros H. apply andb_true_iff in H. destruct H as [H1 H2].
  now rewrite (autoLink_blank raw inLink c H1), IH.
Qed.

Lemma autoLink_innerHTML (tag : string) (inLink : bool) (cs : list node) :
  JS.trim (Dom.innerHTML tag cs) <> "" ->
  JS.trim (Dom.innerHTML tag (flat_map (autoLink inLink) cs)) <> "".
Proof.
  intros H Hempty. apply H. apply trim_empty. apply trim_empty in Hempty.
  rewrite innerHTML_blank in *. now apply autoLink_children_blank in Hempty.
Qed.

Lemma anchorFor_survives (m : JS.jsmatch) :
  Forall survives (elements (anchorFor m)).
Proof.
  unfold anchorFor. cbv zeta. simpl elements.
  assert (Hno : flat_map elements (Dom.setTextContent (JS.m_text m)) = []).
  { unfold Dom.setTextContent. now destruct (String.eqb _ ""). }
  rewrite Hno. constructor; [|constructor].
  right. right. eexists (_, _), "href". split; [now left|].
  split; [simpl; now left | reflexivity].
Qed.

Lemma linkMatches_survives (text : string) (matches : list (nat * JS.jsmatch))
      (lastIndex : nat) :
  Forall survives (flat_map elements (fst (linkMatches text matches lastIndex))).
Proof.
  revert lastIndex. induction matches as [|[i m] rest IH]; intros lastIndex; simpl.
  - constructor.
  - specialize (IH (i + String.length (JS.m_text m))).
    destruct (linkMatches text rest (i + String.length (JS.m_text m))) as [nodes last].
    simpl fst in *. rewrite flat_map_app. apply Forall_app. split.
    + destruct (lastIndex <? i)%nat; constructor.
    + change (Forall survives (elements (anchorFor m) ++ flat_map elements nodes)).
      apply Forall_app. split; [apply anchorFor_survives | assumption].
Qed.

Lemma linkText_survives (text : string) :
  Forall survives (flat_map elements (linkText text)).
Proof.
  unfold linkText. cbv zeta.
  destruct (JS.matchAll combined text) as [|p l]; [constructor|].
  pose proof (linkMatches_survives text (p :: l) 0) as H.
  destruct (linkMatches text (p :: l) 0) as [nodes last]. simpl fst in H.
  rewrite flat_map_app. apply Forall_app. split; [assumption|].
  destruct (last <? String.length text)%nat; constructor.
Qed.

Lemma autoLink_survives (n : node) (inLink : bool) :
  Forall survives (elements n) ->
  Forall survives (flat_map elements (autoLink inLink n)).
Proof.
  revert inLink.
  induction n as [tag attrs cs IH | d | d | tattrs tcs] using node_induction; intros inLink H.
  - simpl in H. inversion H as [|? ? Hn Hcs]; subst.
    simpl. rewrite app_nil_r. constructor.
    + destruct Hn as [Hv | [Hi | Hu]]; [now left | | now right; right].
      right. left. now apply autoLink_innerHTML.
    + apply Forall_flat_map_elements. apply Forall_forall. intros c Hc.
      rewrite Forall_forall in IH. apply IH; [assumption|].
      apply Forall_forall. intros e He. rewrite Forall_forall in Hcs.
      apply Hcs. apply in_flat_map. now exists c.
  - simpl. destruct inLink; [constructor | apply linkText_survives].
  - constructor.
  - assumption.
Qed.

(** C4 (as the code has it).  After [cleanHTML]'s passes every element
    among the descendants of the body either has a tag among [IMG], [BR],
    [HR], [INPUT], [META], [LINK], or has non-empty trimmed inner markup,
    or carries an attribute whose name starts with one of [href], [src],
    [alt], [title], [id], [name], [data-], [aria-], [role].  A template is
    such a descendant and its inner markup is that of its contents; the
    elements inside the contents are no descendants of the body and are
    not pruned, see the counterexamples. *)
Theorem C4_pruning_invariant (cs : list node) :
  Forall survives (flat_map elements (cleanBody cs)).
Proof.
  unfold cleanBody, autoLinkEmailsAndPhones, removeEmptyBody.
  apply Forall_flat_map_elements. apply Forall_forall. intros n Hn.
  apply autoLink_survives. apply Forall_forall. intros e He.
  pose proof (Forall_flat_map_elements survives removeEmptyElements
                (cleanListItems (processBody cs))) as H.
  assert (Hall : Forall survives
                   (flat_map elements
                      (flat_map removeEmptyElements (cleanListItems (processBody cs))))).
  { apply H. apply Forall_forall. intros c _. apply removeEmptyElements_survives. }
  rewrite Forall_forall in Hall. apply Hall. apply in_flat_map. now exists n.
Qed.

(** C4, counterexamples to the claim as worded.

    The names of the useful attributes are prefixes: the empty [div] with
    the single attribute [srcset] survives the passes, because the name
    [srcset] starts with [src]; it is not void, its inner markup is empty
    and none of its attributes is named exactly [href], [src], [alt],
    [title], [id], [name] or [role] or starts with [data-] or [aria-].

    The contents of a template are not pruned: the pruner loops over child
    nodes, and the contents of a template are not child nodes.  The empty
    [i] inside the template is not visited, the template itself is kept
    because its inner markup is not empty, and the output is the input.
    The [i] is not void, has no inner markup and no attribute, so it fails
    the claim as worded and also with the names read as prefixes. *)
Lemma C4_counterexamples :
  (cleanHTML "<div srcset='x'></div>" = Some ("<div srcset=" ++ quoted "x" ++ "></div>")
   /\ ~ Forall survives_as_specified
          (flat_map elements (cleanBody [Elem "div" [("srcset", "x")] []])))
  /\ (Parser.parseFromString "<div><template><i></i></template></div>"
      = Some [Elem "div" [] [Template [] [Elem "i" [] []]]]
      /\ cleanHTML "<div><template><i></i></template></div>"
         = Some "<div><template><i></i></template></div>"
      /\ ~ Forall survives_as_specified
             (flat_map written_elements
                (cleanBody [Elem "div" [] [Template [] [Elem "i" [] []]]]))
      /\ ~ Forall survives
             (flat_map written_elements
                (cleanBody [Elem "div" [] [Template [] [Elem "i" [] []]]]))).
Proof.
  split.
  - split; [vm_compute; reflexivity|].
    assert (E : cleanBody [Elem "div" [("srcset", "x")] []]
                = [Elem "div" [("srcset", "x")] []]) by (vm_compute; reflexivity).
    rewrite E. cbn [flat_map elements app].
    intros H. inversion H as [|? ? Hdiv _]; subst.
    destruct Hdiv as [Hv | [Hi | Hu]]; [discriminate | now apply Hi | discriminate].
  - split; [vm_compute; reflexivity|]. split; [vm_compute; reflexivity|].
    assert (E : cleanBody [Elem "div" [] [Template [] [Elem "i" [] []]]]
                = [Elem "div" [] [Template [] [Elem "i" [] []]]])
      by (vm_compute; reflexivity).
    rewrite E. cbn [flat_map written_elements app].
    split; intros H; inversion H as [|? ? _ H1]; subst;
      inversion H1 as [|? ? _ H2]; subst; inversion H2 as [|? ? Hi _]; subst.
    + destruct Hi as [Hv | [Hi | Hu]]; [discriminate | now apply Hi | discriminate].
    + destruct Hi as [Hv | [Hi | [a [u [[] _]]]]]; [discriminate | now apply Hi].
Qed.

(** ** [beautifyHTML] is total (C10) *)

Lemma substring_length_le (n m : nat) (s : string) :
  String.length (String.substring n m s) <= m.
Proof.
  revert n m. induction s as [|c r IH]; intros n m.
  - destruct n, m; simpl; lia.
  - destruct n as [|n].
    + destruct m as [|m]; simpl; [lia|]. specialize (IH 0 m). lia.
    + simpl. apply IH.
Qed.

Lemma substringFrom_length (a : nat) (s : string) :
  String.length (JS.substringFrom a s) <= String.length s - a.
Proof. apply substring_length_le. Qed.

Lemma indexOf_lower (c : ascii) (s : string) : (-1 <= JS.indexOf c s)%Z.
Proof.
  induction s as [|a r IH]; simpl; [lia|].
  destruct (Ascii.eqb a c); [lia|].
  destruct (JS.indexOf c r <? 0)%Z eqn:H; [lia|]. apply Z.ltb_ge in H. lia.
Qed.

Lemma indexOf_head (c a : ascii) (r : string) :
  Ascii.eqb a c = false -> JS.indexOf c (String a r) <> 0%Z.
Proof.
  intros H. simpl. rewrite H.
  destruct (JS.indexOf c r <? 0)%Z eqn:Hlt; [lia|]. apply Z.ltb_ge in Hlt. lia.
Qed.

(** Every round of the tokenizer consumes input, so a budget of one round
    per character is never used up. *)
Lemma tokenize_total (fuel : nat) (s : string) :
  String.length s < fuel -> exists tokens, tokenize fuel s = Some tokens.
Proof.
  revert s. induction fuel as [|f IH]; intros s Hlen; [lia|].
  destruct s as [|c r]; [now exists []|].
  cbn [tokenize]. change (String.length (String c r)) with (S (String.length r)) in Hlen.
  destruct (Ascii.eqb c "<") eqn:Hc.
  - destruct (JS.indexOf ">" (String c r) =? -1)%Z eqn:He; [now eexists|].
    apply Z.eqb_neq in He.
    pose proof (indexOf_lower ">" (String c r)) as Hlo.
    destruct (IH (JS.substringFrom (Z.to_nat (JS.indexOf ">" (String c r) + 1)) (String c r)))
      as [ts Hts].
    { pose proof (substringFrom_length
                    (Z.to_nat (JS.indexOf ">" (String c r) + 1)) (String c r)) as H.
      change (String.length (String c r)) with (S (String.length r)) in H. lia. }
    rewrite Hts. now eexists.
  - destruct (JS.indexOf "<" (String c r) =? -1)%Z eqn:He; [now eexists|].
    apply Z.eqb_neq in He.
    pose proof (indexOf_lower "<" (String c r)) as Hlo.
    pose proof (indexOf_head "<" c r Hc) as Hne.
    destruct (IH (JS.substringFrom (Z.to_nat (JS.indexOf "<" (String c r))) (String c r)))
      as [ts Hts].
    { pose proof (substringFrom_length
                    (Z.to_nat (JS.indexOf "<" (String c r))) (String c r)) as H.
      change (String.length (String c r)) with (S (String.length r)) in H. lia. }
    rewrite Hts. now eexists.
Qed.

(** The level is never negative: a closing tag clamps it at zero, an
    opening tag raises it. *)
Lemma indentLines_levels (tokens : list string) (indent : Z) :
  (0 <= indent)%Z ->
  Forall (fun line => (0 <= fst line)%Z) (indentLines tokens indent)
  /\ map snd (indentLines tokens indent) = tokens.
Proof.
  revert indent. induction tokens as [|token rest IH]; intros indent Hpos;
    [split; [constructor | reflexivity]|].
  cbn [indentLines].
  destruct (JS.startsWith token "</").
  - destruct (IH (Z.max 0 (indent - 1))) as [H1 H2]; [lia|].
    split; [constructor; [cbn [fst]; lia | assumption] | cbn [map]; f_equal; exact H2].
  - destruct (JS.startsWith token "<").
    + cbv zeta.
      match goal with
      | |- context [indentLines rest ?i] =>
          destruct (IH i) as [H1 H2]; [destruct (_ && _); lia|]
      end.
      split; [constructor; [cbn [fst]; lia | assumption] | cbn [map]; f_equal; exact H2].
    + destruct (IH indent Hpos) as [H1 H2].
      split; [constructor; [cbn [fst]; lia | assumption] | cbn [map]; f_equal; exact H2].
Qed.

Lemma traverse_pushLine (lines : list (Z * string)) :
  Forall (fun line => (0 <= fst line)%Z) lines ->
  traverse pushLine lines = Some (map rendered lines).
Proof.
  induction 1 as [|line lines Hpos _ IH]; [reflexivity|].
  cbn [traverse map]. rewrite IH. unfold pushLine, JS.repeat.
  destruct (fst line <? 0)%Z eqn:Hneg; [apply Z.ltb_lt in Hneg; lia|].
  reflexivity.
Qed.

(** C10.  For every input string [beautifyHTML] returns: the tokenizer
    ends within its budget and [repeat] is never called with a negative
    count, because the running level of the loop is at least zero at every
    line.  The result is the lines joined by newlines, each line being its
    token behind that many two-space units.  A closing tag at level zero
    leaves the level at zero, as for [</b></b><i>]. *)
Theorem C10_beautify_total (html : string) :
  exists tokens : list string,
    tokenize (S (String.length (JS.replaceAll BETWEEN_TAGS "><" html)))
             (JS.replaceAll BETWEEN_TAGS "><" html) = Some tokens
    /\ Forall (fun line => (0 <= fst line)%Z) (indentLines tokens 0)
    /\ map snd (indentLines tokens 0) = tokens
    /\ beautifyHTML html
       = Some (JS.join JS.newline (map rendered (indentLines tokens 0)))
    /\ indentLines ["</b>"; "</b>"; "<i>"; "x"] 0
       = [(0, "</b>"); (0, "</b>"); (0, "<i>"); (1, "x")]%Z.
Proof.
  destruct (tokenize_total (S (String.length (JS.replaceAll BETWEEN_TAGS "><" html)))
                           (JS.replaceAll BETWEEN_TAGS "><" html)) as [tokens Ht];
    [lia|].
  exists tokens.
  destruct (indentLines_levels tokens 0) as [Hlev Htok]; [lia|].
  repeat split; try assumption.
  - unfold beautifyHTML. cbv zeta. rewrite Ht.
    now rewrite (traverse_pushLine _ Hlev).
Qed.

(** ** The matcher on the two patterns of the formatter *)

Lemma length_substring_prefix (n : nat) (s : string) :
  n <= String.length s -> String.length (String.substring 0 n s) = n.
Proof.
  revert n. induction s as [|c r IH]; intros n Hn; simpl in Hn.
  - assert (n = 0) by lia. subst. reflexivity.
  - destruct n as [|n]; [reflexivity|]. simpl. rewrite IH; lia.
Qed.

Lemma length_dropWhile (p : ascii -> bool) (s : string) :
  String.length (JS.dropWhile p s) <= String.length s.
Proof.
  induction s as [|c r IH]; simpl; [lia|]. destruct (p c); simpl; lia.
Qed.

(** A greedy unbounded repetition whose continuation refuses every string
    that starts inside the class never gives a character back. *)
Lemma rep_commit (p : ascii -> bool) (lo : nat) (s : string)
      (k : string -> option JS.mstate) :
  (forall c t, p c = true -> k (String c t) = None) ->
  JS.rep p lo None s k
  = if (lo <=? String.length (JS.takeWhile p s))%nat
    then k (JS.dropWhile p s) else None.
Proof.
  intros Hk. revert lo. induction s as [|c r IH]; intros lo.
  - simpl. destruct lo; reflexivity.
  - cbn [JS.rep JS.takeWhile JS.dropWhile]. destruct (p c) eqn:Hc.
    + cbn [andb JS.more JS.dec_hi option_map String.length]. rewrite IH.
      destruct lo as [|lo].
      * cbn [Nat.pred Nat.leb Nat.eqb].
        destruct (k (JS.dropWhile p r)) as [x|]; [reflexivity | now apply Hk].
      * cbn [Nat.pred Nat.leb Nat.eqb].
        destruct (lo <=? String.length (JS.takeWhile p r))%nat; [|reflexivity].
        now destruct (k (JS.dropWhile p r)).
    + cbn [andb String.length]. destruct lo; reflexivity.
Qed.

Lemma is_chr_eq (a c : ascii) : JS.is_chr a c = true -> c = a.
Proof. unfold JS.is_chr. apply Ascii.eqb_eq. Qed.

Lemma exec_BETWEEN_TAGS (u : string) :
  JS.exec BETWEEN_TAGS u
  = match gap_rest u with
    | Some r =>
        Some (JS.MkMatch (String.substring 0 (String.length u - String.length r) u)
                         None r)
    | None => None
    end.
Proof.
  destruct u as [|c t]; [reflexivity|].
  unfold JS.exec, gap_rest, BETWEEN_TAGS. cbn [JS.seq JS.chr JS.plus JS.run].
  destruct (JS.is_chr ">" c); [|reflexivity].
  rewrite rep_commit.
  - cbn [andb]. destruct (1 <=? _)%nat; [|reflexivity].
    destruct (JS.dropWhile JS.is_space t) as [|c' r]; [reflexivity|].
    now destruct (JS.is_chr "<" c').
  - intros c' t' Hsp. destruct (JS.is_chr "<" c') eqn:Hlt; [|reflexivity].
    apply is_chr_eq in Hlt. subst c'. discriminate.
Qed.

Lemma gap_rest_length (u r : string) :
  gap_rest u = Some r -> String.length r + 2 <= String.length u.
Proof.
  destruct u as [|c t]; [discriminate|]. unfold gap_rest.
  destruct (_ && _); [|discriminate].
  pose proof (length_dropWhile JS.is_space t) as Hle.
  destruct (JS.dropWhile JS.is_space t) as [|c' r']; [discriminate|].
  destruct (JS.is_chr "<" c'); [|discriminate].
  intros H. inversion H; subst. simpl in *. lia.
Qed.

Lemma exec_NEWLINE_RUN (u : string) :
  JS.exec NEWLINE_RUN u
  = match u with
    | String c t =>
        if JS.is_chr JS.lf c
        then Some (JS.MkMatch
                     (String.substring 0 (String.length u
                                          - String.length (JS.dropWhile JS.is_space t)) u)
                     None (JS.dropWhile JS.is_space t))
        else None
    | EmptyString => None
    end.
Proof.
  destruct u as [|c t]; [reflexivity|].
  unfold JS.exec, NEWLINE_RUN. cbn [JS.seq JS.chr JS.star JS.run].
  destruct (JS.is_chr JS.lf c); [|reflexivity].
  assert (H : forall s, JS.rep JS.is_space 0 None s (fun t0 => Some (t0, @None string))
                        = Some (JS.dropWhile JS.is_space s, None)).
  { induction s as [|a s IH]; [reflexivity|].
    cbn [JS.rep JS.dropWhile]. destruct (JS.is_space a); [|reflexivity].
    cbn [andb JS.more JS.dec_hi option_map Nat.pred]. now rewrite IH. }
  now rewrite H.
Qed.

(** ** Global replacement *)

Lemma replaceAll_NoMatch (r : JS.regex) (by_ s : string) :
  NoMatch r s -> JS.replaceAll r by_ s = s.
Proof.
  unfold JS.replaceAll. induction s as [|c t IH]; intros [Hexec Hrest].
  - simpl. now rewrite Hexec.
  - cbn [JS.replaceAll_from]. rewrite Hexec. now rewrite IH.
Qed.

Lemma no_newline_app (s t : string) :
  no_newline (s ++ t) = no_newline s && no_newline t.
Proof.
  unfold no_newline. induction s as [|c r IH]; simpl; [reflexivity|].
  now rewrite IH, andb_assoc.
Qed.

Lemma no_newline_NoMatch (s : string) :
  no_newline s = true -> NoMatch NEWLINE_RUN s.
Proof.
  induction s as [|c t IH]; intros H; [now split|].
  unfold no_newline in H. simpl in H. apply andb_true_iff in H. destruct H as [Hc Ht].
  split; [|now apply IH].
  rewrite exec_NEWLINE_RUN. apply negb_true_iff in Hc. now rewrite Hc.
Qed.

(** Step 1 of [minifyHTML] leaves no newline. *)
Lemma strip_newlines_no_newline (s : string) (skip : nat) :
  no_newline (JS.replaceAll_from NEWLINE_RUN "" s skip) = true.
Proof.
  revert skip. induction s as [|c t IH]; intros skip.
  - simpl. destruct skip; reflexivity.
  - cbn [JS.replaceAll_from]. destruct skip as [|k]; [|apply IH].
    rewrite exec_NEWLINE_RUN. destruct (JS.is_chr JS.lf c) eqn:Hc.
    + cbn [JS.m_text].
      pose proof (length_dropWhile JS.is_space t) as Hle.
      rewrite length_substring_prefix by apply Nat.le_sub_l.
      change (String.length (String c t)) with (S (String.length t)).
      destruct (S (String.length t) - String.length (JS.dropWhile JS.is_space t))
        as [|n] eqn:Hn; [lia|].
      simpl. apply IH.
    + unfold no_newline. simpl. rewrite Hc. simpl. apply IH.
Qed.

(** Step 2 inserts [><] and otherwise copies or drops characters. *)
Lemma collapse_no_newline (s : string) (skip : nat) :
  no_newline s = true ->
  no_newline (JS.replaceAll_from BETWEEN_TAGS "><" s skip) = true.
Proof.
  revert skip. induction s as [|c t IH]; intros skip Hs.
  - simpl. destruct skip; reflexivity.
  - unfold no_newline in Hs. simpl in Hs. apply andb_true_iff in Hs.
    destruct Hs as [Hc Ht].
    cbn [JS.replaceAll_from]. destruct skip as [|k]; [|now apply IH].
    destruct (JS.exec BETWEEN_TAGS (String c t)) as [m|].
    + destruct (String.length (JS.m_text m)).
      * rewrite no_newline_app. simpl. unfold no_newline at 1. simpl.
        rewrite Hc. simpl. now apply IH.
      * rewrite no_newline_app. simpl. now apply IH.
    + unfold no_newline. simpl. rewrite Hc. simpl. now apply IH.
Qed.

Lemma lead_cons (c : ascii) (s s' : string) :
  lead s = lead s' -> lead (String c s) = lead (String c s').
Proof.
  unfold lead. simpl. destruct (JS.is_space c); [|reflexivity].
  intros H. inversion H. reflexivity.
Qed.

Lemma gap_rest_lead (c : ascii) (s s' : string) :
  lead s = lead s' ->
  gap_rest (String c s) = None -> gap_rest (String c s') = None.
Proof.
  unfold lead, gap_rest. intros H. inversion H as [[H1 H2]]. rewrite H1.
  destruct (_ && _); [|reflexivity].
  destruct (JS.dropWhile JS.is_space s) as [|a r];
    destruct (JS.dropWhile JS.is_space s') as [|a' r']; try discriminate.
  - reflexivity.
  - inversion H2; subst. now destruct (JS.is_chr "<" a').
Qed.

Lemma collapse_lead (s : string) :
  lead (JS.replaceAll_from BETWEEN_TAGS "><" s 0) = lead s.
Proof.
  induction s as [|c t IH]; [reflexivity|].
  cbn [JS.replaceAll_from]. rewrite exec_BETWEEN_TAGS.
  destruct (gap_rest (String c t)) as [r|] eqn:Hg.
  - cbn [JS.m_text].
    assert (Hc : c = ">"%char).
    { unfold gap_rest in Hg. destruct (JS.is_chr ">" c) eqn:Hc; [|discriminate].
      now apply is_chr_eq in Hc. }
    subst c.
    destruct (String.length (String.substring 0 _ _)); reflexivity.
  - now apply lead_cons.
Qed.

Lemma NoMatch_BETWEEN_TAGS_cons (c : ascii) (s : string) :
  gap_rest (String c s) = None -> NoMatch BETWEEN_TAGS s ->
  NoMatch BETWEEN_TAGS (String c s).
Proof.
  intros Hg Hs. split; [|assumption]. rewrite exec_BETWEEN_TAGS. now rewrite Hg.
Qed.

(** Step 2 leaves no gap between tags. *)
Lemma collapse_NoMatch (s : string) (skip : nat) :
  NoMatch BETWEEN_TAGS (JS.replaceAll_from BETWEEN_TAGS "><" s skip).
Proof.
  revert skip. induction s as [|c t IH]; intros skip.
  - simpl. destruct skip; now split.
  - cbn [JS.replaceAll_from]. destruct skip as [|k]; [|apply IH].
    rewrite exec_BETWEEN_TAGS. destruct (gap_rest (String c t)) as [r|] eqn:Hg.
    + cbn [JS.m_text].
      pose proof (gap_rest_length _ _ Hg) as Hlen.
      rewrite length_substring_prefix by apply Nat.le_sub_l.
      destruct (String.length (String c t) - String.length r) as [|n] eqn:Hn; [lia|].
      change ("><" ++ JS.replaceAll_from BETWEEN_TAGS "><" t n)
        with (String ">" (String "<" (JS.replaceAll_from BETWEEN_TAGS "><" t n))).
      apply NoMatch_BETWEEN_TAGS_cons; [reflexivity|].
      apply NoMatch_BETWEEN_TAGS_cons; [reflexivity | apply IH].
    + apply NoMatch_BETWEEN_TAGS_cons; [|apply IH].
      apply (gap_rest_lead c t); [|assumption].
      symmetry. apply collapse_lead.
Qed.

(** ** [trim] keeps both properties and is idempotent *)

Lemma trimEnd_cases (c : ascii) (r : string) :
  (JS.trimEnd (String c r) = "" /\ JS.is_space c = true /\ JS.trimEnd r = "")
  \/ (JS.trimEnd (String c r) = String c (JS.trimEnd r)
      /\ (JS.is_space c = false \/ JS.trimEnd r <> "")).
Proof.
  simpl. destruct (JS.trimEnd r) as [|a x] eqn:Hr.
  - destruct (JS.is_space c); [left | right]; auto.
  - right. split; [reflexivity | right; discriminate].
Qed.

Lemma trimEnd_idempotent (s : string) : JS.trimEnd (JS.trimEnd s) = JS.trimEnd s.
Proof.
  induction s as [|c r IH]; [reflexivity|].
  destruct (trimEnd_cases c r) as [[H _] | [H Hor]]; rewrite H; [reflexivity|].
  destruct (trimEnd_cases c (JS.trimEnd r)) as [[_ [Hc Hr]] | [H' _]].
  - rewrite IH in Hr. destruct Hor; congruence.
  - rewrite H'. now rewrite IH.
Qed.

Lemma dropWhile_fixed (s : string) :
  match s with
  | String c _ => JS.is_space c = false
  | EmptyString => True
  end ->
  JS.dropWhile JS.is_space s = s.
Proof. destruct s as [|c r]; [reflexivity|]. simpl. now intros ->. Qed.

Lemma trim_head (s : string) :
  match JS.trim s with
  | String c _ => JS.is_space c = false
  | EmptyString => True
  end.
Proof.
  unfold JS.trim, JS.trimStart.
  assert (H : match JS.dropWhile JS.is_space s with
              | String c _ => JS.is_space c = false
              | EmptyString => True
              end).
  { induction s as [|c r IH]; simpl; [exact I|].
    destruct (JS.is_space c) eqn:Hc; [exact IH | exact Hc]. }
  destruct (JS.dropWhile JS.is_space s) as [|c r]; [exact I|].
  destruct (trimEnd_cases c r) as [[_ [Hc _]] | [H' _]]; [congruence|].
  now rewrite H'.
Qed.

Lemma trim_idempotent (s : string) : JS.trim (JS.trim s) = JS.trim s.
Proof.
  unfold JS.trim at 1. unfold JS.trimStart.
  rewrite (dropWhile_fixed (JS.trim s) (trim_head s)).
  unfold JS.trim. apply trimEnd_idempotent.
Qed.

Lemma no_newline_dropWhile (s : string) :
  no_newline s = true -> no_newline (JS.dropWhile JS.is_space s) = true.
Proof.
  unfold no_newline. induction s as [|c r IH]; simpl; [reflexivity|].
  intros H. destruct (JS.is_space c).
  - apply andb_true_iff in H. now apply IH.
  - exact H.
Qed.

Lemma no_newline_trimEnd (s : string) :
  no_newline s = true -> no_newline (JS.trimEnd s) = true.
Proof.
  induction s as [|c r IH]; [reflexivity|].
  intros H. unfold no_newline in H. simpl in H. apply andb_true_iff in H.
  destruct H as [Hc Hr].
  destruct (trimEnd_cases c r) as [[H' _] | [H' _]]; rewrite H'; [reflexivity|].
  unfold no_newline. simpl. rewrite Hc. simpl. now apply IH.
Qed.

Lemma no_newline_trim (s : string) :
  no_newline s = true -> no_newline (JS.trim s) = true.
Proof.
  intros H. unfold JS.trim, JS.trimStart.
  now apply no_newline_trimEnd, no_newline_dropWhile.
Qed.

Lemma NoMatch_dropWhile (r : JS.regex) (s : string) :
  NoMatch r s -> NoMatch r (JS.dropWhile JS.is_space s).
Proof.
  induction s as [|c t IH]; [trivial|].
  intros H. simpl. destruct (JS.is_space c); [|exact H].
  apply IH. apply H.
Qed.

Lemma trimEnd_lead (s : string) :
  JS.trimEnd s <> "" -> lead (JS.trimEnd s) = lead s.
Proof.
  induction s as [|c r IH]; [reflexivity|].
  destruct (trimEnd_cases c r) as [[H _] | [H Hor]]; rewrite H; [congruence|].
  intros _. destruct (JS.is_space c) eqn:Hc.
  - destruct Hor as [Hf | Hne]; [discriminate|].
    apply lead_cons. now apply IH.
  - unfold lead. simpl. now rewrite Hc.
Qed.

Lemma gap_rest_exec (u : string) :
  JS.exec BETWEEN_TAGS u = None -> gap_rest u = None.
Proof.
  rewrite exec_BETWEEN_TAGS. now destruct (gap_rest u).
Qed.

Lemma NoMatch_trimEnd (s : string) :
  NoMatch BETWEEN_TAGS s -> NoMatch BETWEEN_TAGS (JS.trimEnd s).
Proof.
  induction s as [|c r IH]; [trivial|].
  intros [Hexec Hr]. apply gap_rest_exec in Hexec.
  destruct (trimEnd_cases c r) as [[H _] | [H _]]; rewrite H; [now split|].
  apply NoMatch_BETWEEN_TAGS_cons; [|now apply IH].
  destruct (JS.trimEnd r) as [|a x] eqn:Hx.
  - unfold gap_rest. simpl. now rewrite andb_false_r.
  - rewrite <- Hx. apply (gap_rest_lead c r); [|assumption].
    symmetry. apply trimEnd_lead. rewrite Hx. discriminate.
Qed.

Lemma NoMatch_trim (s : string) :
  NoMatch BETWEEN_TAGS s -> NoMatch BETWEEN_TAGS (JS.trim s).
Proof.
  intros H. unfold JS.trim, JS.trimStart.
  now apply NoMatch_trimEnd, NoMatch_dropWhile.
Qed.

(** C9.  For every string, minifying the minified string changes
    nothing: the first result holds no newline and no white space between
    a [>] and a [<], and starts and ends with no white space, so none of
    the three steps of [minifyHTML] finds anything to do. *)
Theorem C9_minify_idempotent (x : string) :
  minifyHTML (minifyHTML x) = minifyHTML x.
Proof.
  assert (Hnl : no_newline (minifyHTML x) = true).
  { unfold minifyHTML, JS.replaceAll.
    apply no_newline_trim, collapse_no_newline, strip_newlines_no_newline. }
  assert (Hgap : NoMatch BETWEEN_TAGS (minifyHTML x)).
  { unfold minifyHTML, JS.replaceAll. apply NoMatch_trim, collapse_NoMatch. }
  unfold minifyHTML at 1.
  rewrite (replaceAll_NoMatch NEWLINE_RUN "" _ (no_newline_NoMatch _ Hnl)).
  rewrite (replaceAll_NoMatch BETWEEN_TAGS "><" _ Hgap).
  unfold minifyHTML. apply trim_idempotent.
Qed.

(** ** Soundness of the matcher *)

Lemma subclass_sound (p q : ascii -> bool) :
  subclass p q = true -> forall c, p c = true -> q c = true.
Proof.
  unfold subclass. intros H c Hp. rewrite forallb_forall in H.
  assert (Hin : In c all_ascii).
  { unfold all_ascii. rewrite <- (ascii_nat_embedding c). apply in_map.
    apply in_seq. pose proof (nat_ascii_bounded c). lia. }
  specialize (H c Hin). now rewrite Hp in H.
Qed.

Lemma forallb_string_app (p : ascii -> bool) (s t : string) :
  JS.forallb_string p (s ++ t) = JS.forallb_string p s && JS.forallb_string p t.
Proof.
  induction s as [|c r IH]; simpl; [reflexivity|]. now rewrite IH, andb_assoc.
Qed.

Lemma append_assoc (a b c : string) : (a ++ b) ++ c = a ++ (b ++ c).
Proof. induction a as [|x a IH]; simpl; [reflexivity | now rewrite IH]. Qed.

Lemma append_nil_r (a : string) : a ++ "" = a.
Proof. induction a as [|x a IH]; simpl; [reflexivity | now rewrite IH]. Qed.

Lemma length_app (a b : string) :
  String.length (a ++ b) = String.length a + String.length b.
Proof. induction a as [|x a IH]; simpl; [reflexivity | now rewrite IH]. Qed.

Lemma substring_app_prefix (w t : string) :
  String.substring 0 (String.length (w ++ t) - String.length t) (w ++ t) = w.
Proof.
  rewrite length_app. replace (String.length w + String.length t - String.length t)
    with (String.length w) by lia.
  induction w as [|c w IH]; simpl.
  - destruct t; reflexivity.
  - now rewrite IH.
Qed.

Lemma rep_sound (p q : ascii -> bool) (lo : nat) (hi : option nat) (s : string)
      (k : string -> option JS.mstate) (x : JS.mstate) :
  (forall c, p c = true -> q c = true) ->
  JS.rep p lo hi s k = Some x ->
  exists w t, s = w ++ t /\ JS.forallb_string q w = true
              /\ lo <= String.length w /\ k t = Some x.
Proof.
  intros Hpq. revert lo hi. induction s as [|c r IH]; intros lo hi H.
  - simpl in H. destruct lo; [|discriminate]. exists "", "". simpl. auto.
  - cbn [JS.rep] in H.
    assert (Hstop : (if Nat.eqb lo 0 then k (String c r) else None) = Some x ->
                    exists w t, String c r = w ++ t
                                /\ JS.forallb_string q w = true
                                /\ lo <= String.length w /\ k t = Some x).
    { destruct lo; [|discriminate]. intros Hk. exists "", (String c r). simpl. auto. }
    destruct (p c && JS.more hi) eqn:Hc; [|now apply Hstop].
    destruct (JS.rep p (Nat.pred lo) (JS.dec_hi hi) r k) as [y|] eqn:Hrec;
      [|now apply Hstop].
    inversion H; subst y.
    destruct (IH _ _ Hrec) as [w [t [Hs [Hw [Hlo Hk]]]]].
    exists (String c w), t. subst r. repeat split; [| simpl; lia | assumption].
    simpl. rewrite Hw. apply andb_true_iff in Hc. destruct Hc as [Hc _].
    now rewrite (Hpq c Hc).
Qed.

(** A successful run consumed a prefix [w] of the input whose characters
    lie in the classes of the pattern, and handed the rest to the
    continuation; without a group the capture is passed on unchanged. *)
Lemma run_sound (q : ascii -> bool) (r : JS.regex) :
  classes_in q r = true ->
  forall s g k x,
    JS.run r s g k = Some x ->
    exists w t g', s = w ++ t /\ JS.forallb_string q w = true
                   /\ min_length r <= String.length w
                   /\ k t g' = Some x /\ (has_group r = false -> g' = g).
Proof.
  induction r as [|p|p lo hi|a IHa b IHb|a IHa b IHb|a IHa]; intros Hq s g k x H;
    cbn [classes_in] in Hq; cbn [JS.run] in H; cbn [min_length has_group].
  - exists "", s, g. simpl. auto.
  - destruct s as [|c t]; [discriminate|].
    destruct (p c) eqn:Hc; [|discriminate].
    exists (String c ""), t, g. simpl.
    rewrite (subclass_sound p q Hq c Hc). auto.
  - destruct (rep_sound p q lo hi s _ x (subclass_sound p q Hq) H)
      as [w [t [Hs [Hw [Hlo Hk]]]]].
    exists w, t, g. auto.
  - apply andb_true_iff in Hq. destruct Hq as [Hqa Hqb].
    destruct (IHa Hqa _ _ _ _ H) as [w1 [t1 [g1 [Hs1 [Hw1 [Hl1 [Hk1 Hg1]]]]]]].
    destruct (IHb Hqb _ _ _ _ Hk1) as [w2 [t2 [g2 [Hs2 [Hw2 [Hl2 [Hk2 Hg2]]]]]]].
    exists (w1 ++ w2), t2, g2. subst. split; [now rewrite append_assoc|].
    split; [now rewrite forallb_string_app, Hw1, Hw2|].
    split; [rewrite length_app; lia|]. split; [assumption|].
    intros Hno. apply orb_false_iff in Hno.
    destruct Hno as [Hna Hnb]. now rewrite (Hg2 Hnb), (Hg1 Hna).
  - apply andb_true_iff in Hq. destruct Hq as [Hqa Hqb].
    destruct (JS.run a s g k) as [y|] eqn:Ha.
    + inversion H; subst y.
      destruct (IHa Hqa _ _ _ _ Ha) as [w [t [g' [Hs [Hw [Hl [Hk Hg]]]]]]].
      exists w, t, g'. repeat split; try assumption; [lia|].
      intros Hno. apply orb_false_iff in Hno. now apply Hg.
    + destruct (IHb Hqb _ _ _ _ H) as [w [t [g' [Hs [Hw [Hl [Hk Hg]]]]]]].
      exists w, t, g'. repeat split; try assumption; [lia|].
      intros Hno. apply orb_false_iff in Hno. now apply Hg.
  - destruct (IHa Hq _ _ _ _ H) as [w [t [g' [Hs [Hw [Hl [Hk _]]]]]]].
    cbv beta in Hk.
    exists w, t, (Some (String.substring 0 (String.length s - String.length t) s)).
    split; [assumption|]. split; [assumption|]. split; [assumption|].
    split; [assumption | discriminate].
Qed.

Lemma matchAll_from_exec (r : JS.regex) (s : string) (pos skip i : nat)
      (m : JS.jsmatch) :
  In (i, m) (JS.matchAll_from r s pos skip) -> exists u, JS.exec r u = Some m.
Proof.
  revert pos skip. induction s as [|c t IH]; intros pos skip Hin.
  - simpl in Hin. destruct skip; [|contradiction].
    destruct (JS.exec r "") as [m'|] eqn:He; [|contradiction].
    destruct Hin as [Heq | []]. inversion Heq; subst. now exists "".
  - cbn [JS.matchAll_from] in Hin. destruct skip as [|k]; [|now apply IH in Hin].
    destruct (JS.exec r (String c t)) as [m'|] eqn:He; [|now apply IH in Hin].
    destruct Hin as [Heq | Hin]; [|now apply IH in Hin].
    inversion Heq; subst. now exists (String c t).
Qed.

(** ** The target of a telephone link (C8) *)

Lemma run_PHONE_REGEX (s : string) (g : option string)
      (k : string -> option string -> option JS.mstate) :
  JS.run PHONE_REGEX s g k
  = match
      match s with
      | String c t => if JS.is_chr "+" c then JS.run PHONE_INTL_TAIL t g k else None
      | EmptyString => None
      end
    with
    | Some x => Some x
    | None => JS.run PHONE_NATIONAL s g k
    end.
Proof. destruct s; reflexivity. Qed.

Lemma run_phone_sound (s : string) (g : option string)
      (k : string -> option string -> option JS.mstate) (x : JS.mstate) :
  JS.run PHONE_REGEX s g k = Some x ->
  exists w t g', s = w ++ t /\ phone_text w /\ k t g' = Some x.
Proof.
  rewrite run_PHONE_REGEX. intros H.
  assert (Htail : classes_in digit_or_punct PHONE_INTL_TAIL = true)
    by (vm_compute; reflexivity).
  assert (Hnat : classes_in digit_or_punct PHONE_NATIONAL = true)
    by (vm_compute; reflexivity).
  destruct (match s with
            | String c t => if JS.is_chr "+" c then JS.run PHONE_INTL_TAIL t g k else None
            | EmptyString => None
            end) as [y|] eqn:Hintl.
  - inversion H; subst y. destruct s as [|c t]; [discriminate|].
    destruct (JS.is_chr "+" c) eqn:Hc; [|discriminate].
    apply is_chr_eq in Hc. subst c.
    destruct (run_sound _ _ Htail _ _ _ _ Hintl) as [w [t' [g' [Hs [Hw [_ [Hk _]]]]]]].
    exists (String "+" w), t', g'. subst t. repeat split; try assumption.
    + discriminate.
    + right. now exists w.
  - destruct (run_sound _ _ Hnat _ _ _ _ H) as [w [t' [g' [Hs [Hw [Hl [Hk _]]]]]]].
    exists w, t', g'. repeat split; try assumption.
    + intros ->. vm_compute in Hl. lia.
    + now left.
Qed.

Lemma exec_combined_phone (u : string) (m : JS.jsmatch) :
  JS.exec combined u = Some m -> truthy (JS.m_group1 m) = true ->
  phone_text (JS.m_text m).
Proof.
  unfold JS.exec, combined. cbn [JS.run]. intros H Hg.
  destruct (JS.run PHONE_REGEX u None _) as [y|] eqn:Hp.
  - destruct (run_phone_sound _ _ _ _ Hp) as [w [t [g' [Hs [Hw Hk]]]]].
    inversion Hk; subst y. inversion H; subst m. cbn [JS.m_text].
    subst u. now rewrite substring_app_prefix.
  - assert (Hany : classes_in (fun _ => true) EMAIL_REGEX = true)
      by (vm_compute; reflexivity).
    destruct (JS.run EMAIL_REGEX u None _) as [[t g]|] eqn:He; [|discriminate].
    destruct (run_sound _ _ Hany _ _ _ _ He) as [w [t' [g' [_ [_ [_ [Hk Hcap]]]]]]].
    inversion Hk; subst. inversion H; subst m. cbn [JS.m_group1] in Hg.
    rewrite Hcap in Hg by reflexivity. discriminate.
Qed.

Lemma replaceAll_class (p : ascii -> bool) (s : string) :
  JS.replaceAll (JS.Cls p) "" s = JS.filter_string (fun c => negb (p c)) s.
Proof.
  unfold JS.replaceAll. induction s as [|c t IH]; [reflexivity|].
  cbn [JS.replaceAll_from JS.filter_string]. unfold JS.exec. cbn [JS.run].
  destruct (p c); cbn [negb JS.m_text].
  - change (String.length (String c t)) with (S (String.length t)).
    replace (S (String.length t) - String.length t) with 1 by lia.
    cbn [String.substring String.length append].
    replace (String.substring 0 0 t) with "" by (now destruct t). exact IH.
  - now rewrite IH.
Qed.

Lemma filter_punct_digits (w : string) :
  JS.forallb_string digit_or_punct w = true ->
  JS.forallb_string JS.is_digit (JS.filter_string (fun c => negb (phone_punct c)) w)
  = true.
Proof.
  induction w as [|c w IH]; [reflexivity|]. simpl. intros H.
  apply andb_true_iff in H. destruct H as [Hc Hw]. unfold digit_or_punct in Hc.
  destruct (phone_punct c) eqn:Hp; simpl; [now apply IH|].
  rewrite orb_false_r in Hc. rewrite Hc. now apply IH.
Qed.

Lemma phone_text_target (w : string) :
  phone_text w ->
  tel_number w (JS.replaceAll PHONE_PUNCT "" w).
Proof.
  intros [_ [Hw | [w' [-> Hw']]]]; unfold PHONE_PUNCT; rewrite replaceAll_class.
  - left. now apply filter_punct_digits.
  - right. split; [reflexivity|].
    exists (JS.filter_string (fun c => negb (phone_punct c)) w').
    split; [reflexivity | now apply filter_punct_digits].
Qed.

Lemma linkMatches_In (text : string) (matches : list (nat * JS.jsmatch))
      (lastIndex : nat) (n : node) :
  In n (fst (linkMatches text matches lastIndex)) ->
  (exists d, n = Text d) \/ exists i m, In (i, m) matches /\ n = anchorFor m.
Proof.
  revert lastIndex. induction matches as [|[i m] rest IH]; intros lastIndex; simpl.
  - contradiction.
  - specialize (IH (i + String.length (JS.m_text m))).
    destruct (linkMatches text rest (i + String.length (JS.m_text m))) as [nodes last].
    simpl fst in *. intros Hin. apply in_app_or in Hin.
    destruct Hin as [Hin | [Heq | Hin]].
    + left. destruct (lastIndex <? i)%nat; [|contradiction].
      destruct Hin as [<- | []]. now eexists.
    + right. exists i, m. split; [now left | now symmetry].
    + destruct (IH Hin) as [Ht | [i' [m' [Hm Hn]]]]; [now left|].
      right. exists i', m'. split; [now right | assumption].
Qed.

Lemma linkText_In (text : string) (n : node) :
  In n (linkText text) ->
  (exists d, n = Text d)
  \/ exists i m, In (i, m) (JS.matchAll combined text) /\ n = anchorFor m.
Proof.
  unfold linkText. cbv zeta.
  destruct (JS.matchAll combined text) as [|p l] eqn:Hm.
  - intros [<- | []]. left. now eexists.
  - pose proof (linkMatches_In text (p :: l) 0 n) as H.
    destruct (linkMatches text (p :: l) 0) as [nodes last]. simpl fst in H.
    intros Hin. apply in_app_or in Hin. destruct Hin as [Hin | Hin]; [now apply H|].
    left. destruct (last <? String.length text)%nat; [|contradiction].
    destruct Hin as [<- | []]. now eexists.
Qed.

(** C8 (as the code has it).  Every hyperlink the Auto-Linker creates
    for a telephone match wraps the matched text and has the target [tel:]
    followed by the matched text without its white space, dashes and
    parentheses: digits only for the four national forms, and a [+]
    followed by digits only for the international [+61] form. *)
Theorem C8_tel_target (text : string) (attrs : attributes) (cs : list node)
        (href : string) :
  In (Elem "a" attrs cs) (linkText text) ->
  Dom.getAttribute "href" attrs = Some href ->
  JS.startsWith href "tel:" = true ->
  exists matchText d,
    cs = [Text matchText]
    /\ href = "tel:" ++ d
    /\ d = JS.filter_string (fun c => negb (phone_punct c)) matchText
    /\ tel_number matchText d.
Proof.
  intros Hin Hhref Htel.
  destruct (linkText_In _ _ Hin) as [[d Hd] | [i [m [Hm Hn]]]]; [discriminate|].
  destruct (matchAll_from_exec _ _ _ _ _ _ Hm) as [u Hu].
  unfold anchorFor in Hn. cbv zeta in Hn. inversion Hn; subst attrs cs. clear Hn.
  simpl in Hhref. inversion Hhref; subst href. clear Hhref.
  destruct (truthy (JS.m_group1 m)) eqn:Hg; [|discriminate].
  pose proof (exec_combined_phone u m Hu Hg) as Hphone.
  exists (JS.m_text m), (JS.replaceAll PHONE_PUNCT "" (JS.m_text m)).
  split.
  - unfold Dom.setTextContent. destruct Hphone as [Hne _].
    destruct (String.eqb_spec (JS.m_text m) ""); [contradiction | reflexivity].
  - split; [reflexivity|]. split.
    + unfold PHONE_PUNCT. apply replaceAll_class.
    + now apply phone_text_target.
Qed.

Lemma C8_tel_target_witness :
  exists matchText d,
    [Text "0412 345 678"] = [Text matchText]
    /\ "tel:0412345678" = "tel:" ++ d
    /\ d = JS.filter_string (fun c => negb (phone_punct c)) matchText
    /\ tel_number matchText d.
Proof.
  apply (C8_tel_target "Call 0412 345 678 now"
                       [("href", "tel:0412345678")] [Text "0412 345 678"]).
  - vm_compute. right. left. reflexivity.
  - reflexivity.
  - reflexivity.
Defined.

(** C8, counterexample to the claim as worded.  For the international
    form [+61 4 1234 5678] the target is [tel:+61412345678]: the [+] is
    kept, so not every character after [tel:] is a digit. *)
Lemma C8_international_counterexample :
  linkText "+61 4 1234 5678"
  = [Elem "a" [("href", "tel:+61412345678")] [Text "+61 4 1234 5678"]]
  /\ JS.forallb_string JS.is_digit "+61412345678" = false.
Proof. split; vm_compute; reflexivity. Qed.

(** ** Running the passes twice (C2) *)

Lemma without_id (names : list string) (attrs : attributes) :
  (forall a, In a attrs -> ~ In (fst a) names) -> without names attrs = attrs.
Proof.
  unfold without. induction attrs as [|a l IH]; intros H; simpl; [reflexivity|].
  destruct (includes names (fst a)) eqn:Hin.
  - apply includes_In in Hin. exfalso. apply (H a); [now left | assumption].
  - simpl. f_equal. apply IH. intros b Hb. apply H. now right.
Qed.

Lemma stripAttributes_idempotent (attrs : attributes) :
  stripAttributes (stripAttributes attrs) = stripAttributes attrs.
Proof.
  rewrite (stripAttributes_without (stripAttributes attrs)).
  apply without_id. intros [n v] Hin. simpl fst.
  rewrite stripAttributes_without in Hin.
  pose proof Hin as Hin'. apply In_without in Hin'. destruct Hin' as [Ha Hout].
  simpl fst in Hout. unfold stripped_names in Hout.
  assert (H1 : ~ In n (attrsToRemove ++ role_names attrs))
    by (intros H; apply Hout; apply in_or_app; now left).
  assert (H2 : ~ In n (map fst (filter blank
                                  (without (attrsToRemove ++ role_names attrs) attrs))))
    by (intros H; apply Hout; apply in_or_app; now right).
  assert (Hr : ~ In "role" attrsToRemove) by (simpl; intuition discriminate).
  rewrite <- stripAttributes_without in Hin.
  unfold stripped_names. intros H. apply in_app_or in H. destruct H as [H | H].
  - apply in_app_or in H. destruct H as [H | H].
    + apply H1. apply in_or_app. now left.
    + (* the role attribute was kept, so its value is not "presentation" *)
      unfold role_names in H.
      destruct (option_string_eqb
                  (Dom.getAttribute "role" (without attrsToRemove (stripAttributes attrs)))
                  "presentation") eqn:Hrole; [|contradiction].
      destruct H as [<- | []].
      rewrite getAttribute_without_out in Hrole by assumption.
      rewrite stripAttributes_without in Hrole.
      rewrite getAttribute_without_out in Hrole by assumption.
      apply H1. apply in_or_app. right. unfold role_names.
      rewrite getAttribute_without_out by assumption.
      rewrite Hrole. now left.
  - apply in_map_iff in H. destruct H as [[n' v'] [Hn Hb]]. simpl in Hn. subst n'.
    apply filter_In in Hb. destruct Hb as [Hb Hblank].
    apply In_without in Hb. destruct Hb as [Hb _].
    rewrite stripAttributes_without in Hb. apply In_without in Hb.
    destruct Hb as [Hb Hout']. apply Hout'. unfold stripped_names. simpl fst.
    apply in_or_app. right.
    change n with (fst (n, v')). apply in_map. apply filter_In. split; [|assumption].
    apply In_without. split; [assumption | exact H1].
Qed.

Lemma flat_map_fixed (f : node -> list node) (l : list node) :
  Forall (fun n => f n = [n]) l -> flat_map f l = l.
Proof.
  induction 1 as [|n l Hn _ IH]; simpl; [reflexivity|]. now rewrite Hn, IH.
Qed.

Lemma Forall_flat_map (P : node -> Prop) (f : node -> list node) (l : list node) :
  Forall (fun n => Forall P (f n)) l -> Forall P (flat_map f l).
Proof.
  induction 1 as [|n l Hn _ IH]; simpl; [constructor|].
  apply Forall_app. now split.
Qed.

Lemma headingMarker_level (text level prefix : string) :
  headingMarker text = Some (level, prefix) ->
  In level ["h1"; "h2"; "h3"; "h4"].
Proof.
  unfold headingMarker. intros H.
  repeat match type of H with
         | (if ?b then _ else _) = _ => destruct b
         end; inversion H; subst; simpl; tauto.
Qed.

Lemma processNode_sanitized (n : node) : Forall sanitized (processNode n).
Proof.
  induction n as [tag attrs cs IH | d | d | tattrs tcs] using node_induction;
    [|repeat constructor|constructor|].
  - pose proof (Forall_flat_map sanitized processNode cs IH) as Hcs.
    pose proof (flat_map_fixed processNode _ Hcs) as Hfix.
    simpl processNode.
    destruct (checkForHeadingMarker tag (flat_map processNode cs)) as [h|] eqn:Hh.
    + constructor; [|constructor].
      unfold checkForHeadingMarker in Hh.
      destruct (negb (String.eqb (Dom.tagName tag) "P")); [discriminate|].
      cbv zeta in Hh.
      destruct (headingMarker _) as [[level prefix]|] eqn:Hm; [|discriminate].
      inversion Hh; subst h. clear Hh.
      apply headingMarker_level in Hm.
      unfold sanitized, Dom.setTextContent.
      destruct (String.eqb _ ""); simpl in Hm;
        destruct Hm as [<- | [<- | [<- | [<- | []]]]]; reflexivity.
    + destruct (String.eqb (Dom.tagName tag) "SPAN") eqn:Hspan.
      * now rewrite convertSpan_stripped.
      * constructor; [|constructor]. unfold sanitized. simpl processNode.
        now rewrite Hfix, Hh, Hspan, stripAttributes_idempotent.
  - cbn [processNode]. constructor; [|constructor]. unfold sanitized.
    cbn [processNode]. now rewrite stripAttributes_idempotent.
Qed.

Lemma processBody_idempotent (cs : list node) :
  processBody (processBody cs) = processBody cs.
Proof.
  unfold processBody. apply flat_map_fixed.
  apply Forall_flat_map. apply Forall_forall. intros n _.
  apply processNode_sanitized.
Qed.

Lemma removeEmptyElements_pruned (n : node) : Forall pruned (removeEmptyElements n).
Proof.
  induction n as [tag attrs cs IH | d | d | tattrs tcs] using node_induction;
    [|repeat constructor|repeat constructor|].
  - pose proof (Forall_flat_map pruned removeEmptyElements cs IH) as Hcs.
    pose proof (flat_map_fixed removeEmptyElements _ Hcs) as Hfix.
    rewrite removeEmptyElements_elem. cbv zeta.
    destruct (String.eqb (Dom.tagName tag) "P" && _) eqn:Hp; [constructor|].
    destruct (negb (includes selfClosing (Dom.tagName tag)) && _ && _) eqn:He;
      [constructor|].
    constructor; [|constructor]. unfold pruned.
    rewrite removeEmptyElements_elem. cbv zeta. now rewrite Hfix, Hp, He.
  - rewrite removeEmptyElements_template.
    destruct (_ && _) eqn:He; [constructor|].
    constructor; [|constructor]. unfold pruned.
    now rewrite removeEmptyElements_template, He.
Qed.

Lemma removeEmptyBody_idempotent (cs : list node) :
  removeEmptyBody (removeEmptyBody cs) = removeEmptyBody cs.
Proof.
  unfold removeEmptyBody. apply flat_map_fixed.
  apply Forall_flat_map. apply Forall_forall. intros n _.
  apply removeEmptyElements_pruned.
Qed.

(** C2 (as the code has it).  The Tree Sanitizer and the Empty Element
    Pruner are idempotent on every tree: run on its own output, each
    changes nothing.  (The whole of [cleanHTML] is not idempotent, see the
    counterexample.) *)
Theorem C2_stages_idempotent (cs : list node) :
  processBody (processBody cs) = processBody cs
  /\ removeEmptyBody (removeEmptyBody cs) = removeEmptyBody cs.
Proof.
  split; [apply processBody_idempotent | apply removeEmptyBody_idempotent].
Qed.

(** C2, counterexample to the claim as worded.  A second run of
    [cleanHTML] changes the result of the first
    - when the first run unwrapped a span inside a telephone number: the
      two text nodes it leaves are scanned one by one and not linked, the
      serialised text is one node for the second run, which links it;
    - when the first run pruned an empty [strong] at the start of a list
      item: the label test skipped the item because of it, and the second
      run emboldens the label. *)
Lemma C2_not_idempotent :
  (cleanHTML "<p>04<span>12 345 678</span></p>" = Some "<p>0412 345 678</p>"
   /\ cleanHTML "<p>0412 345 678</p>"
      = Some ("<p><a href=" ++ quoted "tel:0412345678" ++ ">0412 345 678</a></p>"))
  /\ (cleanHTML "<ul><li><strong></strong>Name: Jane</li></ul>"
      = Some "<ul><li>Name: Jane</li></ul>"
      /\ cleanHTML "<ul><li>Name: Jane</li></ul>"
         = Some "<ul><li><strong>Name:</strong> Jane</li></ul>")
  /\ (exists x y z, cleanHTML x = Some y /\ cleanHTML y = Some z /\ y <> z)
  /\ (exists body, cleanBody (cleanBody body) <> cleanBody body).
Proof.
  split; [split; vm_compute; reflexivity|].
  split; [split; vm_compute; reflexivity|].
  split.
  - exists "<ul><li><strong></strong>Name: Jane</li></ul>",
           "<ul><li>Name: Jane</li></ul>",
           "<ul><li><strong>Name:</strong> Jane</li></ul>".
    repeat split; try (vm_compute; reflexivity). discriminate.
  - exists [Elem "li" [] [Elem "strong" [] []; Text "Name: Jane"]].
    vm_compute. discriminate.
Qed.

(** ** The descent of [cleanListItems] reaches every item *)

Lemma total_weight_app (l1 l2 : list node) :
  total_weight (l1 ++ l2) = total_weight l1 + total_weight l2.
Proof. unfold total_weight. now rewrite map_app, list_sum_app. Qed.

Lemma total_weight_cons (n : node) (l : list node) :
  total_weight (n :: l) = weight n + total_weight l.
Proof. reflexivity. Qed.

Lemma weight_elem (tag : string) (attrs : attributes) (cs : list node) :
  weight (Elem tag attrs cs)
  = (if String.eqb tag "li" then 3 else 1) + total_weight cs.
Proof. reflexivity. Qed.

Lemma weight_positive (n : node) : 1 <= weight n.
Proof.
  destruct n as [tag attrs cs | d | d | tattrs tcs]; [|simpl; lia|simpl; lia|simpl; lia].
  rewrite weight_elem. destruct (String.eqb tag "li"); lia.
Qed.

Lemma weight_in (n : node) (l : list node) : In n l -> weight n <= total_weight l.
Proof.
  induction l as [|a l IH]; [contradiction|].
  rewrite total_weight_cons. intros [-> | Hin]; [lia|]. specialize (IH Hin). lia.
Qed.

Lemma total_weight_nil : total_weight [] = 0.
Proof. reflexivity. Qed.

Lemma total_weight_one (n : node) : total_weight [n] = weight n.
Proof. unfold total_weight. simpl. lia. Qed.

Lemma weight_text (d : string) : weight (Text d) = 1.
Proof. reflexivity. Qed.

Lemma weight_comment (d : string) : weight (Comment d) = 1.
Proof. reflexivity. Qed.

Lemma weight_template (attrs : attributes) (contents : list node) :
  weight (Template attrs contents) = 1.
Proof. reflexivity. Qed.

Lemma weight_strong (cs : list node) :
  weight (Elem "strong" [] cs) = 1 + total_weight cs.
Proof. reflexivity. Qed.

Lemma unwrapParagraphs_weight (n : node) :
  total_weight (unwrapParagraphs n) <= weight n.
Proof.
  induction n as [tag attrs cs IH | d | d | tattrs tcs] using node_induction.
  - assert (Hcs : total_weight (flat_map unwrapParagraphs cs) <= total_weight cs).
    { induction IH as [|c cs Hc _ IHcs]; [apply Nat.le_refl|].
      cbn [flat_map]. rewrite total_weight_app, total_weight_cons. lia. }
    cbn [unwrapParagraphs]. rewrite weight_elem.
    destruct (String.eqb tag "p").
    + destruct (String.eqb tag "li"); lia.
    + rewrite total_weight_one, weight_elem. lia.
  - cbn [unwrapParagraphs]. rewrite total_weight_one. lia.
  - cbn [unwrapParagraphs]. rewrite total_weight_one. lia.
  - cbn [unwrapParagraphs]. rewrite total_weight_one. lia.
Qed.

Lemma after_colon_weight (s : string) :
  total_weight (if String.eqb s "" then [] else [Text s]) <= 1.
Proof.
  destruct (String.eqb s "");
    [rewrite total_weight_nil | rewrite total_weight_one, weight_text]; lia.
Qed.

Lemma boldLoop_weight (rest kept acc : list node) :
  total_weight (boldLoop kept acc rest)
  <= total_weight kept + total_weight acc + total_weight rest + 2.
Proof.
  revert kept acc. induction rest as [|child rest IH]; intros kept acc.
  - cbn [boldLoop]. rewrite total_weight_app, total_weight_nil. lia.
  - rewrite total_weight_cons.
    destruct child as [tag attrs cs | text | d | tattrs tcs]; cbn [boldLoop].
    + destruct (isStrongOrB tag).
      * rewrite total_weight_app, total_weight_cons. lia.
      * destruct (negb _).
        -- rewrite total_weight_cons, total_weight_app, weight_strong,
             total_weight_app, total_weight_one. lia.
        -- specialize (IH kept (acc ++ [Elem tag attrs cs])%list).
           rewrite total_weight_app, total_weight_one in IH. lia.
    + rewrite weight_text. destruct (negb _).
      * cbv zeta.
        rewrite total_weight_app, total_weight_cons, total_weight_app, weight_strong,
          total_weight_app, total_weight_one, weight_text.
        match goal with
        | |- context [total_weight (if String.eqb ?s "" then [] else [Text ?s])] =>
            pose proof (after_colon_weight s)
        end.
        lia.
      * specialize (IH kept (acc ++ [Text text])%list).
        rewrite total_weight_app, total_weight_one, weight_text in IH. lia.
    + rewrite weight_comment. specialize (IH (kept ++ [Comment d])%list acc).
      rewrite total_weight_app, total_weight_one, weight_comment in IH. lia.
    + rewrite weight_template. destruct (negb _).
      * rewrite total_weight_cons, total_weight_app, weight_strong,
          total_weight_app, total_weight_one, weight_template. lia.
      * specialize (IH kept (acc ++ [Template tattrs tcs])%list).
        rewrite total_weight_app, total_weight_one, weight_template in IH. lia.
Qed.

Lemma cleanListItem_weight (cs : list node) :
  total_weight (cleanListItem cs) <= total_weight cs + 2.
Proof.
  assert (H1 : total_weight (flat_map unwrapParagraphs cs) <= total_weight cs).
  { induction cs as [|c cs IH]; [apply Nat.le_refl|].
    cbn [flat_map]. rewrite total_weight_app, total_weight_cons.
    pose proof (unwrapParagraphs_weight c). lia. }
  unfold cleanListItem. cbv zeta.
  destruct (match flat_map unwrapParagraphs cs with
            | Elem tag _ _ :: _ => isStrongOrB tag
            | _ => false
            end); [lia|].
  destruct ((0 <? _)%Z && (_ <? 80)%Z); [|lia].
  unfold boldUpToColon.
  pose proof (boldLoop_weight (flat_map unwrapParagraphs cs) [] []) as H.
  rewrite total_weight_nil in H. lia.
Qed.

(** Any budget of at least the weight of the tree gives the same result:
    the descent never stops short of an item. *)
Lemma cleanListItems_fuel_enough (f1 f2 : nat) (n : node) :
  weight n <= f1 -> weight n <= f2 ->
  cleanListItems_fuel f1 n = cleanListItems_fuel f2 n.
Proof.
  revert f2 n. induction f1 as [|f1 IH]; intros f2 n H1 H2.
  - pose proof (weight_positive n). lia.
  - destruct f2 as [|f2]; [pose proof (weight_positive n); lia|].
    destruct n as [tag attrs cs | d | d | tattrs tcs]; [|reflexivity|reflexivity|reflexivity].
    cbn [cleanListItems_fuel]. f_equal.
    rewrite weight_elem in H1, H2.
    assert (Hcs : total_weight (if String.eqb tag "li" then cleanListItem cs else cs)
                  <= Nat.min f1 f2).
    { destruct (String.eqb tag "li").
      - pose proof (cleanListItem_weight cs). lia.
      - lia. }
    apply map_ext_in. intros c Hc. apply weight_in in Hc. apply IH; lia.
Qed.

(** ** The other examples of the specification, evaluated *)

Example list_label :
  cleanHTML "<ul><li>Name: Jane Doe</li></ul>"
  = Some "<ul><li><strong>Name:</strong> Jane Doe</li></ul>".
Proof. vm_compute. reflexivity. Qed.

Example list_label_already_bold :
  cleanHTML "<ul><li><strong>Name</strong>: Jane Doe</li></ul>"
  = Some "<ul><li><strong>Name</strong>: Jane Doe</li></ul>".
Proof. vm_compute. reflexivity. Qed.

Example list_paragraph_unwrapped :
  cleanHTML "<ul><li><p>Phone: <i>home</i></p></li></ul>"
  = Some "<ul><li><strong>Phone:</strong> <i>home</i></li></ul>".
Proof. vm_compute. reflexivity. Qed.

Example empty_elements_pruned :
  cleanHTML "<div><p></p><p><br></p><span></span><img></div>"
  = Some "<div><img></div>".
Proof. vm_compute. reflexivity. Qed.

Example comments_and_attributes_stripped :
  cleanHTML "<!--StartFragment--><p class='MsoNormal' dir='ltr' id='intro'>Hi<!-- x --></p>"
  = Some ("<p id=" ++ quoted "intro" ++ ">Hi</p>").
Proof. vm_compute. reflexivity. Qed.

Example text_inside_a_link_is_not_linked :
  cleanHTML "<p><a href='x'>a@b.com</a> c@d.org</p>"
  = Some ("<p><a href=" ++ quoted "x" ++ ">a@b.com</a> <a href="
          ++ quoted "mailto:c@d.org" ++ ">c@d.org</a></p>").
Proof. vm_compute. reflexivity. Qed.

Example template_attributes_stripped :
  cleanHTML "<div><template class='x' id='t'><p></p></template></div>"
  = Some ("<div><template id=" ++ quoted "t" ++ "><p></p></template></div>").
Proof. vm_compute. reflexivity. Qed.

Example blank_template_pruned :
  cleanHTML "<div>a<template> </template></div>" = Some "<div>a</div>".
Proof. vm_compute. reflexivity. Qed.

Example template_in_list_item :
  cleanHTML "<ul><li>Name<template>: x</template>: Jane</li></ul>"
  = Some "<ul><li><strong>Name<template>: x</template>:</strong> Jane</li></ul>".
Proof. vm_compute. reflexivity. Qed.

Example beautify_nested :
  beautifyHTML "<div> <p>a</p><br></div>"
  = Some (JS.join JS.newline ["<div>"; "  <p>"; "    a"; "  </p>"; "  <br>"; "</div>"]).
Proof. vm_compute. reflexivity. Qed.

Example minify_example :
  minifyHTML (JS.join JS.newline ["<div>"; "  <p>"; "    a"; "  </p>"; "</div>"])
  = "<div><p>a</p></div>".
Proof. vm_compute. reflexivity. Qed.

(* ================================================================== *)
(** * Further properties of the passes *)
(* ================================================================== *)

(** ** No comment and no span is left *)

Lemma forallb_flat_map (p : node -> bool) (f : node -> list node) (l : list node) :
  (forall n, In n l -> forallb p (f n) = true) ->
  forallb p (flat_map f l) = true.
Proof.
  induction l as [|a l IH]; intros H; [reflexivity|].
  cbn [flat_map]. rewrite forallb_app, (H a) by now left.
  apply IH. intros n Hn. apply H. now right.
Qed.

Lemma forallb_In (p : node -> bool) (l : list node) (n : node) :
  forallb p l = true -> In n l -> p n = true.
Proof. intros H Hin. rewrite forallb_forall in H. now apply H. Qed.

Lemma tidy_elem (tag : string) (attrs : attributes) (cs : list node) :
  tidy (Elem tag attrs cs)
  = negb (String.eqb (Dom.tagName tag) "SPAN") && forallb tidy cs.
Proof. reflexivity. Qed.

Lemma setTextContent_tidy (s : string) : forallb tidy (Dom.setTextContent s) = true.
Proof. unfold Dom.setTextContent. now destruct (String.eqb s ""). Qed.

Lemma processNode_tidy (n : node) : forallb tidy (processNode n) = true.
Proof.
  induction n as [tag attrs cs IH | d | d | tattrs tcs] using node_induction;
    [|reflexivity|reflexivity|reflexivity].
  assert (Hcs : forallb tidy (flat_map processNode cs) = true).
  { apply forallb_flat_map. intros c Hc. rewrite Forall_forall in IH. now apply IH. }
  simpl processNode.
  destruct (checkForHeadingMarker tag (flat_map processNode cs)) as [h|] eqn:Hh.
  - unfold checkForHeadingMarker in Hh.
    destruct (negb (String.eqb (Dom.tagName tag) "P")); [discriminate|].
    cbv zeta in Hh.
    destruct (headingMarker _) as [[level prefix]|] eqn:Hm; [|discriminate].
    inversion Hh; subst h. clear Hh. apply headingMarker_level in Hm.
    cbn [forallb]. rewrite tidy_elem, setTextContent_tidy.
    simpl in Hm. destruct Hm as [<- | [<- | [<- | [<- | []]]]]; reflexivity.
  - destruct (String.eqb (Dom.tagName tag) "SPAN") eqn:Hspan.
    + now rewrite convertSpan_stripped.
    + cbn [forallb]. now rewrite tidy_elem, Hspan, Hcs.
Qed.

Lemma unwrapParagraphs_tidy (n : node) :
  tidy n = true -> forallb tidy (unwrapParagraphs n) = true.
Proof.
  induction n as [tag attrs cs IH | d | d | tattrs tcs] using node_induction; intros H;
    [|reflexivity|discriminate|reflexivity].
  rewrite tidy_elem in H. apply andb_true_iff in H. destruct H as [Htag Hcs].
  assert (H' : forallb tidy (flat_map unwrapParagraphs cs) = true).
  { apply forallb_flat_map. intros c Hc. rewrite Forall_forall in IH.
    apply IH; [assumption|]. now apply (forallb_In tidy cs). }
  cbn [unwrapParagraphs]. destruct (String.eqb tag "p"); [assumption|].
  cbn [forallb]. now rewrite tidy_elem, Htag, H'.
Qed.

Lemma tidy_strong (cs : list node) :
  forallb tidy cs = true -> tidy (Elem "strong" [] cs) = true.
Proof. intros H. now rewrite tidy_elem, H. Qed.

Lemma boldLoop_tidy (rest kept acc : list node) :
  forallb tidy kept = true -> forallb tidy acc = true -> forallb tidy rest = true ->
  forallb tidy (boldLoop kept acc rest) = true.
Proof.
  revert kept acc. induction rest as [|child rest IH]; intros kept acc Hk Ha Hr.
  - cbn [boldLoop]. now rewrite forallb_app, Hk, Ha.
  - cbn [forallb] in Hr. apply andb_true_iff in Hr. destruct Hr as [Hc Hr].
    destruct child as [tag attrs cs | text | d | tattrs tcs]; cbn [boldLoop].
    + destruct (isStrongOrB tag).
      * rewrite forallb_app. cbn [forallb]. now rewrite Hk, Hc, Hr.
      * destruct (negb _).
        -- cbn [forallb]. rewrite tidy_strong, forallb_app, Hk, Hr; [reflexivity|].
           rewrite forallb_app. cbn [forallb]. now rewrite Ha, Hc.
        -- apply IH; try assumption. rewrite forallb_app. cbn [forallb].
           now rewrite Ha, Hc.
    + destruct (negb _).
      * cbv zeta. rewrite forallb_app. cbn [forallb].
        rewrite Hk, tidy_strong, forallb_app, Hr.
        -- now destruct (String.eqb _ "").
        -- rewrite forallb_app. cbn [forallb tidy]. now rewrite Ha.
      * apply IH; try assumption. rewrite forallb_app. cbn [forallb tidy].
        now rewrite Ha.
    + discriminate.
    + destruct (negb _).
      * cbn [forallb]. rewrite tidy_strong, forallb_app, Hk, Hr; [reflexivity|].
        rewrite forallb_app. cbn [forallb]. now rewrite Ha.
      * apply IH; try assumption. rewrite forallb_app. cbn [forallb].
        now rewrite Ha.
Qed.

Lemma cleanListItem_tidy (cs : list node) :
  forallb tidy cs = true -> forallb tidy (cleanListItem cs) = true.
Proof.
  intros H.
  assert (H1 : forallb tidy (flat_map unwrapParagraphs cs) = true).
  { apply forallb_flat_map. intros c Hc. apply unwrapParagraphs_tidy.
    now apply (forallb_In tidy cs). }
  unfold cleanListItem. cbv zeta.
  destruct (match flat_map unwrapParagraphs cs with
            | Elem tag _ _ :: _ => isStrongOrB tag
            | _ => false
            end); [assumption|].
  destruct ((0 <? _)%Z && (_ <? 80)%Z); [|assumption].
  now apply boldLoop_tidy.
Qed.

Lemma forallb_map_tidy (f : node -> node) (l : list node) :
  (forall n, In n l -> tidy (f n) = true) -> forallb tidy (map f l) = true.
Proof.
  induction l as [|a l IH]; intros H; [reflexivity|].
  cbn [map forallb]. rewrite (H a) by now left.
  apply IH. intros n Hn. apply H. now right.
Qed.

Lemma cleanListItems_fuel_tidy (fuel : nat) (n : node) :
  tidy n = true -> tidy (cleanListItems_fuel fuel n) = true.
Proof.
  revert n. induction fuel as [|f IH]; intros n H; [assumption|].
  destruct n as [tag attrs cs | d | d | tattrs tcs]; [|assumption|assumption|assumption].
  rewrite tidy_elem in H. apply andb_true_iff in H. destruct H as [Htag Hcs].
  cbn [cleanListItems_fuel]. rewrite tidy_elem, Htag.
  apply forallb_map_tidy. intros c Hc. apply IH.
  destruct (String.eqb tag "li").
  - now apply (forallb_In tidy (cleanListItem cs)); [apply cleanListItem_tidy|].
  - now apply (forallb_In tidy cs).
Qed.

Lemma removeEmptyElements_tidy (n : node) :
  tidy n = true -> forallb tidy (removeEmptyElements n) = true.
Proof.
  induction n as [tag attrs cs IH | d | d | tattrs tcs] using node_induction; intros H;
    [|reflexivity|discriminate
     |rewrite removeEmptyElements_template; now destruct (_ && _)].
  rewrite tidy_elem in H. apply andb_true_iff in H. destruct H as [Htag Hcs].
  assert (H' : forallb tidy (flat_map removeEmptyElements cs) = true).
  { apply forallb_flat_map. intros c Hc. rewrite Forall_forall in IH.
    apply IH; [assumption|]. now apply (forallb_In tidy cs). }
  rewrite removeEmptyElements_elem. cbv zeta.
  repeat match goal with
         | |- forallb tidy (if ?b then _ else _) = true => destruct b
         end; try reflexivity.
  cbn [forallb]. now rewrite tidy_elem, Htag, H'.
Qed.

Lemma anchorFor_tidy (m : JS.jsmatch) : tidy (anchorFor m) = true.
Proof. unfold anchorFor. cbv zeta. rewrite tidy_elem. apply setTextContent_tidy. Qed.

Lemma linkMatches_tidy (text : string) (matches : list (nat * JS.jsmatch))
      (lastIndex : nat) :
  forallb tidy (fst (linkMatches text matches lastIndex)) = true.
Proof.
  revert lastIndex. induction matches as [|[i m] rest IH]; intros lastIndex;
    [reflexivity|].
  cbn [linkMatches]. specialize (IH (i + String.length (JS.m_text m))).
  destruct (linkMatches text rest (i + String.length (JS.m_text m))) as [nodes last].
  cbn [fst] in *. rewrite forallb_app. cbn [forallb].
  rewrite anchorFor_tidy, IH. now destruct (lastIndex <? i)%nat.
Qed.

Lemma linkText_tidy (text : string) : forallb tidy (linkText text) = true.
Proof.
  unfold linkText. cbv zeta.
  destruct (JS.matchAll combined text) as [|p l]; [reflexivity|].
  pose proof (linkMatches_tidy text (p :: l) 0) as H.
  destruct (linkMatches text (p :: l) 0) as [nodes last]. cbn [fst] in H.
  rewrite forallb_app, H. now destruct (last <? String.length text)%nat.
Qed.

Lemma autoLink_tidy (n : node) (inLink : bool) :
  tidy n = true -> forallb tidy (autoLink inLink n) = true.
Proof.
  revert inLink.
  induction n as [tag attrs cs IH | d | d | tattrs tcs] using node_induction; intros inLink H.
  - rewrite tidy_elem in H. apply andb_true_iff in H. destruct H as [Htag Hcs].
    cbn [autoLink forallb]. rewrite tidy_elem, Htag, andb_true_r. cbn [andb].
    apply forallb_flat_map. intros c Hc. rewrite Forall_forall in IH.
    apply IH; [assumption|]. now apply (forallb_In tidy cs).
  - cbn [autoLink]. destruct inLink; [reflexivity | apply linkText_tidy].
  - discriminate.
  - reflexivity.
Qed.

Lemma cleanBody_tidy (cs : list node) : forallb tidy (cleanBody cs) = true.
Proof.
  unfold cleanBody, autoLinkEmailsAndPhones, removeEmptyBody, cleanListItems, processBody.
  apply forallb_flat_map. intros n Hn. apply autoLink_tidy.
  revert n Hn. apply forallb_forall.
  apply forallb_flat_map. intros n Hn. apply removeEmptyElements_tidy.
  revert n Hn. apply forallb_forall.
  apply forallb_map_tidy. intros n Hn. apply cleanListItems_fuel_tidy.
  revert n Hn. apply forallb_forall.
  apply forallb_flat_map. intros n _. apply processNode_tidy.
Qed.

Lemma tidy_nodes (n m : node) :
  tidy n = true -> In m (nodes_of n) ->
  match m with
  | Comment _ => False
  | Text _ => True
  | Template _ _ => True
  | Elem tag _ _ => Dom.tagName tag <> "SPAN"
  end.
Proof.
  revert m. induction n as [tag attrs cs IH | d | d | tattrs tcs] using node_induction;
    intros m H Hin.
  - rewrite tidy_elem in H. apply andb_true_iff in H. destruct H as [Htag Hcs].
    cbn [nodes_of] in Hin. destruct Hin as [<- | Hin].
    + apply negb_true_iff in Htag. now apply String.eqb_neq.
    + apply in_flat_map in Hin. destruct Hin as [c [Hc Hm]].
      rewrite Forall_forall in IH. apply (IH c Hc); [|assumption].
      now apply (forallb_In tidy cs).
  - destruct Hin as [<- | []]. exact I.
  - discriminate.
  - destruct Hin as [<- | []]. exact I.
Qed.

(** X1.  Whatever the parsed body holds, after the four passes no comment
    node is left among the descendants of the body, at any depth.  (The
    contents of a template are not among the descendants; no pass reaches
    them.) *)
Theorem no_comment_left (cs : list node) (d : string) :
  ~ In (Comment d) (flat_map nodes_of (cleanBody cs)).
Proof.
  intros Hin. apply in_flat_map in Hin. destruct Hin as [n [Hn Hin]].
  apply (tidy_nodes n (Comment d)); [|assumption].
  now apply (forallb_In tidy (cleanBody cs)); [apply cleanBody_tidy|].
Qed.

(** X2.  Whatever the parsed body holds, after the four passes no element
    among the descendants of the body is a [span]: the sanitizer unwraps
    every span and no later pass creates one.  (The contents of a template
    are not among the descendants; no pass reaches them.) *)
Theorem no_span_left (cs : list node) (tag : string) (attrs : attributes)
        (children : list node) :
  In (Elem tag attrs children) (flat_map nodes_of (cleanBody cs)) ->
  Dom.tagName tag <> "SPAN".
Proof.
  intros Hin. apply in_flat_map in Hin. destruct Hin as [n [Hn Hin]].
  apply (tidy_nodes n (Elem tag attrs children)); [|assumption].
  now apply (forallb_In tidy (cleanBody cs)); [apply cleanBody_tidy|].
Qed.

Lemma no_span_left_witness :
  In (Elem "p" [] [Text "a"; Text "b"])
     (flat_map nodes_of (cleanBody [Elem "p" [] [Text "a"; Elem "span" [] [Text "b"]]]))
  /\ Dom.tagName "p" <> "SPAN".
Proof.
  assert (H : In (Elem "p" [] [Text "a"; Text "b"])
                 (flat_map nodes_of
                    (cleanBody [Elem "p" [] [Text "a"; Elem "span" [] [Text "b"]]])))
    by (vm_compute; now left).
  split; [exact H | exact (no_span_left _ _ _ _ H)].
Defined.

(** ** The text of sibling nodes *)

Lemma innerText_cons (n : node) (l : list node) :
  innerText (n :: l) = innerText [n] ++ innerText l.
Proof.
  unfold innerText. cbn [Dom.textContent map].
  rewrite concat_empty_cons.
  change (String.concat "" [?x]) with x. reflexivity.
Qed.

Lemma innerText_nil : innerText [] = "".
Proof. reflexivity. Qed.

Lemma innerText_text (d : string) : innerText [Text d] = d.
Proof. reflexivity. Qed.

Lemma innerText_comment (d : string) : innerText [Comment d] = "".
Proof. reflexivity. Qed.

Lemma innerText_elem (tag : string) (attrs : attributes) (cs : list node) :
  innerText [Elem tag attrs cs] = innerText cs.
Proof. reflexivity. Qed.

Lemma innerText_app (l1 l2 : list node) :
  innerText (l1 ++ l2) = innerText l1 ++ innerText l2.
Proof.
  induction l1 as [|n l IH]; [reflexivity|].
  cbn [app]. rewrite innerText_cons, (innerText_cons n l), IH.
  now rewrite append_assoc.
Qed.

Lemma innerText_flat_map (f : node -> list node) (l : list node) :
  (forall n, In n l -> innerText (f n) = innerText [n]) ->
  innerText (flat_map f l) = innerText l.
Proof.
  induction l as [|a l IH]; intros H; [reflexivity|].
  cbn [flat_map]. rewrite innerText_app, (innerText_cons a l), (H a) by now left.
  f_equal. apply IH. intros n Hn. apply H. now right.
Qed.

Lemma innerText_setTextContent (s : string) : innerText (Dom.setTextContent s) = s.
Proof.
  unfold Dom.setTextContent. destruct (String.eqb_spec s ""); [now subst | reflexivity].
Qed.

(** ** Pieces of a string *)

Lemma substring_drop (a m : nat) (s : string) :
  String.substring a m s = String.substring 0 m (JS.drop a s).
Proof.
  revert s. induction a as [|a IH]; intros s.
  - now destruct s.
  - destruct s as [|c s]; [now destruct m|]. cbn [JS.drop]. rewrite <- IH.
    reflexivity.
Qed.

Lemma length_drop (a : nat) (s : string) :
  String.length (JS.drop a s) = String.length s - a.
Proof.
  revert s. induction a as [|a IH]; intros s; [simpl; lia|].
  destruct s as [|c s]; [reflexivity|]. cbn [JS.drop]. rewrite IH. reflexivity.
Qed.

Lemma substringFrom_drop (a : nat) (s : string) :
  JS.substringFrom a s = JS.drop a s.
Proof.
  unfold JS.substringFrom. rewrite substring_drop, <- length_drop.
  apply substring_all.
Qed.

Lemma take_drop (n : nat) (s : string) :
  String.substring 0 n s ++ JS.drop n s = s.
Proof.
  revert s. induction n as [|n IH]; intros s.
  - now destruct s.
  - destruct s as [|c s]; [reflexivity|]. simpl. now rewrite IH.
Qed.

Lemma drop_drop (a b : nat) (s : string) :
  JS.drop a (JS.drop b s) = JS.drop (b + a) s.
Proof.
  revert s. induction b as [|b IH]; intros s; [reflexivity|].
  destruct s as [|c s]; [now destruct a|]. cbn [JS.drop Nat.add]. apply IH.
Qed.

Lemma drop_app_length (w t : string) : JS.drop (String.length w) (w ++ t) = t.
Proof. induction w as [|c w IH]; [now destruct t | exact IH]. Qed.

Lemma drop_beyond (a : nat) (s : string) :
  String.length s <= a -> JS.drop a s = "".
Proof.
  revert s. induction a as [|a IH]; intros s H.
  - destruct s; [reflexivity | simpl in H; lia].
  - destruct s as [|c s]; [reflexivity|]. apply IH. simpl in H. lia.
Qed.

(** The part of [s] from [a] on is the piece from [a] to [b] followed by
    the part from [b] on. *)
Lemma drop_split (a b : nat) (s : string) :
  a <= b -> JS.drop a s = JS.substring2 a b s ++ JS.drop b s.
Proof.
  intros H. unfold JS.substring2. rewrite substring_drop.
  replace (JS.drop b s) with (JS.drop (b - a) (JS.drop a s))
    by (rewrite drop_drop; f_equal; lia).
  symmetry. apply take_drop.
Qed.

Lemma drop_succ (pos : nat) (s t : string) (c : ascii) :
  JS.drop pos s = String c t -> JS.drop (S pos) s = t.
Proof.
  intros H. replace (S pos) with (pos + 1) by lia.
  rewrite <- drop_drop, H. reflexivity.
Qed.

(** ** A match is a prefix of the input it was tried on *)

Lemma classes_in_any (r : JS.regex) : classes_in (fun _ => true) r = true.
Proof.
  assert (H : forall p, subclass p (fun _ => true) = true).
  { intros p. unfold subclass. apply forallb_forall. intros c _.
    now destruct (p c). }
  induction r as [|p|p lo hi|a IHa b IHb|a IHa b IHb|a IHa]; cbn [classes_in];
    auto; now rewrite IHa, IHb.
Qed.

Lemma exec_split (r : JS.regex) (u : string) (m : JS.jsmatch) :
  JS.exec r u = Some m -> u = JS.m_text m ++ JS.m_rest m.
Proof.
  unfold JS.exec.
  destruct (JS.run r u None (fun t g => Some (t, g))) as [[t g]|] eqn:Hrun;
    [|discriminate].
  destruct (run_sound _ r (classes_in_any r) _ _ _ _ Hrun)
    as [w [t' [g' [Hu [_ [_ [Hk _]]]]]]].
  inversion Hk; subst t' g'. intros H. inversion H; subst m. cbn [JS.m_text JS.m_rest].
  subst u. now rewrite substring_app_prefix.
Qed.

(** ** The Auto-Linker keeps the text *)

Lemma innerText_anchorFor (m : JS.jsmatch) : innerText [anchorFor m] = JS.m_text m.
Proof.
  unfold anchorFor. cbv zeta. rewrite innerText_elem. apply innerText_setTextContent.
Qed.

(** The nodes built for the matches found from position [pos] on, followed
    by the text after the last match, spell the text from [lastIndex] on. *)
Lemma linkMatches_text (r : JS.regex) (text s : string) :
  forall pos skip lastIndex,
    JS.drop pos text = s ->
    lastIndex <= pos + skip ->
    (skip <> 0 -> lastIndex = pos + skip) ->
    innerText (fst (linkMatches text (JS.matchAll_from r s pos skip) lastIndex))
    ++ JS.drop (snd (linkMatches text (JS.matchAll_from r s pos skip) lastIndex)) text
    = JS.drop lastIndex text.
Proof.
  induction s as [|c t IH]; intros pos skip lastIndex Hs Hle Heq.
  - cbn [JS.matchAll_from].
    assert (Hlen : String.length text <= pos).
    { pose proof (length_drop pos text) as H. rewrite Hs in H. simpl in H. lia. }
    destruct skip as [|k]; [|reflexivity].
    destruct (JS.exec r "") as [m|] eqn:He; [|reflexivity].
    apply exec_split in He.
    assert (Hm : JS.m_text m = "") by (destruct (JS.m_text m); [reflexivity | discriminate]).
    cbn [linkMatches fst snd]. rewrite innerText_app, innerText_cons, innerText_anchorFor, Hm.
    rewrite innerText_nil. cbn [String.length]. rewrite Nat.add_0_r.
    rewrite (drop_split lastIndex pos text) by lia.
    rewrite (drop_beyond pos text Hlen).
    destruct (lastIndex <? pos)%nat eqn:Hlt.
    + rewrite innerText_text. now rewrite !append_nil_r.
    + apply Nat.ltb_ge in Hlt. assert (lastIndex = pos) by lia. subst.
      unfold JS.substring2. rewrite Nat.sub_diag, substring_drop.
      now destruct (JS.drop pos text).
  - pose proof (drop_succ _ _ _ _ Hs) as Hs'.
    cbn [JS.matchAll_from]. destruct skip as [|k].
    + destruct (JS.exec r (String c t)) as [m|] eqn:He.
      * pose proof (exec_split _ _ _ He) as Hu.
        cbn [linkMatches].
        specialize (IH (S pos) (Nat.pred (String.length (JS.m_text m)))
                       (pos + String.length (JS.m_text m)) Hs').
        destruct (linkMatches text
                    (JS.matchAll_from r t (S pos) (Nat.pred (String.length (JS.m_text m))))
                    (pos + String.length (JS.m_text m))) as [nodes last].
        cbn [fst snd] in *.
        rewrite innerText_app, innerText_cons, innerText_anchorFor.
        rewrite !append_assoc, IH by lia.
        rewrite (drop_split lastIndex pos text) by lia.
        rewrite <- drop_drop, Hs, Hu, drop_app_length.
        f_equal.
        destruct (lastIndex <? pos)%nat eqn:Hlt; [reflexivity|].
        apply Nat.ltb_ge in Hlt. assert (lastIndex = pos) by lia. subst.
        unfold JS.substring2. rewrite Nat.sub_diag, substring_drop.
        now destruct (JS.drop pos text).
      * apply IH; [assumption | lia | intros H; now elim H].
    + apply IH; [assumption | lia | lia].
Qed.

Lemma linkText_text (text : string) : innerText (linkText text) = text.
Proof.
  unfold linkText. cbv zeta.
  pose proof (linkMatches_text combined text text 0 0 0 eq_refl (Nat.le_refl 0)) as H.
  unfold JS.matchAll.
  destruct (JS.matchAll_from combined text 0 0) as [|p l]; [reflexivity|].
  destruct (linkMatches text (p :: l) 0) as [nodes last]. cbn [fst snd] in H.
  rewrite innerText_app.
  replace (innerText (if (last <? String.length text)%nat
                      then [Text (JS.substringFrom last text)] else []))
    with (JS.drop last text).
  - apply H. intros Hne. now elim Hne.
  - destruct (last <? String.length text)%nat eqn:Hlt.
    + now rewrite innerText_text, substringFrom_drop.
    + apply Nat.ltb_ge in Hlt. now rewrite drop_beyond.
Qed.

Lemma autoLink_text (n : node) (inLink : bool) :
  innerText (autoLink inLink n) = innerText [n].
Proof.
  revert inLink.
  induction n as [tag attrs cs IH | d | d | tattrs tcs] using node_induction; intros inLink.
  - cbn [autoLink]. rewrite !innerText_elem. apply innerText_flat_map.
    intros c Hc. rewrite Forall_forall in IH. now apply IH.
  - cbn [autoLink]. destruct inLink; [reflexivity | apply linkText_text].
  - reflexivity.
  - reflexivity.
Qed.

(** ** Links are never nested *)

Lemma autoLink_inside_link (n : node) : autoLink true n = [n].
Proof.
  induction n as [tag attrs cs IH | d | d | tattrs tcs] using node_induction;
    [|reflexivity|reflexivity|reflexivity].
  cbn [autoLink orb]. now rewrite (flat_map_fixed (autoLink true) cs IH).
Qed.

(** X4.  A hyperlink that is already in the document is left as it is,
    with everything below it, wherever it stands: no text inside a link is
    scanned, so no link is ever created inside a link. *)
Theorem existing_link_untouched (inLink : bool) (attrs : attributes) (cs : list node) :
  autoLink inLink (Elem "a" attrs cs) = [Elem "a" attrs cs].
Proof.
  cbn [autoLink]. change (String.eqb "a" "a") with true. rewrite orb_true_r.
  f_equal. f_equal. apply flat_map_fixed.
  apply Forall_forall. intros n _. apply autoLink_inside_link.
Qed.

(** ** The List Item Normalizer and the text of the document *)

Lemma innerText_map (f : node -> node) (l : list node) :
  (forall n, In n l -> innerText [f n] = innerText [n]) ->
  innerText (map f l) = innerText l.
Proof.
  induction l as [|a l IH]; intros H; [reflexivity|].
  cbn [map]. rewrite innerText_cons, (innerText_cons a l), (H a) by now left.
  f_equal. apply IH. intros n Hn. apply H. now right.
Qed.

Lemma unwrapParagraphs_text (n : node) :
  innerText (unwrapParagraphs n) = innerText [n].
Proof.
  induction n as [tag attrs cs IH | d | d | tattrs tcs] using node_induction;
    [|reflexivity|reflexivity|reflexivity].
  assert (H : innerText (flat_map unwrapParagraphs cs) = innerText cs).
  { apply innerText_flat_map. intros c Hc. rewrite Forall_forall in IH. now apply IH. }
  cbn [unwrapParagraphs]. destruct (String.eqb tag "p"); now rewrite !innerText_elem.
Qed.

Lemma no_bold_elem (tag : string) (attrs : attributes) (cs : list node) :
  no_bold (Elem tag attrs cs) = negb (isStrongOrB tag) && forallb no_bold cs.
Proof. reflexivity. Qed.

Lemma items_plain_elem (tag : string) (attrs : attributes) (cs : list node) :
  items_plain (Elem tag attrs cs)
  = (if String.eqb tag "li" then forallb no_bold cs else true)
    && forallb items_plain cs.
Proof. reflexivity. Qed.

Lemma unwrapParagraphs_no_bold (n : node) :
  no_bold n = true -> forallb no_bold (unwrapParagraphs n) = true.
Proof.
  induction n as [tag attrs cs IH | d | d | tattrs tcs] using node_induction; intros H;
    [|reflexivity|reflexivity|reflexivity].
  rewrite no_bold_elem in H. apply andb_true_iff in H. destruct H as [Htag Hcs].
  assert (H' : forallb no_bold (flat_map unwrapParagraphs cs) = true).
  { apply forallb_flat_map. intros c Hc. rewrite Forall_forall in IH.
    apply IH; [assumption|]. now apply (forallb_In no_bold cs). }
  cbn [unwrapParagraphs]. destruct (String.eqb tag "p"); [assumption|].
  cbn [forallb]. now rewrite no_bold_elem, Htag, H'.
Qed.

Lemma no_bold_items_plain (n : node) : no_bold n = true -> items_plain n = true.
Proof.
  induction n as [tag attrs cs IH | d | d | tattrs tcs] using node_induction; intros H;
    [|reflexivity|reflexivity|reflexivity].
  rewrite no_bold_elem in H. apply andb_true_iff in H. destruct H as [Htag Hcs].
  rewrite items_plain_elem. apply andb_true_iff. split.
  - now destruct (String.eqb tag "li").
  - apply forallb_forall. intros c Hc. rewrite Forall_forall in IH.
    apply IH; [assumption|]. now apply (forallb_In no_bold cs).
Qed.

Lemma no_bold_all_items_plain (l : list node) :
  forallb no_bold l = true -> forallb items_plain l = true.
Proof.
  intros H. apply forallb_forall. intros c Hc. apply no_bold_items_plain.
  now apply (forallb_In no_bold l).
Qed.

Lemma split_text (k : nat) (text : string) :
  JS.substring2 0 k text ++ JS.substringFrom k text = text.
Proof.
  unfold JS.substring2. rewrite Nat.sub_0_r, substringFrom_drop. apply take_drop.
Qed.

Lemma innerText_after (s : string) :
  innerText (if String.eqb s "" then [] else [Text s]) = s.
Proof. destruct (String.eqb_spec s ""); [now subst | reflexivity]. Qed.

(** When no child is a [strong] or [b], the loop ends with the text of the
    accumulated children followed by the text of the children not yet
    visited; [kept] holds comments only. *)
Lemma boldLoop_text (rest kept acc : list node) :
  forallb no_bold rest = true -> innerText kept = "" ->
  innerText (boldLoop kept acc rest) = innerText acc ++ innerText rest.
Proof.
  revert kept acc. induction rest as [|child rest IH]; intros kept acc Hr Hk.
  - cbn [boldLoop]. now rewrite innerText_app, Hk, innerText_nil, append_nil_r.
  - cbn [forallb] in Hr. apply andb_true_iff in Hr. destruct Hr as [Hc Hr].
    rewrite (innerText_cons child rest).
    destruct child as [tag attrs cs | text | d | tattrs tcs]; cbn [boldLoop].
    + rewrite no_bold_elem in Hc. apply andb_true_iff in Hc. destruct Hc as [Htag _].
      apply negb_true_iff in Htag. rewrite Htag.
      destruct (negb _).
      * rewrite innerText_cons, innerText_elem, !innerText_app, Hk. cbn [append].
        now rewrite append_assoc.
      * rewrite (IH kept _ Hr Hk), innerText_app. now rewrite append_assoc.
    + destruct (negb _).
      * cbv zeta. rewrite innerText_app, Hk, innerText_cons, innerText_elem.
        cbn [append]. rewrite !innerText_app, innerText_after, !innerText_text.
        rewrite !append_assoc. f_equal.
        rewrite <- append_assoc, split_text. reflexivity.
      * rewrite (IH kept _ Hr Hk), innerText_app. now rewrite append_assoc.
    + rewrite (IH _ acc Hr); [reflexivity|].
      now rewrite innerText_app, Hk.
    + destruct (negb _).
      * rewrite innerText_cons, innerText_elem, !innerText_app, Hk. cbn [append].
        now rewrite append_assoc.
      * rewrite (IH kept _ Hr Hk), innerText_app. now rewrite append_assoc.
Qed.

Lemma cleanListItem_text (cs : list node) :
  forallb no_bold cs = true -> innerText (cleanListItem cs) = innerText cs.
Proof.
  intros H.
  assert (H1 : innerText (flat_map unwrapParagraphs cs) = innerText cs).
  { apply innerText_flat_map. intros c _. apply unwrapParagraphs_text. }
  assert (H2 : forallb no_bold (flat_map unwrapParagraphs cs) = true).
  { apply forallb_flat_map. intros c Hc. apply unwrapParagraphs_no_bold.
    now apply (forallb_In no_bold cs). }
  unfold cleanListItem. cbv zeta.
  destruct (match flat_map unwrapParagraphs cs with
            | Elem tag _ _ :: _ => isStrongOrB tag
            | _ => false
            end); [assumption|].
  destruct ((0 <? _)%Z && (_ <? 80)%Z); [|assumption].
  unfold boldUpToColon. now rewrite boldLoop_text.
Qed.

Lemma items_plain_strong (cs : list node) :
  forallb items_plain cs = true -> items_plain (Elem "strong" [] cs) = true.
Proof. intros H. now rewrite items_plain_elem, H. Qed.

Lemma boldLoop_items_plain (rest kept acc : list node) :
  forallb items_plain kept = true -> forallb items_plain acc = true ->
  forallb items_plain rest = true ->
  forallb items_plain (boldLoop kept acc rest) = true.
Proof.
  revert kept acc. induction rest as [|child rest IH]; intros kept acc Hk Ha Hr.
  - cbn [boldLoop]. now rewrite forallb_app, Hk, Ha.
  - cbn [forallb] in Hr. apply andb_true_iff in Hr. destruct Hr as [Hc Hr].
    destruct child as [tag attrs cs | text | d | tattrs tcs]; cbn [boldLoop].
    + destruct (isStrongOrB tag).
      * rewrite forallb_app. cbn [forallb]. now rewrite Hk, Hc, Hr.
      * destruct (negb _).
        -- cbn [forallb]. rewrite items_plain_strong, forallb_app, Hk, Hr; [reflexivity|].
           rewrite forallb_app. cbn [forallb]. now rewrite Ha, Hc.
        -- apply IH; try assumption. rewrite forallb_app. cbn [forallb].
           now rewrite Ha, Hc.
    + destruct (negb _).
      * cbv zeta. rewrite forallb_app. cbn [forallb].
        rewrite Hk, items_plain_strong, forallb_app, Hr.
        -- now destruct (String.eqb _ "").
        -- rewrite forallb_app. cbn [forallb items_plain]. now rewrite Ha.
      * apply IH; try assumption. rewrite forallb_app. cbn [forallb items_plain].
        now rewrite Ha.
    + apply IH; try assumption. rewrite forallb_app. cbn [forallb items_plain].
      now rewrite Hk.
    + destruct (negb _).
      * cbn [forallb]. rewrite items_plain_strong, forallb_app, Hk, Hr; [reflexivity|].
        rewrite forallb_app. cbn [forallb]. now rewrite Ha, Hc.
      * apply IH; try assumption. rewrite forallb_app. cbn [forallb].
        now rewrite Ha, Hc.
Qed.

Lemma cleanListItem_items_plain (cs : list node) :
  forallb no_bold cs = true -> forallb items_plain (cleanListItem cs) = true.
Proof.
  intros H.
  assert (H2 : forallb items_plain (flat_map unwrapParagraphs cs) = true).
  { apply no_bold_all_items_plain. apply forallb_flat_map. intros c Hc.
    apply unwrapParagraphs_no_bold. now apply (forallb_In no_bold cs). }
  unfold cleanListItem. cbv zeta.
  destruct (match flat_map unwrapParagraphs cs with
            | Elem tag _ _ :: _ => isStrongOrB tag
            | _ => false
            end); [assumption|].
  destruct ((0 <? _)%Z && (_ <? 80)%Z); [|assumption].
  now apply boldLoop_items_plain.
Qed.

Lemma cleanListItems_fuel_text (fuel : nat) (n : node) :
  items_plain n = true -> innerText [cleanListItems_fuel fuel n] = innerText [n].
Proof.
  revert n. induction fuel as [|f IH]; intros n H; [reflexivity|].
  destruct n as [tag attrs cs | d | d | tattrs tcs]; [|reflexivity|reflexivity|reflexivity].
  rewrite items_plain_elem in H. apply andb_true_iff in H. destruct H as [Hli Hcs].
  cbn [cleanListItems_fuel]. rewrite !innerText_elem.
  assert (H1 : innerText (if String.eqb tag "li" then cleanListItem cs else cs)
               = innerText cs
               /\ forallb items_plain (if String.eqb tag "li" then cleanListItem cs else cs)
                  = true).
  { destruct (String.eqb tag "li"); [|now split].
    split; [now apply cleanListItem_text | now apply cleanListItem_items_plain]. }
  destruct H1 as [Htext Hplain]. rewrite <- Htext.
  apply innerText_map. intros c Hc. apply IH.
  now apply (forallb_In items_plain _ c Hplain).
Qed.

(** X5.  When no list item holds a [strong] or [b] element, the List Item
    Normalizer changes no text: unwrapping the paragraphs and wrapping the
    labels leaves the text content of the body as it was.  (With a
    [strong] or [b] inside an item the scan can lose text, see C3.) *)
Theorem list_items_keep_text (cs : list node) :
  forallb items_plain cs = true ->
  innerText (cleanListItems cs) = innerText cs.
Proof.
  intros H. unfold cleanListItems. apply innerText_map.
  intros n Hn. apply cleanListItems_fuel_text.
  now apply (forallb_In items_plain cs).
Qed.

Lemma list_items_keep_text_witness :
  forallb items_plain
          [Elem "ul" [] [Elem "li" [] [Elem "p" [] [Text "Age"; Elem "i" [] [Text ": 4"]]]]]
  = true
  /\ innerText (cleanListItems
                  [Elem "ul" [] [Elem "li" [] [Elem "p" [] [Text "Age"; Elem "i" [] [Text ": 4"]]]]])
     = innerText [Elem "ul" [] [Elem "li" [] [Elem "p" [] [Text "Age"; Elem "i" [] [Text ": 4"]]]]].
Proof.
  split; [reflexivity|].
  apply list_items_keep_text. reflexivity.
Defined.

(** ** No paragraph stays inside a list item *)

Lemma no_paragraph_elem (tag : string) (attrs : attributes) (cs : list node) :
  no_paragraph (Elem tag attrs cs)
  = negb (String.eqb tag "p") && forallb no_paragraph cs.
Proof. reflexivity. Qed.

Lemma items_unwrapped_elem (tag : string) (attrs : attributes) (cs : list node) :
  items_unwrapped (Elem tag attrs cs)
  = (if String.eqb tag "li" then forallb no_paragraph cs else true)
    && forallb items_unwrapped cs.
Proof. reflexivity. Qed.

Lemma unwrapParagraphs_no_paragraph (n : node) :
  forallb no_paragraph (unwrapParagraphs n) = true.
Proof.
  induction n as [tag attrs cs IH | d | d | tattrs tcs] using node_induction;
    [|reflexivity|reflexivity|reflexivity].
  assert (H : forallb no_paragraph (flat_map unwrapParagraphs cs) = true).
  { apply forallb_flat_map. intros c Hc. rewrite Forall_forall in IH. now apply IH. }
  cbn [unwrapParagraphs]. destruct (String.eqb tag "p") eqn:Hp; [assumption|].
  cbn [forallb]. now rewrite no_paragraph_elem, Hp, H.
Qed.

Lemma boldLoop_no_paragraph (rest kept acc : list node) :
  forallb no_paragraph kept = true -> forallb no_paragraph acc = true ->
  forallb no_paragraph rest = true ->
  forallb no_paragraph (boldLoop kept acc rest) = true.
Proof.
  revert kept acc. induction rest as [|child rest IH]; intros kept acc Hk Ha Hr.
  - cbn [boldLoop]. now rewrite forallb_app, Hk, Ha.
  - cbn [forallb] in Hr. apply andb_true_iff in Hr. destruct Hr as [Hc Hr].
    destruct child as [tag attrs cs | text | d | tattrs tcs]; cbn [boldLoop].
    + destruct (isStrongOrB tag).
      * rewrite forallb_app. cbn [forallb]. now rewrite Hk, Hc, Hr.
      * destruct (negb _).
        -- cbn [forallb]. rewrite no_paragraph_elem, forallb_app, forallb_app, Hk, Hr, Ha.
           cbn [forallb]. now rewrite Hc.
        -- apply IH; try assumption. rewrite forallb_app. cbn [forallb].
           now rewrite Ha, Hc.
    + destruct (negb _).
      * cbv zeta. rewrite forallb_app. cbn [forallb].
        rewrite Hk, no_paragraph_elem, forallb_app, forallb_app, Hr, Ha.
        cbn [forallb no_paragraph]. now destruct (String.eqb _ "").
      * apply IH; try assumption. rewrite forallb_app. cbn [forallb no_paragraph].
        now rewrite Ha.
    + apply IH; try assumption. rewrite forallb_app. cbn [forallb no_paragraph].
      now rewrite Hk.
    + destruct (negb _).
      * cbn [forallb]. rewrite no_paragraph_elem, forallb_app, forallb_app, Hk, Hr, Ha.
        cbn [forallb]. now rewrite Hc.
      * apply IH; try assumption. rewrite forallb_app. cbn [forallb].
        now rewrite Ha, Hc.
Qed.

Lemma cleanListItem_no_paragraph (cs : list node) :
  forallb no_paragraph (cleanListItem cs) = true.
Proof.
  assert (H : forallb no_paragraph (flat_map unwrapParagraphs cs) = true).
  { apply forallb_flat_map. intros c _. apply unwrapParagraphs_no_paragraph. }
  unfold cleanListItem. cbv zeta.
  destruct (match flat_map unwrapParagraphs cs with
            | Elem tag _ _ :: _ => isStrongOrB tag
            | _ => false
            end); [assumption|].
  destruct ((0 <? _)%Z && (_ <? 80)%Z); [|assumption].
  now apply boldLoop_no_paragraph.
Qed.

Lemma forallb_map (p : node -> bool) (f : node -> node) (l : list node) :
  (forall n, In n l -> p (f n) = true) -> forallb p (map f l) = true.
Proof.
  induction l as [|a l IH]; intros H; [reflexivity|].
  cbn [map forallb]. rewrite (H a) by now left.
  apply IH. intros n Hn. apply H. now right.
Qed.

Lemma cleanListItems_fuel_no_paragraph (fuel : nat) (n : node) :
  no_paragraph n = true -> no_paragraph (cleanListItems_fuel fuel n) = true.
Proof.
  revert n. induction fuel as [|f IH]; intros n H; [assumption|].
  destruct n as [tag attrs cs | d | d | tattrs tcs]; [|reflexivity|reflexivity|reflexivity].
  rewrite no_paragraph_elem in H. apply andb_true_iff in H. destruct H as [Htag Hcs].
  cbn [cleanListItems_fuel]. rewrite no_paragraph_elem, Htag.
  apply forallb_map. intros c Hc. apply IH.
  destruct (String.eqb tag "li").
  - now apply (forallb_In no_paragraph _ c (cleanListItem_no_paragraph cs)).
  - now apply (forallb_In no_paragraph cs).
Qed.

(** With a budget of at least the weight of the tree the descent reaches
    every list item. *)
Lemma cleanListItems_fuel_unwrapped (fuel : nat) (n : node) :
  weight n <= fuel -> items_unwrapped (cleanListItems_fuel fuel n) = true.
Proof.
  revert n. induction fuel as [|f IH]; intros n H.
  - pose proof (weight_positive n). lia.
  - destruct n as [tag attrs cs | d | d | tattrs tcs]; [|reflexivity|reflexivity|reflexivity].
    rewrite weight_elem in H. cbn [cleanListItems_fuel]. rewrite items_unwrapped_elem.
    assert (Hw : total_weight (if String.eqb tag "li" then cleanListItem cs else cs) <= f).
    { destruct (String.eqb tag "li").
      - pose proof (cleanListItem_weight cs). lia.
      - lia. }
    apply andb_true_iff. split.
    + destruct (String.eqb tag "li"); [|reflexivity].
      apply forallb_map. intros c Hc. apply cleanListItems_fuel_no_paragraph.
      now apply (forallb_In no_paragraph _ c (cleanListItem_no_paragraph cs)).
    + apply forallb_map. intros c Hc. apply IH. apply weight_in in Hc. lia.
Qed.

(** X6.  After the List Item Normalizer no list item holds a paragraph,
    at any depth below it: every [p] inside an [li] has been replaced by
    its children. *)
Theorem list_items_hold_no_paragraph (cs : list node) :
  forallb items_unwrapped (cleanListItems cs) = true.
Proof.
  unfold cleanListItems. apply forallb_map. intros n _.
  apply cleanListItems_fuel_unwrapped. apply Nat.le_refl.
Qed.

(** ** The bounds of the automatic label *)

Lemma indexOf_after (c : ascii) (label rest : string) :
  JS.forallb_string (fun a => negb (Ascii.eqb a c)) label = true ->
  JS.indexOf c (label ++ String c rest) = Z.of_nat (String.length label).
Proof.
  induction label as [|a label IH]; intros H.
  - simpl. now rewrite Ascii.eqb_refl.
  - cbn [JS.forallb_string] in H. apply andb_true_iff in H. destruct H as [Ha Hl].
    apply negb_true_iff in Ha.
    cbn [append JS.indexOf String.length]. rewrite Ha, (IH Hl).
    destruct (Z.of_nat (String.length label) <? 0)%Z eqn:Hneg;
      [apply Z.ltb_lt in Hneg; lia | lia].
Qed.

Lemma substring_prefix_app (w t : string) :
  String.substring 0 (String.length w) (w ++ t) = w.
Proof.
  induction w as [|c w IH]; simpl; [now destruct t | now rewrite IH].
Qed.

(** X7.  For an item that is one text node [label: rest], where [label]
    holds no colon: the label with its colon is wrapped in [strong] exactly
    when the label has between 1 and 79 characters; a colon at the very
    start or at position 80 or later leaves the item as it is.  The text
    after the colon stays behind as a text node unless it is empty. *)
Theorem label_bounds (label rest : string) :
  no_colon label = true ->
  cleanListItem [Text (label ++ String ":" rest)]
  = if (0 <? String.length label)%nat && (String.length label <? 80)%nat
    then Elem "strong" [] [Text (label ++ ":")]
           :: (if String.eqb rest "" then [] else [Text rest])
    else [Text (label ++ String ":" rest)].
Proof.
  intros Hl. unfold cleanListItem. cbn [flat_map unwrapParagraphs app].
  cbv zeta. cbv beta iota.
  change (Dom.textContent (Elem "li" [] [Text (label ++ String ":" rest)]))
    with (label ++ String ":" rest).
  pose proof (indexOf_after ":" label rest Hl) as Hidx. rewrite Hidx.
  replace (0 <? Z.of_nat (String.length label))%Z
    with (0 <? String.length label)%nat
    by (destruct (0 <? String.length label)%nat eqn:H1;
        [apply Nat.ltb_lt in H1; symmetry; apply Z.ltb_lt; lia
        |apply Nat.ltb_ge in H1; symmetry; apply Z.ltb_ge; lia]).
  replace (Z.of_nat (String.length label) <? 80)%Z
    with (String.length label <? 80)%nat
    by (destruct (String.length label <? 80)%nat eqn:H1;
        [apply Nat.ltb_lt in H1; symmetry; apply Z.ltb_lt; lia
        |apply Nat.ltb_ge in H1; symmetry; apply Z.ltb_ge; lia]).
  destruct ((0 <? String.length label)%nat && (String.length label <? 80)%nat);
    [|reflexivity].
  unfold boldUpToColon. cbn [boldLoop]. rewrite Hidx.
  replace (negb (Z.of_nat (String.length label) =? -1)%Z) with true
    by (symmetry; apply negb_true_iff, Z.eqb_neq; lia).
  cbv zeta. cbn [app].
  replace (Z.to_nat (Z.of_nat (String.length label) + 1))
    with (S (String.length label)) by lia.
  assert (Hbefore : JS.substring2 0 (S (String.length label)) (label ++ String ":" rest)
                    = label ++ ":").
  { unfold JS.substring2. rewrite Nat.sub_0_r.
    replace (label ++ String ":" rest) with ((label ++ ":") ++ rest)
      by (rewrite append_assoc; reflexivity).
    replace (S (String.length label)) with (String.length (label ++ ":"))
      by (rewrite length_app; simpl; lia).
    apply substring_prefix_app. }
  assert (Hafter : JS.substringFrom (S (String.length label)) (label ++ String ":" rest)
                   = rest).
  { rewrite substringFrom_drop.
    replace (label ++ String ":" rest) with ((label ++ ":") ++ rest)
      by (rewrite append_assoc; reflexivity).
    replace (S (String.length label)) with (String.length (label ++ ":"))
      by (rewrite length_app; simpl; lia).
    apply drop_app_length. }
  rewrite Hbefore, Hafter.
  destruct (String.eqb rest ""); reflexivity.
Qed.

Lemma label_bounds_witness :
  no_colon "Name" = true
  /\ cleanListItem [Text ("Name" ++ String ":" " Jane")]
     = [Elem "strong" [] [Text "Name:"]; Text " Jane"].
Proof.
  split; [reflexivity|].
  exact (label_bounds "Name" " Jane" eq_refl).
Defined.

(** ** The formatters change white space only *)

Lemma nonspace_app (s t : string) : nonspace (s ++ t) = nonspace s ++ nonspace t.
Proof.
  unfold nonspace. induction s as [|c s IH]; [reflexivity|].
  cbn [append JS.filter_string]. rewrite IH. now destruct (negb (JS.is_space c)).
Qed.

Lemma nonspace_blank (s : string) : blank_string s = true -> nonspace s = "".
Proof.
  unfold nonspace, blank_string. induction s as [|c s IH]; [reflexivity|].
  cbn [JS.forallb_string JS.filter_string]. intros H. apply andb_true_iff in H.
  destruct H as [Hc Hs]. rewrite Hc. now apply IH.
Qed.

Lemma nonspace_cons (c : ascii) (s : string) :
  JS.is_space c = false -> nonspace (String c s) = String c (nonspace s).
Proof. intros H. unfold nonspace. cbn [JS.filter_string]. now rewrite H. Qed.

Lemma takeWhile_dropWhile (p : ascii -> bool) (s : string) :
  JS.takeWhile p s ++ JS.dropWhile p s = s.
Proof.
  induction s as [|c s IH]; [reflexivity|].
  cbn [JS.takeWhile JS.dropWhile]. destruct (p c); [|reflexivity].
  cbn [append]. now rewrite IH.
Qed.

Lemma takeWhile_blank (s : string) :
  blank_string (JS.takeWhile JS.is_space s) = true.
Proof.
  unfold blank_string. induction s as [|c s IH]; [reflexivity|].
  cbn [JS.takeWhile]. destruct (JS.is_space c) eqn:Hc; [|reflexivity].
  cbn [JS.forallb_string]. now rewrite Hc.
Qed.

(** Passing over exactly the characters of [w]. *)
Lemma replaceAll_from_skip (r : JS.regex) (by_ w u : string) :
  JS.replaceAll_from r by_ (w ++ u) (String.length w) = JS.replaceAll_from r by_ u 0.
Proof. induction w as [|c w IH]; [reflexivity | exact IH]. Qed.

Lemma gap_rest_shape (c : ascii) (t r : string) :
  gap_rest (String c t) = Some r ->
  c = ">"%char
  /\ t = JS.takeWhile JS.is_space t ++ String "<" r
  /\ JS.takeWhile JS.is_space t <> "".
Proof.
  unfold gap_rest. destruct (JS.is_chr ">" c) eqn:Hc; [|discriminate].
  apply is_chr_eq in Hc. cbn [andb].
  destruct (1 <=? String.length (JS.takeWhile JS.is_space t))%nat eqn:Hlen;
    [|discriminate].
  pose proof (takeWhile_dropWhile JS.is_space t) as Hsplit.
  destruct (JS.dropWhile JS.is_space t) as [|c' r'] eqn:Hd; [discriminate|].
  destruct (JS.is_chr "<" c') eqn:Hc'; [|discriminate].
  apply is_chr_eq in Hc'. subst c'. intros H. inversion H; subst r'.
  repeat split; [assumption | now symmetry |].
  intros Hempty. rewrite Hempty in Hlen. discriminate.
Qed.

Lemma collapse_nonspace_bounded (n : nat) :
  forall s, String.length s <= n ->
            nonspace (JS.replaceAll_from BETWEEN_TAGS "><" s 0) = nonspace s.
Proof.
  induction n as [|n IH]; intros s Hlen.
  - destruct s; [reflexivity | simpl in Hlen; lia].
  - destruct s as [|c t]; [reflexivity|].
    cbn [JS.replaceAll_from]. rewrite exec_BETWEEN_TAGS.
    destruct (gap_rest (String c t)) as [r|] eqn:Hg.
    + cbn [JS.m_text]. rewrite length_substring_prefix by apply Nat.le_sub_l.
      destruct (gap_rest_shape _ _ _ Hg) as [Hc [Ht _]]. subst c.
      set (w := JS.takeWhile JS.is_space t) in *.
      assert (Hw : blank_string w = true) by apply takeWhile_blank.
      pose proof (f_equal String.length Ht) as HL.
      rewrite length_app in HL. cbn [String.length] in HL, Hlen.
      assert (Hr : String.length r <= n) by lia.
      replace (String.length (String ">" t) - String.length r)
        with (S (String.length (w ++ "<")))
        by (rewrite length_app; cbn [String.length]; lia).
      replace t with ((w ++ "<") ++ r) at 1
        by (rewrite append_assoc; now symmetry).
      rewrite replaceAll_from_skip.
      replace (String ">" t) with (">" ++ (w ++ String "<" r))
        by (cbn [append]; now rewrite <- Ht).
      rewrite !nonspace_app, (nonspace_blank w Hw), (IH r Hr).
      rewrite (nonspace_cons "<" r) by reflexivity. reflexivity.
    + destruct (JS.is_space c) eqn:Hc.
      * unfold nonspace at 1 2. cbn [JS.filter_string]. rewrite Hc. cbn [negb].
        apply IH. simpl in Hlen. lia.
      * rewrite !nonspace_cons by assumption. f_equal. apply IH. simpl in Hlen. lia.
Qed.

Lemma collapse_nonspace (s : string) :
  nonspace (JS.replaceAll BETWEEN_TAGS "><" s) = nonspace s.
Proof. apply (collapse_nonspace_bounded (String.length s)). apply Nat.le_refl. Qed.

Lemma strip_nonspace_bounded (n : nat) :
  forall s, String.length s <= n ->
            nonspace (JS.replaceAll_from NEWLINE_RUN "" s 0) = nonspace s.
Proof.
  induction n as [|n IH]; intros s Hlen.
  - destruct s; [reflexivity | simpl in Hlen; lia].
  - destruct s as [|c t]; [reflexivity|].
    cbn [JS.replaceAll_from]. rewrite exec_NEWLINE_RUN.
    destruct (JS.is_chr JS.lf c) eqn:Hc.
    + apply is_chr_eq in Hc. subst c.
      cbn [JS.m_text]. rewrite length_substring_prefix by apply Nat.le_sub_l.
      pose proof (takeWhile_dropWhile JS.is_space t) as Ht.
      pose proof (length_dropWhile JS.is_space t) as Hd.
      set (w := JS.takeWhile JS.is_space t) in *.
      set (d := JS.dropWhile JS.is_space t) in *.
      pose proof (f_equal String.length Ht) as HL. rewrite length_app in HL.
      replace (String.length (String JS.lf t) - String.length d)
        with (S (String.length w))
        by (cbn [String.length]; lia).
      cbn [append]. rewrite <- Ht at 1. rewrite replaceAll_from_skip.
      rewrite IH by (simpl in Hlen; lia).
      replace (String JS.lf t) with ((String JS.lf w) ++ d)
        by (cbn [append]; now rewrite Ht).
      rewrite nonspace_app.
      assert (Hb : blank_string (String JS.lf w) = true).
      { unfold blank_string. cbn [JS.forallb_string].
        change (JS.is_space JS.lf) with true. apply takeWhile_blank. }
      now rewrite (nonspace_blank _ Hb).
    + destruct (JS.is_space c) eqn:Hs.
      * unfold nonspace at 1 2. cbn [JS.filter_string]. rewrite Hs. cbn [negb].
        apply IH. simpl in Hlen. lia.
      * rewrite !nonspace_cons by assumption. f_equal. apply IH. simpl in Hlen. lia.
Qed.

Lemma strip_nonspace (s : string) :
  nonspace (JS.replaceAll NEWLINE_RUN "" s) = nonspace s.
Proof. apply (strip_nonspace_bounded (String.length s)). apply Nat.le_refl. Qed.

Lemma dropWhile_nonspace (s : string) :
  nonspace (JS.dropWhile JS.is_space s) = nonspace s.
Proof.
  induction s as [|c s IH]; [reflexivity|].
  cbn [JS.dropWhile]. destruct (JS.is_space c) eqn:Hc; [|reflexivity].
  rewrite IH. unfold nonspace. cbn [JS.filter_string]. now rewrite Hc.
Qed.

Lemma trimEnd_nonspace (s : string) : nonspace (JS.trimEnd s) = nonspace s.
Proof.
  induction s as [|c s IH]; [reflexivity|].
  destruct (trimEnd_cases c s) as [[H [Hc Hs]] | [H _]]; rewrite H.
  - unfold nonspace at 2. cbn [JS.filter_string]. rewrite Hc. cbn [negb].
    fold (nonspace s). now rewrite <- IH, Hs.
  - unfold nonspace. cbn [JS.filter_string]. fold (nonspace (JS.trimEnd s)).
    fold (nonspace s). now rewrite IH.
Qed.

Lemma trim_nonspace (s : string) : nonspace (JS.trim s) = nonspace s.
Proof.
  unfold JS.trim, JS.trimStart. now rewrite trimEnd_nonspace, dropWhile_nonspace.
Qed.

(** X8.  [minifyHTML] removes white space and nothing else: the characters
    of the result that are not white space are those of the input, in the
    same order. *)
Theorem minify_changes_white_space_only (x : string) :
  nonspace (minifyHTML x) = nonspace x.
Proof.
  unfold minifyHTML. now rewrite trim_nonspace, collapse_nonspace, strip_nonspace.
Qed.

Lemma tokenize_nonspace (fuel : nat) :
  forall s tokens,
    tokenize fuel s = Some tokens ->
    nonspace (String.concat "" tokens) = nonspace s.
Proof.
  induction fuel as [|f IH]; intros s tokens H; [discriminate|].
  destruct s as [|c r]; [now inversion H|].
  cbn [tokenize] in H. destruct (Ascii.eqb c "<").
  - destruct (JS.indexOf ">" (String c r) =? -1)%Z.
    + now inversion H.
    + destruct (tokenize f _) as [ts|] eqn:Hts; [|discriminate].
      inversion H; subst tokens. rewrite concat_empty_cons, nonspace_app.
      rewrite (IH _ _ Hts), <- nonspace_app. now rewrite split_text.
  - destruct (JS.indexOf "<" (String c r) =? -1)%Z.
    + now inversion H.
    + set (k := Z.to_nat (JS.indexOf "<" (String c r))) in *.
      destruct (tokenize f (JS.substringFrom k (String c r))) as [ts|] eqn:Hts;
        [|discriminate].
      unfold option_map in H. injection H as <-.
      assert (Hsplit : nonspace (String c r)
                       = nonspace (JS.substring2 0 k (String c r))
                         ++ nonspace (JS.substringFrom k (String c r)))
        by (rewrite <- nonspace_app; now rewrite split_text).
      rewrite Hsplit.
      destruct (String.eqb_spec (JS.trim (JS.substring2 0 k (String c r))) "") as [He|He].
      * apply trim_empty in He. rewrite (nonspace_blank _ He). cbn [append].
        now apply IH.
      * rewrite concat_empty_cons, nonspace_app. f_equal. now apply IH.
Qed.

Lemma repeat_nat_blank (n : nat) : blank_string (JS.repeat_nat "  " n) = true.
Proof. induction n as [|n IH]; [reflexivity | exact IH]. Qed.

Lemma rendered_nonspace (line : Z * string) :
  nonspace (rendered line) = nonspace (snd line).
Proof.
  unfold rendered. now rewrite nonspace_app, (nonspace_blank _ (repeat_nat_blank _)).
Qed.

Lemma join_newline_nonspace (lines : list (Z * string)) :
  nonspace (JS.join JS.newline (map rendered lines))
  = nonspace (String.concat "" (map snd lines)).
Proof.
  unfold JS.join. induction lines as [|l ls IH]; [reflexivity|].
  cbn [map]. rewrite concat_empty_cons, nonspace_app, <- IH, <- rendered_nonspace.
  destruct ls as [|l' ls]; [cbn [map String.concat]; now rewrite append_nil_r|].
  cbn [map String.concat]. rewrite !nonspace_app. reflexivity.
Qed.

(** X9.  [beautifyHTML] returns for every input, and it changes white
    space only: the characters of the result that are not white space are
    those of the input, in the same order.  Hence minifying the beautified
    string and minifying the string itself agree up to white space. *)
Theorem beautify_changes_white_space_only (x : string) :
  exists y, beautifyHTML x = Some y
            /\ nonspace y = nonspace x
            /\ nonspace (minifyHTML y) = nonspace (minifyHTML x).
Proof.
  destruct (tokenize_total (S (String.length (JS.replaceAll BETWEEN_TAGS "><" x)))
                           (JS.replaceAll BETWEEN_TAGS "><" x)) as [tokens Ht];
    [lia|].
  destruct (indentLines_levels tokens 0) as [Hlev Htok]; [lia|].
  exists (JS.join JS.newline (map rendered (indentLines tokens 0))).
  assert (Hy : nonspace (JS.join JS.newline (map rendered (indentLines tokens 0)))
               = nonspace x).
  { rewrite join_newline_nonspace, Htok, (tokenize_nonspace _ _ _ Ht).
    apply collapse_nonspace. }
  split; [|split; [exact Hy|]].
  - unfold beautifyHTML. cbv zeta. rewrite Ht. now rewrite (traverse_pushLine _ Hlev).
  - unfold minifyHTML.
    rewrite !trim_nonspace, !collapse_nonspace, !strip_nonspace. exact Hy.
Qed.

(** ** The shape of a minified string *)

Lemma NoMatch_suffix (r : JS.regex) (pre u : string) :
  NoMatch r (pre ++ u) -> NoMatch r u.
Proof.
  induction pre as [|c pre IH]; [trivial|]. intros [_ H]. now apply IH.
Qed.

Lemma takeWhile_blank_prefix (w : string) (c : ascii) (t : string) :
  blank_string w = true -> JS.is_space c = false ->
  JS.takeWhile JS.is_space (w ++ String c t) = w
  /\ JS.dropWhile JS.is_space (w ++ String c t) = String c t.
Proof.
  unfold blank_string. intros Hw Hc. induction w as [|a w IH].
  - cbn [append JS.takeWhile JS.dropWhile]. now rewrite Hc.
  - cbn [JS.forallb_string] in Hw. apply andb_true_iff in Hw. destruct Hw as [Ha Hw].
    cbn [append JS.takeWhile JS.dropWhile]. rewrite Ha.
    destruct (IH Hw) as [H1 H2]. now rewrite H1, H2.
Qed.

(** X10.  A minified string holds no line feed, has no run of white space
    between a [>] and the next [<], and neither starts nor ends with white
    space. *)
Theorem minified_shape (x : string) :
  no_newline (minifyHTML x) = true
  /\ (forall pre w post,
        minifyHTML x = pre ++ String ">" (w ++ String "<" post) ->
        blank_string w = true -> w = "")
  /\ JS.trim (minifyHTML x) = minifyHTML x.
Proof.
  split; [|split].
  - unfold minifyHTML, JS.replaceAll.
    apply no_newline_trim, collapse_no_newline, strip_newlines_no_newline.
  - intros pre w post Hx Hw.
    assert (Hgap : NoMatch BETWEEN_TAGS (minifyHTML x)).
    { unfold minifyHTML, JS.replaceAll. apply NoMatch_trim, collapse_NoMatch. }
    rewrite Hx in Hgap. apply NoMatch_suffix in Hgap. destruct Hgap as [Hexec _].
    apply gap_rest_exec in Hexec. unfold gap_rest in Hexec.
    destruct (takeWhile_blank_prefix w "<" post Hw eq_refl) as [H1 H2].
    rewrite H1, H2 in Hexec.
    destruct w as [|a w]; [reflexivity|]. discriminate.
  - unfold minifyHTML. apply trim_idempotent.
Qed.

Lemma minified_shape_witness :
  minifyHTML "<i> <b>" = "<i" ++ String ">" ("" ++ String "<" "b>")
  /\ blank_string "" = true
  /\ "" = "".
Proof.
  assert (H1 : minifyHTML "<i> <b>" = "<i" ++ String ">" ("" ++ String "<" "b>"))
    by (vm_compute; reflexivity).
  split; [exact H1 | split; [reflexivity|]].
  exact (proj1 (proj2 (minified_shape "<i> <b>")) "<i" "" "b>" H1 eq_refl).
Defined.

(** ** The target of a mail link *)

Lemma run_EMAIL_REGEX (s : string) (g : option string)
      (k : string -> option string -> option JS.mstate) :
  JS.run EMAIL_REGEX s g k
  = JS.rep email_local 1 None s
      (fun t => match t with
                | String c t' => if JS.is_chr "@" c then JS.run EMAIL_TAIL t' g k else None
                | EmptyString => None
                end).
Proof. reflexivity. Qed.

Lemma exec_combined_email (u : string) (m : JS.jsmatch) :
  JS.exec combined u = Some m -> truthy (JS.m_group1 m) = false ->
  email_text (JS.m_text m).
Proof.
  unfold JS.exec, combined. cbn [JS.run]. intros H Hg.
  destruct (JS.run PHONE_REGEX u None _) as [y|] eqn:Hp.
  - exfalso. destruct (run_phone_sound _ _ _ _ Hp) as [w [t [g' [Hs [[Hne _] Hk]]]]].
    inversion Hk; subst y. inversion H; subst m. cbn [JS.m_group1] in Hg.
    subst u. rewrite substring_app_prefix in Hg. cbn [truthy] in Hg.
    apply negb_false_iff, String.eqb_eq in Hg. contradiction.
  - rewrite run_EMAIL_REGEX in H.
    destruct (JS.rep email_local 1 None u _) as [[t g]|] eqn:He; [|discriminate].
    inversion H; subst m. cbn [JS.m_text]. clear H Hg.
    destruct (rep_sound _ email_local _ _ _ _ _ (fun c Hc => Hc) He)
      as [w1 [t1 [Hu [Hw1 [Hlen1 Hk1]]]]].
    destruct t1 as [|c t2]; [discriminate|].
    destruct (JS.is_chr "@" c) eqn:Hc; [|discriminate].
    apply is_chr_eq in Hc. subst c.
    assert (Hcls : classes_in email_domain EMAIL_TAIL = true) by (vm_compute; reflexivity).
    destruct (run_sound _ _ Hcls _ _ _ _ Hk1) as [w2 [t3 [g' [Ht2 [Hw2 [Hlen2 [Hk2 _]]]]]]].
    inversion Hk2; subst t g.
    exists w1, w2. subst u t2.
    replace (w1 ++ String "@" (w2 ++ t3)) with ((w1 ++ String "@" w2) ++ t3)
      by (rewrite append_assoc; reflexivity).
    rewrite substring_app_prefix.
    split; [reflexivity|]. split; [intros ->; simpl in Hlen1; lia|].
    split; [assumption|]. split; [assumption|].
    vm_compute in Hlen2. exact Hlen2.
Qed.

(** X11.  Every hyperlink the Auto-Linker creates that is not a telephone
    link has the target [mailto:] followed by the matched text exactly, and
    wraps that text; the text is a non-empty local part of letters, digits
    and [._%+-], an [@], and a domain part of at least four letters,
    digits, dots and dashes. *)
Theorem mailto_target (text : string) (attrs : attributes) (cs : list node)
        (href : string) :
  In (Elem "a" attrs cs) (linkText text) ->
  Dom.getAttribute "href" attrs = Some href ->
  JS.startsWith href "tel:" = false ->
  exists address,
    cs = [Text address] /\ href = "mailto:" ++ address /\ email_text address.
Proof.
  intros Hin Hhref Htel.
  destruct (linkText_In _ _ Hin) as [[d Hd] | [i [m [Hm Hn]]]]; [discriminate|].
  destruct (matchAll_from_exec _ _ _ _ _ _ Hm) as [u Hu].
  unfold anchorFor in Hn. cbv zeta in Hn. inversion Hn; subst attrs cs. clear Hn.
  simpl in Hhref. inversion Hhref; subst href. clear Hhref.
  destruct (truthy (JS.m_group1 m)) eqn:Hg; [discriminate|].
  pose proof (exec_combined_email u m Hu Hg) as Hmail.
  exists (JS.m_text m). split; [|split; [reflexivity | assumption]].
  unfold Dom.setTextContent.
  destruct (String.eqb_spec (JS.m_text m) "") as [He|He]; [|reflexivity].
  destruct Hmail as [l [d [Hw [Hl _]]]]. rewrite He in Hw. now destruct l.
Qed.

Lemma mailto_target_witness :
  exists address,
    [Text "a@b.com"] = [Text address]
    /\ "mailto:a@b.com" = "mailto:" ++ address
    /\ email_text address.
Proof.
  apply (mailto_target "write to a@b.com" [("href", "mailto:a@b.com")] [Text "a@b.com"]).
  - vm_compute. right. left. reflexivity.
  - reflexivity.
  - reflexivity.
Defined.

(** ** The Auto-Linker only wraps pieces of text *)

Lemma match_not_empty (u : string) (m : JS.jsmatch) :
  JS.exec combined u = Some m -> JS.m_text m <> "".
Proof.
  intros H. destruct (truthy (JS.m_group1 m)) eqn:Hg.
  - now destruct (exec_combined_phone u m H Hg).
  - destruct (exec_combined_email u m H Hg) as [loc [dom [Hw [Hne _]]]].
    rewrite Hw. destruct loc; [contradiction | discriminate].
Qed.

Lemma anchorFor_piece (u : string) (m : JS.jsmatch) :
  JS.exec combined u = Some m -> piece (anchorFor m).
Proof.
  intros H. apply match_not_empty in H. unfold anchorFor, Dom.setTextContent.
  cbv zeta. destruct (String.eqb_spec (JS.m_text m) ""); [contradiction|].
  cbn [piece]. now repeat split.
Qed.

Lemma linkText_pieces (text : string) : Forall piece (linkText text).
Proof.
  apply Forall_forall. intros n Hn. apply linkText_In in Hn.
  destruct Hn as [[d ->] | [i [m [Hm ->]]]]; [exact I|].
  apply matchAll_from_exec in Hm. destruct Hm as [u Hu].
  now apply (anchorFor_piece u).
Qed.

Lemma autoLink_linked (n : node) (inLink : bool) : linked n (autoLink inLink n).
Proof.
  revert inLink.
  induction n as [tag attrs cs IH | d | d | tattrs tcs] using node_induction;
    intros inLink.
  - cbn [autoLink]. rewrite flat_map_concat_map. apply linked_elem.
    induction IH as [|c cs Hc _ IHcs]; cbn [map]; constructor; [apply Hc | assumption].
  - cbn [autoLink]. destruct inLink.
    + apply linked_text; [now repeat constructor | reflexivity].
    + apply linked_text; [apply linkText_pieces | apply linkText_text].
  - apply linked_comment.
  - apply linked_template.
Qed.

(** X3.  The Auto-Linker changes no text and only wraps pieces of text
    nodes in links: the text content of the body after the pass is,
    character for character, the text content before; and the children of
    the body after the pass are those before it, each in its place, where
    every text node has become a run of pieces (text nodes, and [a]
    elements with one [href] attribute around one non-empty text node)
    whose texts make up its data, and nothing else has changed, at any
    depth. *)
Theorem autoLink_keeps_text (cs : list node) :
  innerText (autoLinkEmailsAndPhones cs) = innerText cs
  /\ exists ls, Forall2 linked cs ls /\ autoLinkEmailsAndPhones cs = List.concat ls.
Proof.
  unfold autoLinkEmailsAndPhones. split.
  - apply innerText_flat_map. intros n _. apply autoLink_text.
  - exists (map (autoLink false) cs). split; [|apply flat_map_concat_map].
    induction cs as [|c cs IH]; cbn [map]; constructor;
      [apply autoLink_linked | assumption].
Qed.

(** ** What the sanitizer leaves of paragraphs *)

Lemma processNode_unmarked (n : node) :
  Forall unmarked (flat_map elements (processNode n)).
Proof.
  induction n as [tag attrs cs IH | d | d | tattrs tcs] using node_induction;
    [|constructor|constructor|repeat constructor].
  pose proof (Forall_flat_map_elements unmarked processNode cs IH) as Hcs.
  simpl processNode.
  destruct (checkForHeadingMarker tag (flat_map processNode cs)) as [h|] eqn:Hh.
  - unfold checkForHeadingMarker in Hh.
    destruct (negb (String.eqb (Dom.tagName tag) "P")); [discriminate|].
    cbv zeta in Hh.
    destruct (headingMarker _) as [[level prefix]|] eqn:Hm; [|discriminate].
    inversion Hh; subst h. clear Hh. apply headingMarker_level in Hm.
    cbn [flat_map elements]. rewrite app_nil_r.
    constructor.
    + simpl in Hm. destruct Hm as [<- | [<- | [<- | [<- | []]]]]; reflexivity.
    + unfold Dom.setTextContent. destruct (String.eqb _ ""); constructor.
  - destruct (String.eqb (Dom.tagName tag) "SPAN").
    + now rewrite convertSpan_stripped.
    + cbn [flat_map elements]. rewrite app_nil_r. constructor; assumption.
Qed.

(** X12.  After the Tree Sanitizer no paragraph is left whose trimmed text
    starts with [H1:], [H2:], [H3:] or [H4:]: every such paragraph, at any
    depth, has become a heading. *)
Theorem no_marked_paragraph_left (cs : list node) (tag : string)
        (attrs : attributes) (children : list node) :
  In (Elem tag attrs children) (flat_map elements (processBody cs)) ->
  Dom.tagName tag = "P" ->
  headingMarker (JS.trim (Dom.textContent (Elem tag attrs children))) = None.
Proof.
  intros Hin Hp.
  assert (H : Forall unmarked (flat_map elements (processBody cs))).
  { unfold processBody. apply Forall_flat_map_elements.
    apply Forall_forall. intros n _. apply processNode_unmarked. }
  rewrite Forall_forall in H. specialize (H _ Hin). cbn [unmarked] in H.
  unfold checkForHeadingMarker in H. rewrite Hp in H. cbn [String.eqb negb] in H.
  change (negb (String.eqb "P" "P")) with false in H. cbv iota zeta in H.
  change (Dom.textContent (Elem tag attrs children))
    with (Dom.textContent (Elem tag [] children)).
  destruct (headingMarker _) as [[level prefix]|]; [discriminate | reflexivity].
Qed.

Lemma no_marked_paragraph_left_witness :
  In (Elem "p" [] [Text "h1: x"])
     (flat_map elements
        (processBody [Elem "div" [] [Elem "p" [] [Text "H1: a"]; Elem "p" [] [Text "h1: x"]]]))
  /\ headingMarker (JS.trim (Dom.textContent (Elem "p" [] [Text "h1: x"]))) = None.
Proof.
  assert (H : In (Elem "p" [] [Text "h1: x"])
                 (flat_map elements
                    (processBody [Elem "div" []
                                    [Elem "p" [] [Text "H1: a"]; Elem "p" [] [Text "h1: x"]]])))
    by (vm_compute; right; right; left; reflexivity).
  split; [exact H|].
  exact (no_marked_paragraph_left _ "p" [] [Text "h1: x"] H eq_refl).
Defined.

(** ** The sanitizer and the text of the document *)

Lemma checkForHeadingMarker_text (tag : string) (cs1 cs2 : list node) :
  innerText cs1 = innerText cs2 ->
  checkForHeadingMarker tag cs1 = checkForHeadingMarker tag cs2.
Proof.
  intros H. unfold checkForHeadingMarker.
  change (Dom.textContent (Elem tag [] cs1)) with (innerText cs1).
  change (Dom.textContent (Elem tag [] cs2)) with (innerText cs2).
  now rewrite H.
Qed.

Lemma processNode_text (n : node) :
  Forall unmarked (elements n) -> innerText (processNode n) = innerText [n].
Proof.
  induction n as [tag attrs cs IH | d | d | tattrs tcs] using node_induction; intros H;
    try reflexivity.
  cbn [elements] in H. inversion H as [|? ? Hn Hcs]; subst. cbn [unmarked] in Hn.
  assert (Htext : innerText (flat_map processNode cs) = innerText cs).
  { apply innerText_flat_map. intros c Hc. rewrite Forall_forall in IH.
    apply IH; [assumption|]. apply Forall_forall. intros e He.
    rewrite Forall_forall in Hcs. apply Hcs. apply in_flat_map. now exists c. }
  simpl processNode.
  rewrite (checkForHeadingMarker_text tag _ cs Htext), Hn.
  destruct (String.eqb (Dom.tagName tag) "SPAN").
  - now rewrite convertSpan_stripped, innerText_elem.
  - now rewrite !innerText_elem.
Qed.

(** X13.  The Tree Sanitizer changes text only where it converts a
    heading marker: when no paragraph of the body has a trimmed text that
    starts with [H1:]..[H4:], the text content of the body after the pass
    is the text content before (removing comments and attributes and
    unwrapping spans moves no character). *)
Theorem sanitizer_keeps_text (cs : list node) :
  Forall unmarked (flat_map elements cs) ->
  innerText (processBody cs) = innerText cs.
Proof.
  intros H. unfold processBody. apply innerText_flat_map.
  intros n Hn. apply processNode_text. apply Forall_forall. intros e He.
  rewrite Forall_forall in H. apply H. apply in_flat_map. now exists n.
Qed.

Lemma sanitizer_keeps_text_witness :
  Forall unmarked
         (flat_map elements
            [Elem "p" [("class", "x")]
               [Text "Hi "; Comment "c"; Elem "span" [("style", "font-weight:bold")] [Text "all"]]])
  /\ innerText (processBody
                  [Elem "p" [("class", "x")]
                     [Text "Hi "; Comment "c";
                      Elem "span" [("style", "font-weight:bold")] [Text "all"]]])
     = innerText [Elem "p" [("class", "x")]
                    [Text "Hi "; Comment "c";
                     Elem "span" [("style", "font-weight:bold")] [Text "all"]]].
Proof.
  assert (H : Forall unmarked
                (flat_map elements
                   [Elem "p" [("class", "x")]
                      [Text "Hi "; Comment "c";
                       Elem "span" [("style", "font-weight:bold")] [Text "all"]]])).
  { cbn [flat_map elements app]. repeat constructor. }
  split; [exact H | exact (sanitizer_keeps_text _ H)].
Defined.

(** ** The pruner and the visible text *)

Lemma count_char_app (c : ascii) (s t : string) :
  count_char c (s ++ t) = count_char c s + count_char c t.
Proof.
  induction s as [|a s IH]; [reflexivity|].
  cbn [append count_char]. rewrite IH. lia.
Qed.

Lemma count_char_cons (c a : ascii) (s : string) :
  count_char c (String a s) = (if Ascii.eqb a c then 1 else 0) + count_char c s.
Proof. reflexivity. Qed.

Lemma count_char_nonspace (c : ascii) (s : string) :
  JS.is_space c = false -> count_char c (nonspace s) = count_char c s.
Proof.
  intros Hc. unfold nonspace. induction s as [|a s IH]; [reflexivity|].
  cbn [JS.filter_string count_char]. destruct (JS.is_space a) eqn:Ha; cbn [negb].
  - rewrite IH. destruct (Ascii.eqb_spec a c); [congruence | reflexivity].
  - cbn [count_char]. now rewrite IH.
Qed.

Lemma last_char_app (s t : string) :
  t <> "" -> last_char (s ++ t) = last_char t.
Proof.
  intros Ht. induction s as [|a s IH]; [reflexivity|].
  cbn [append last_char]. rewrite IH.
  destruct t as [|b t]; [contradiction|]. cbn [last_char].
  now destruct (last_char t).
Qed.

Lemma last_char_count (c : ascii) (s : string) :
  last_char s = Some c -> 1 <= count_char c s.
Proof.
  induction s as [|a s IH]; [discriminate|].
  cbn [last_char count_char]. destruct (last_char s) as [b|].
  - intros H. specialize (IH H). lia.
  - intros H. inversion H; subst. rewrite Ascii.eqb_refl. lia.
Qed.

Lemma nonspace_empty_blank (s : string) : nonspace s = "" -> blank_string s = true.
Proof.
  unfold nonspace, blank_string. induction s as [|a s IH]; [reflexivity|].
  cbn [JS.filter_string JS.forallb_string].
  destruct (JS.is_space a); cbn [negb andb]; [exact IH | discriminate].
Qed.

Lemma escape_cons (c : ascii) (r : string) :
  Dom.escape false (String c r)
  = (if Ascii.eqb c "&" then "&amp;"
     else if Nat.eqb (JS.code c) 160 then "&nbsp;"
     else if Ascii.eqb c "<" then "&lt;"
     else if Ascii.eqb c ">" then "&gt;"
     else String c EmptyString) ++ Dom.escape false r.
Proof. reflexivity. Qed.

Lemma escape_blank (d : string) :
  blank_string (Dom.escape false d) = true -> blank_string d = true.
Proof.
  induction d as [|c r IH]; [reflexivity|].
  rewrite escape_cons, blank_string_app. intros H.
  apply andb_true_iff in H. destruct H as [Hc Hr].
  unfold blank_string. cbn [JS.forallb_string]. fold (blank_string r).
  rewrite (IH Hr), andb_true_r.
  destruct (Ascii.eqb c "&"); [discriminate|].
  destruct (Nat.eqb (JS.code c) 160); [discriminate|].
  destruct (Ascii.eqb c "<"); [discriminate|].
  destruct (Ascii.eqb c ">"); [discriminate|].
  unfold blank_string in Hc. cbn [JS.forallb_string] in Hc.
  now rewrite andb_true_r in Hc.
Qed.

Lemma escape_no_angle (d : string) :
  count_char "<" (Dom.escape false d) = 0 /\ count_char ">" (Dom.escape false d) = 0.
Proof.
  induction d as [|c r [IH1 IH2]]; [now split|].
  rewrite escape_cons, !count_char_app, IH1, IH2.
  destruct (Ascii.eqb c "&"); [now split|].
  destruct (Nat.eqb (JS.code c) 160); [now split|].
  destruct (Ascii.eqb c "<") eqn:Hlt; [now split|].
  destruct (Ascii.eqb c ">") eqn:Hgt; [now split|].
  cbn [count_char]. now rewrite Hlt, Hgt.
Qed.

Lemma blank_node_text (raw : bool) (n : node) :
  blank_node raw n = true -> nonspace (innerText [n]) = "".
Proof.
  destruct n as [tag attrs cs | d | d | tattrs tcs]; unfold blank_node; cbn [Dom.outerHTML].
  - discriminate.
  - intros H. rewrite innerText_text. apply nonspace_blank.
    destruct raw; [assumption | now apply escape_blank].
  - reflexivity.
  - reflexivity.
Qed.

Lemma blank_children_text (raw : bool) (cs : list node) :
  forallb (blank_node raw) cs = true -> nonspace (innerText cs) = "".
Proof.
  induction cs as [|c cs IH]; [reflexivity|].
  cbn [forallb]. intros H. apply andb_true_iff in H. destruct H as [Hc Hcs].
  rewrite innerText_cons, nonspace_app, (blank_node_text raw c Hc). now apply IH.
Qed.

Lemma blank_innerHTML_text (tag : string) (cs : list node) :
  JS.trim (Dom.innerHTML tag cs) = "" -> nonspace (innerText cs) = "".
Proof.
  intros H. apply trim_empty in H. rewrite innerHTML_blank in H.
  exact (blank_children_text _ cs H).
Qed.

Lemma outerHTML_elem (raw : bool) (tag : string) (attrs : attributes) (cs : list node) :
  Dom.outerHTML raw (Elem tag attrs cs)
  = String "<" (tag ++ String.concat "" (map Dom.serializeAttr attrs) ++ ">" ++
                (if includes Dom.serializes_as_void tag then ""
                 else Dom.innerHTML tag cs ++ "</" ++ tag ++ ">")).
Proof. reflexivity. Qed.

Lemma outerHTML_template (raw : bool) (attrs : attributes) (contents : list node) :
  Dom.outerHTML raw (Template attrs contents)
  = String "<" ("template" ++ String.concat "" (map Dom.serializeAttr attrs) ++ ">" ++
                Dom.templateHTML contents ++ "</template>").
Proof. reflexivity. Qed.

(** The markup of an element or a comment opens with [<], holds a [>], and
    holds a second [<] unless it is an element without an end tag. *)
Lemma outerHTML_angles (raw : bool) (n : node) :
  match n with
  | Text _ => True
  | Template _ _ =>
      (exists r, Dom.outerHTML raw n = String "<" r)
      /\ 1 <= count_char ">" (Dom.outerHTML raw n)
      /\ 2 <= count_char "<" (Dom.outerHTML raw n)
  | Comment _ =>
      (exists r, Dom.outerHTML raw n = String "<" r)
      /\ 1 <= count_char ">" (Dom.outerHTML raw n)
  | Elem tag _ _ =>
      (exists r, Dom.outerHTML raw n = String "<" r)
      /\ 1 <= count_char ">" (Dom.outerHTML raw n)
      /\ (includes Dom.serializes_as_void tag = false ->
          2 <= count_char "<" (Dom.outerHTML raw n))
  end.
Proof.
  destruct n as [tag attrs cs | d | d | tattrs tcs]; [|exact I| |].
  - rewrite outerHTML_elem. split; [now eexists|]. split.
    + rewrite count_char_cons, !count_char_app.
      change (count_char ">" ">") with 1. lia.
    + intros Hv. rewrite Hv. rewrite count_char_cons, !count_char_app.
      change (count_char "<" "</") with 1.
      change (if Ascii.eqb "<" "<" then 1 else 0) with 1. lia.
  - cbn [Dom.outerHTML]. split; [now eexists|].
    rewrite !count_char_app. change (count_char ">" "-->") with 1. lia.
  - rewrite outerHTML_template. split; [now eexists|]. split.
    + rewrite count_char_cons, !count_char_app.
      change (count_char ">" ">") with 1. lia.
    + rewrite count_char_cons, !count_char_app.
      change (count_char "<" "</template>") with 1.
      change (if Ascii.eqb "<" "<" then 1 else 0) with 1. lia.
Qed.

Lemma nonspace_head (s r : string) :
  s = String "<" r -> nonspace s = String "<" (nonspace r).
Proof. intros ->. now apply nonspace_cons. Qed.

Lemma blank_markup_text (cs : list node) :
  nonspace (String.concat "" (map (Dom.outerHTML false) cs)) = "" ->
  nonspace (innerText cs) = "".
Proof.
  intros H. apply nonspace_empty_blank in H. rewrite blank_string_concat in H.
  apply (blank_children_text false).
  clear - H. induction cs as [|c cs IH]; [reflexivity|].
  cbn [map forallb] in *. apply andb_true_iff in H. destruct H as [Hc Hcs].
  apply andb_true_iff. split; [exact Hc | now apply IH].
Qed.

(** When the markup of the children is, white space apart, one tag, the
    children are white space around one element without end tag. *)
Lemma one_tag_children (cs : list node) :
  one_tag (nonspace (String.concat "" (map (Dom.outerHTML false) cs))) ->
  Forall childless_void cs ->
  nonspace (innerText cs) = "".
Proof.
  induction cs as [|c cs IH]; intros Htag Hvoid.
  - reflexivity.
  - inversion Hvoid as [|? ? Hc Hcs]; subst.
    cbn [map] in Htag. rewrite concat_empty_cons, nonspace_app in Htag.
    rewrite innerText_cons, nonspace_app.
    set (R := nonspace (String.concat "" (map (Dom.outerHTML false) cs))) in *.
    destruct Htag as [[r Hhead] [Hlt [Hgt Hlast]]].
    rewrite count_char_app in Hlt, Hgt.
    destruct c as [tag attrs gcs | d | d | tattrs tcs].
    + destruct (outerHTML_angles false (Elem tag attrs gcs)) as [_ [Hg Hl]].
      rewrite <- (count_char_nonspace ">") in Hg by reflexivity.
      assert (HR : R = "").
      { destruct R as [|a R'] eqn:HRe; [reflexivity|]. exfalso.
        rewrite last_char_app in Hlast by discriminate.
        apply last_char_count in Hlast. lia. }
      assert (Hrest : nonspace (innerText cs) = "").
      { apply blank_markup_text. exact HR. }
      rewrite Hrest, append_nil_r, innerText_elem.
      destruct (includes Dom.serializes_as_void tag) eqn:Hv.
      * now rewrite (Hc Hv).
      * specialize (Hl eq_refl).
        rewrite <- (count_char_nonspace "<") in Hl by reflexivity. lia.
    + destruct (escape_no_angle d) as [E1 E2].
      cbn [Dom.outerHTML] in *.
      destruct (nonspace (Dom.escape false d)) as [|a x] eqn:Hx.
      * rewrite innerText_text.
        rewrite (nonspace_blank d) by (apply escape_blank, nonspace_empty_blank, Hx).
        cbn [append]. apply IH; [|assumption].
        cbn [append] in Hhead, Hlast. cbn [count_char] in Hlt, Hgt.
        repeat split; [now exists r | lia | lia | assumption].
      * exfalso. cbn [append] in Hhead. inversion Hhead; subst a.
        rewrite <- (count_char_nonspace "<") in E1 by reflexivity.
        rewrite Hx, count_char_cons, Ascii.eqb_refl in E1. discriminate.
    + rewrite innerText_comment. cbn [append].
      destruct (outerHTML_angles false (Comment d)) as [_ Hg].
      rewrite <- (count_char_nonspace ">") in Hg by reflexivity.
      assert (HR : R = "").
      { destruct R as [|a R'] eqn:HRe; [reflexivity|]. exfalso.
        rewrite last_char_app in Hlast by discriminate.
        apply last_char_count in Hlast. lia. }
      apply blank_markup_text. exact HR.
    + exfalso. destruct (outerHTML_angles false (Template tattrs tcs)) as [_ [_ Hl]].
      rewrite <- (count_char_nonspace "<") in Hl by reflexivity. lia.
Qed.

Lemma in_all_ascii (c : ascii) : In c all_ascii.
Proof.
  unfold all_ascii. rewrite <- (ascii_nat_embedding c). apply in_map.
  apply in_seq. pose proof (nat_ascii_bounded c). lia.
Qed.

Lemma lower_char_inv (x c : ascii) :
  JS.lower_char c = x ->
  In c (filter (fun a => Ascii.eqb (JS.lower_char a) x) all_ascii).
Proof.
  intros H. apply filter_In. split; [apply in_all_ascii|]. now apply Ascii.eqb_eq.
Qed.

Lemma lower_br_cases (t : string) :
  JS.toLowerCase t = "<br/>" -> In t ["<br/>"; "<bR/>"; "<Br/>"; "<BR/>"].
Proof.
  unfold JS.toLowerCase.
  destruct t as [|c0 [|c1 [|c2 [|c3 [|c4 [|c5 t]]]]]]; try discriminate.
  cbn [JS.map_string]. intros H. inversion H as [[H0 H1 H2 H3 H4]]. clear H.
  apply lower_char_inv in H0, H1, H2, H3, H4.
  vm_compute in H0, H1, H2, H3, H4.
  destruct H0 as [<- | []]. destruct H3 as [<- | []]. destruct H4 as [<- | []].
  destruct H1 as [<- | [<- | []]]; destruct H2 as [<- | [<- | []]]; simpl; tauto.
Qed.

Lemma lower_br_one_tag (t : string) :
  JS.toLowerCase t = "<br/>" -> one_tag (nonspace t).
Proof.
  intros H. apply lower_br_cases in H. simpl in H.
  destruct H as [<- | [<- | [<- | [<- | []]]]];
    (split; [now eexists | repeat split]).
Qed.

Lemma tagName_P_not_raw (tag : string) :
  String.eqb (Dom.tagName tag) "P" = true ->
  includes Dom.raw_text_parents tag = false.
Proof.
  intros HP. destruct (includes Dom.raw_text_parents tag) eqn:Hraw; [|reflexivity].
  apply includes_In in Hraw. simpl in Hraw.
  repeat (destruct Hraw as [<- | Hraw]; [discriminate|]). contradiction.
Qed.

Lemma removeEmptyElements_childless (n : node) :
  childless_void n -> Forall childless_void (removeEmptyElements n).
Proof.
  destruct n as [tag attrs cs | d | d | tattrs tcs]; intros H;
    [|now repeat constructor|now repeat constructor|].
  - rewrite removeEmptyElements_elem. cbv zeta.
    repeat match goal with
           | |- Forall _ (if ?b then _ else _) => destruct b
           end; try constructor; [|constructor].
    cbn [childless_void] in *. intros Hv. now rewrite (H Hv).
  - rewrite removeEmptyElements_template. destruct (_ && _); now repeat constructor.
Qed.

Lemma removeEmptyElements_text (n : node) :
  Forall childless_void (elements n) ->
  nonspace (innerText (removeEmptyElements n)) = nonspace (innerText [n]).
Proof.
  induction n as [tag attrs cs IH | d | d | tattrs tcs] using node_induction; intros H;
    try reflexivity;
    [|rewrite removeEmptyElements_template; now destruct (_ && _)].
  cbn [elements] in H. inversion H as [|? ? Hn Hcs]; subst.
  assert (Hchild : forall c, In c cs -> Forall childless_void (elements c)).
  { intros c Hc. apply Forall_forall. intros e He. rewrite Forall_forall in Hcs.
    apply Hcs. apply in_flat_map. now exists c. }
  assert (Htext : nonspace (innerText (flat_map removeEmptyElements cs))
                  = nonspace (innerText cs)).
  { clear H Hn Hcs. induction cs as [|c cs IHcs]; [reflexivity|].
    inversion IH as [|? ? Hc Hrest]; subst.
    cbn [flat_map]. rewrite innerText_app, (innerText_cons c cs), !nonspace_app.
    rewrite Hc by (apply Hchild; now left).
    f_equal. apply IHcs; [assumption|]. intros c' Hc'. apply Hchild. now right. }
  assert (Hdirect : Forall childless_void (flat_map removeEmptyElements cs)).
  { apply Forall_flat_map. apply Forall_forall. intros c Hc.
    apply removeEmptyElements_childless.
    specialize (Hchild c Hc). destruct c; [|exact I ..].
    cbn [elements] in Hchild. now inversion Hchild. }
  rewrite removeEmptyElements_elem. cbv zeta.
  set (cs' := flat_map removeEmptyElements cs) in *.
  rewrite innerText_elem, <- Htext.
  destruct (String.eqb (Dom.tagName tag) "P") eqn:HP; cbn [andb].
  - destruct (String.eqb_spec (JS.trim (Dom.innerHTML tag cs')) "") as [He|He];
      cbn [orb].
    { symmetry. now apply (blank_innerHTML_text tag). }
    assert (Hraw := tagName_P_not_raw tag HP).
    assert (Hns : nonspace (JS.trim (Dom.innerHTML tag cs'))
                  = nonspace (String.concat "" (map (Dom.outerHTML false) cs'))).
    { rewrite trim_nonspace. unfold Dom.innerHTML. now rewrite Hraw. }
    destruct (String.eqb_spec (JS.trim (Dom.innerHTML tag cs')) "<br>") as [Hb|Hb];
      cbn [orb].
    { symmetry. apply one_tag_children; [|assumption].
      rewrite <- Hns, Hb. split; [now eexists | repeat split]. }
    destruct (String.eqb_spec (JS.toLowerCase (JS.trim (Dom.innerHTML tag cs'))) "<br/>")
      as [Hl|Hl].
    { symmetry. apply one_tag_children; [|assumption].
      rewrite <- Hns. now apply lower_br_one_tag. }
    destruct (negb (includes selfClosing (Dom.tagName tag)) && false
              && negb (hasUsefulAttributes attrs)) eqn:Hx.
    + rewrite andb_false_r in Hx. discriminate.
    + now rewrite innerText_elem.
  - destruct (String.eqb_spec (JS.trim (Dom.innerHTML tag cs')) "") as [He|He].
    + destruct (negb (includes selfClosing (Dom.tagName tag)) && true
                && negb (hasUsefulAttributes attrs)).
      * symmetry. now apply (blank_innerHTML_text tag).
      * now rewrite innerText_elem.
    + rewrite andb_false_r. cbn [andb]. now rewrite innerText_elem.
Qed.

Lemma removeEmptyBody_text (cs : list node) :
  childless cs ->
  nonspace (innerText (removeEmptyBody cs)) = nonspace (innerText cs).
Proof.
  unfold childless, removeEmptyBody. intros H.
  induction cs as [|c cs IH]; [reflexivity|].
  cbn [flat_map] in *. apply Forall_app in H. destruct H as [Hc Hcs].
  rewrite innerText_app, (innerText_cons c cs), !nonspace_app.
  rewrite (removeEmptyElements_text c Hc). f_equal. now apply IH.
Qed.

(** X14.  The Empty Element Pruner loses no visible text: in a tree whose
    elements without end tag have no children (as in every parsed
    document), the characters of the body's text that are not white space
    are the same, in the same order, before and after the pass. *)
Theorem pruner_keeps_visible_text (cs : list node) :
  Forall childless_void (flat_map elements cs) ->
  nonspace (innerText (removeEmptyBody cs)) = nonspace (innerText cs).
Proof.
  intros H. unfold removeEmptyBody.
  induction cs as [|c cs IH]; [reflexivity|].
  cbn [flat_map] in *. apply Forall_app in H. destruct H as [Hc Hcs].
  rewrite innerText_app, (innerText_cons c cs), !nonspace_app.
  rewrite (removeEmptyElements_text c Hc). f_equal. now apply IH.
Qed.

Lemma pruner_keeps_visible_text_witness :
  Forall childless_void
         (flat_map elements
            [Elem "div" [] [Elem "p" [] [Text " "; Elem "br" [] []]; Text "a"; Elem "i" [] []]])
  /\ nonspace (innerText
                 (removeEmptyBody
                    [Elem "div" []
                       [Elem "p" [] [Text " "; Elem "br" [] []]; Text "a"; Elem "i" [] []]]))
     = nonspace (innerText
                   [Elem "div" []
                      [Elem "p" [] [Text " "; Elem "br" [] []]; Text "a"; Elem "i" [] []]]).
Proof.
  assert (H : Forall childless_void
                (flat_map elements
                   [Elem "div" []
                      [Elem "p" [] [Text " "; Elem "br" [] []]; Text "a"; Elem "i" [] []]])).
  { cbn [flat_map elements app]. repeat constructor; vm_compute; discriminate. }
  split; [exact H | exact (pruner_keeps_visible_text _ H)].
Defined.

(** ** The whole cleaning and the visible text *)

Lemma childless_app (l1 l2 : list node) :
  childless (l1 ++ l2) <-> childless l1 /\ childless l2.
Proof. unfold childless. rewrite flat_map_app. apply Forall_app. Qed.

Lemma childless_cons (n : node) (l : list node) :
  childless (n :: l) <-> childless [n] /\ childless l.
Proof. apply (childless_app [n] l). Qed.

Lemma childless_elem (tag : string) (attrs : attributes) (cs : list node) :
  childless [Elem tag attrs cs]
  <-> childless_void (Elem tag attrs cs) /\ childless cs.
Proof.
  unfold childless. cbn [flat_map elements]. rewrite app_nil_r. split.
  - intros H. inversion H; subst. now split.
  - intros [H1 H2]. now constructor.
Qed.

Lemma childless_nil : childless [].
Proof. constructor. Qed.

Lemma childless_text (d : string) : childless [Text d].
Proof. constructor. Qed.

Lemma childless_comment (d : string) : childless [Comment d].
Proof. constructor. Qed.

Lemma childless_template (attrs : attributes) (contents : list node) :
  childless [Template attrs contents].
Proof. now repeat constructor. Qed.

Lemma childless_strong (cs : list node) :
  childless cs -> childless [Elem "strong" [] cs].
Proof. intros H. apply childless_elem. split; [discriminate | assumption]. Qed.

Lemma childless_flat_map (f : node -> list node) (l : list node) :
  (forall n, In n l -> childless [n] -> childless (f n)) ->
  childless l -> childless (flat_map f l).
Proof.
  induction l as [|a l IH]; intros Hf H; [constructor|].
  apply childless_cons in H. destruct H as [Ha Hl].
  cbn [flat_map]. apply childless_app. split.
  - apply Hf; [now left | assumption].
  - apply IH; [|assumption]. intros n Hn. apply Hf. now right.
Qed.

Lemma childless_map (f : node -> node) (l : list node) :
  (forall n, In n l -> childless [n] -> childless [f n]) ->
  childless l -> childless (map f l).
Proof.
  induction l as [|a l IH]; intros Hf H; [constructor|].
  apply childless_cons in H. destruct H as [Ha Hl].
  cbn [map]. apply childless_cons. split.
  - apply Hf; [now left | assumption].
  - apply IH; [|assumption]. intros n Hn. apply Hf. now right.
Qed.

Lemma processNode_childless (n : node) :
  childless [n] -> childless (processNode n).
Proof.
  induction n as [tag attrs cs IH | d | d | tattrs tcs] using node_induction; intros H;
    [|assumption|constructor|apply childless_template].
  apply childless_elem in H. destruct H as [Hn Hcs].
  assert (Hcs' : childless (flat_map processNode cs)).
  { apply childless_flat_map; [|assumption]. intros c Hc.
    rewrite Forall_forall in IH. now apply IH. }
  simpl processNode.
  destruct (checkForHeadingMarker tag (flat_map processNode cs)) as [h|] eqn:Hh.
  - unfold checkForHeadingMarker in Hh.
    destruct (negb (String.eqb (Dom.tagName tag) "P")); [discriminate|].
    cbv zeta in Hh.
    destruct (headingMarker _) as [[level prefix]|] eqn:Hm; [|discriminate].
    inversion Hh; subst h. clear Hh. apply headingMarker_level in Hm.
    apply childless_elem. split.
    + simpl in Hm. destruct Hm as [<- | [<- | [<- | [<- | []]]]]; discriminate.
    + unfold Dom.setTextContent. destruct (String.eqb _ ""); constructor.
  - destruct (String.eqb (Dom.tagName tag) "SPAN").
    + now rewrite convertSpan_stripped.
    + apply childless_elem. split; [|assumption].
      cbn [childless_void] in *. intros Hv. now rewrite (Hn Hv).
Qed.

Lemma processNode_no_bold (n : node) :
  no_bold n = true -> forallb no_bold (processNode n) = true.
Proof.
  induction n as [tag attrs cs IH | d | d | tattrs tcs] using node_induction; intros H;
    try reflexivity.
  rewrite no_bold_elem in H. apply andb_true_iff in H. destruct H as [Htag Hcs].
  assert (Hcs' : forallb no_bold (flat_map processNode cs) = true).
  { apply forallb_flat_map. intros c Hc. rewrite Forall_forall in IH.
    apply IH; [assumption|]. now apply (forallb_In no_bold cs). }
  simpl processNode.
  destruct (checkForHeadingMarker tag (flat_map processNode cs)) as [h|] eqn:Hh.
  - unfold checkForHeadingMarker in Hh.
    destruct (negb (String.eqb (Dom.tagName tag) "P")); [discriminate|].
    cbv zeta in Hh.
    destruct (headingMarker _) as [[level prefix]|] eqn:Hm; [|discriminate].
    inversion Hh; subst h. clear Hh. apply headingMarker_level in Hm.
    unfold Dom.setTextContent. simpl in Hm.
    destruct Hm as [<- | [<- | [<- | [<- | []]]]]; now destruct (String.eqb _ "").
  - destruct (String.eqb (Dom.tagName tag) "SPAN").
    + now rewrite convertSpan_stripped.
    + cbn [forallb]. now rewrite no_bold_elem, Htag, Hcs'.
Qed.

Lemma processNode_items_plain (n : node) :
  items_plain n = true -> forallb items_plain (processNode n) = true.
Proof.
  induction n as [tag attrs cs IH | d | d | tattrs tcs] using node_induction; intros H;
    try reflexivity.
  rewrite items_plain_elem in H. apply andb_true_iff in H. destruct H as [Hli Hcs].
  assert (Hcs' : forallb items_plain (flat_map processNode cs) = true).
  { apply forallb_flat_map. intros c Hc. rewrite Forall_forall in IH.
    apply IH; [assumption|]. now apply (forallb_In items_plain cs). }
  simpl processNode.
  destruct (checkForHeadingMarker tag (flat_map processNode cs)) as [h|] eqn:Hh.
  - unfold checkForHeadingMarker in Hh.
    destruct (negb (String.eqb (Dom.tagName tag) "P")); [discriminate|].
    cbv zeta in Hh.
    destruct (headingMarker _) as [[level prefix]|] eqn:Hm; [|discriminate].
    inversion Hh; subst h. clear Hh. apply headingMarker_level in Hm.
    unfold Dom.setTextContent. simpl in Hm.
    destruct Hm as [<- | [<- | [<- | [<- | []]]]]; now destruct (String.eqb _ "").
  - destruct (String.eqb (Dom.tagName tag) "SPAN").
    + now rewrite convertSpan_stripped.
    + cbn [forallb]. rewrite items_plain_elem, Hcs', !andb_true_r.
      destruct (String.eqb tag "li"); [|reflexivity].
      apply forallb_flat_map. intros c Hc. apply processNode_no_bold.
      now apply (forallb_In no_bold cs).
Qed.

Lemma unwrapParagraphs_childless (n : node) :
  childless [n] -> childless (unwrapParagraphs n).
Proof.
  induction n as [tag attrs cs IH | d | d | tattrs tcs] using node_induction; intros H;
    [|assumption|assumption|assumption].
  apply childless_elem in H. destruct H as [Hn Hcs].
  assert (Hcs' : childless (flat_map unwrapParagraphs cs)).
  { apply childless_flat_map; [|assumption]. intros c Hc.
    rewrite Forall_forall in IH. now apply IH. }
  cbn [unwrapParagraphs]. destruct (String.eqb tag "p"); [assumption|].
  apply childless_elem. split; [|assumption].
  cbn [childless_void] in *. intros Hv. now rewrite (Hn Hv).
Qed.

Lemma boldLoop_childless (rest kept acc : list node) :
  childless kept -> childless acc -> childless rest ->
  childless (boldLoop kept acc rest).
Proof.
  revert kept acc. induction rest as [|child rest IH]; intros kept acc Hk Ha Hr.
  - cbn [boldLoop]. apply childless_app. now split.
  - apply childless_cons in Hr. destruct Hr as [Hc Hr].
    assert (Hacc : childless (acc ++ [child])) by (apply childless_app; now split).
    destruct child as [tag attrs cs | text | d | tattrs tcs]; cbn [boldLoop].
    + destruct (isStrongOrB tag).
      * apply childless_app. split; [assumption|]. apply childless_cons. now split.
      * destruct (negb _).
        -- apply childless_cons. split; [now apply childless_strong|].
           apply childless_app. now split.
        -- now apply IH.
    + destruct (negb _).
      * cbv zeta. apply childless_app. split; [assumption|].
        apply childless_cons. split.
        -- apply childless_strong, childless_app. split; [assumption|].
           apply childless_text.
        -- apply childless_app. split; [|assumption].
           destruct (String.eqb _ ""); [apply childless_nil | apply childless_text].
      * now apply IH.
    + apply IH; try assumption. apply childless_app. now split.
    + destruct (negb _).
      * apply childless_cons. split; [now apply childless_strong|].
        apply childless_app. now split.
      * now apply IH.
Qed.

Lemma cleanListItem_childless (cs : list node) :
  childless cs -> childless (cleanListItem cs).
Proof.
  intros H.
  assert (H1 : childless (flat_map unwrapParagraphs cs)).
  { apply childless_flat_map; [|assumption]. intros c _.
    apply unwrapParagraphs_childless. }
  unfold cleanListItem. cbv zeta.
  destruct (match flat_map unwrapParagraphs cs with
            | Elem tag _ _ :: _ => isStrongOrB tag
            | _ => false
            end); [assumption|].
  destruct ((0 <? _)%Z && (_ <? 80)%Z); [|assumption].
  apply boldLoop_childless; [apply childless_nil | apply childless_nil | assumption].
Qed.

Lemma cleanListItems_fuel_childless (fuel : nat) (n : node) :
  childless [n] -> childless [cleanListItems_fuel fuel n].
Proof.
  revert n. induction fuel as [|f IH]; intros n H; [assumption|].
  destruct n as [tag attrs cs | d | d | tattrs tcs]; [|assumption|assumption|assumption].
  apply childless_elem in H. destruct H as [Hn Hcs].
  cbn [cleanListItems_fuel]. apply childless_elem. split.
  - cbn [childless_void] in *. intros Hv. rewrite (Hn Hv).
    destruct (String.eqb_spec tag "li") as [-> | _]; [discriminate | reflexivity].
  - apply childless_map; [intros c _; apply IH|].
    destruct (String.eqb tag "li"); [now apply cleanListItem_childless | assumption].
Qed.

(** X15.  Cleaning loses no visible text when nothing asks for it: for a
    body without heading marker paragraphs, without [strong] or [b]
    inside list items, and whose elements without end tag have no
    children, the characters of the text that are not white space are the
    same, in the same order, before and after the four passes. *)
Theorem cleaning_keeps_visible_text (cs : list node) :
  Forall unmarked (flat_map elements cs) ->
  forallb items_plain cs = true ->
  Forall childless_void (flat_map elements cs) ->
  nonspace (innerText (cleanBody cs)) = nonspace (innerText cs).
Proof.
  intros Hm Hp Hc. unfold cleanBody.
  assert (H1 : innerText (processBody cs) = innerText cs).
  { unfold processBody. apply innerText_flat_map.
    intros n Hn. apply processNode_text. apply Forall_forall. intros e He.
    rewrite Forall_forall in Hm. apply Hm. apply in_flat_map. now exists n. }
  assert (P1 : forallb items_plain (processBody cs) = true).
  { unfold processBody. apply forallb_flat_map. intros n Hn.
    apply processNode_items_plain. now apply (forallb_In items_plain cs). }
  assert (C1 : childless (processBody cs)).
  { unfold processBody. apply childless_flat_map; [|assumption].
    intros n _. apply processNode_childless. }
  assert (H2 : innerText (cleanListItems (processBody cs)) = innerText (processBody cs)).
  { unfold cleanListItems. apply innerText_map.
    intros n Hn. apply cleanListItems_fuel_text.
    now apply (forallb_In items_plain (processBody cs)). }
  assert (C2 : childless (cleanListItems (processBody cs))).
  { unfold cleanListItems. apply childless_map; [|assumption].
    intros n _. apply cleanListItems_fuel_childless. }
  unfold autoLinkEmailsAndPhones.
  rewrite innerText_flat_map by (intros n _; apply autoLink_text).
  rewrite (removeEmptyBody_text _ C2). now rewrite H2, H1.
Qed.

Lemma cleaning_keeps_visible_text_witness :
  Forall unmarked (flat_map elements sample_page)
  /\ forallb items_plain sample_page = true
  /\ Forall childless_void (flat_map elements sample_page)
  /\ nonspace (innerText (cleanBody sample_page)) = nonspace (innerText sample_page).
Proof.
  assert (H1 : Forall unmarked (flat_map elements sample_page)).
  { cbn [sample_page flat_map elements app]. repeat constructor. }
  assert (H2 : forallb items_plain sample_page = true) by reflexivity.
  assert (H3 : Forall childless_void (flat_map elements sample_page)).
  { cbn [sample_page flat_map elements app]. repeat constructor; vm_compute; discriminate. }
  split; [exact H1|]. split; [exact H2|]. split; [exact H3|].
  exact (cleaning_keeps_visible_text sample_page H1 H2 H3).
Defined.

(* ================================================================== *)
(** * Properties of the cleaner of the page *)
(* ================================================================== *)

Lemma Page_headingMarker_level (text level prefix : string) :
  Page.headingMarker text = Some (level, prefix) ->
  In level ["h1"; "h2"; "h3"].
Proof.
  unfold Page.headingMarker. intros H.
  repeat match type of H with
         | (if ?b then _ else _) = _ => destruct b
         end;
    inversion H; subst; simpl; tauto.
Qed.

Lemma Page_headingMarker_none (text : string) :
  headingMarker text = None -> Page.headingMarker text = None.
Proof.
  unfold headingMarker, Page.headingMarker.
  repeat match goal with
         | |- context [if ?b then _ else _] => destruct b
         end; intros H; try discriminate H; reflexivity.
Qed.

Lemma Page_checkForHeadingMarker_none (tag : string) (cs : list node) :
  checkForHeadingMarker tag cs = None -> Page.checkForHeadingMarker tag cs = None.
Proof.
  unfold checkForHeadingMarker, Page.checkForHeadingMarker.
  destruct (negb (String.eqb (Dom.tagName tag) "P")); [reflexivity|]. cbv zeta.
  destruct (headingMarker _) as [[level prefix]|] eqn:Hm; [discriminate|].
  intros _. now rewrite (Page_headingMarker_none _ Hm).
Qed.

Lemma Page_checkForHeadingMarker_text (tag : string) (cs1 cs2 : list node) :
  innerText cs1 = innerText cs2 ->
  Page.checkForHeadingMarker tag cs1 = Page.checkForHeadingMarker tag cs2.
Proof.
  intros H. unfold Page.checkForHeadingMarker.
  change (Dom.textContent (Elem tag [] cs1)) with (innerText cs1).
  change (Dom.textContent (Elem tag [] cs2)) with (innerText cs2).
  now rewrite H.
Qed.

Lemma elements_of_child (P : node -> Prop) (cs : list node) (c : node) :
  Forall P (flat_map elements cs) -> In c cs -> Forall P (elements c).
Proof.
  intros H Hc. apply Forall_forall. intros e He. rewrite Forall_forall in H.
  apply H. apply in_flat_map. now exists c.
Qed.

(** ** The page's cleaner and the library's *)

Lemma Page_processNode_agrees (n : node) :
  comment_free n = true -> Forall unmarked (elements n) ->
  Page.processNode n = processNode n.
Proof.
  induction n as [tag attrs cs IH | d | d | tattrs tcs] using node_induction; intros Hf Hm;
    [|reflexivity|discriminate|reflexivity].
  cbn [comment_free] in Hf. cbn [elements] in Hm.
  inversion Hm as [|? ? Hn Hcs]; subst. cbn [unmarked] in Hn.
  assert (Hcs' : flat_map Page.processNode cs = flat_map processNode cs).
  { clear Hn Hm. induction cs as [|c cs IHcs]; [reflexivity|].
    inversion IH as [|? ? Hc Hrest]; subst.
    cbn [forallb] in Hf. apply andb_true_iff in Hf. destruct Hf as [Hfc Hfcs].
    cbn [flat_map] in *. apply Forall_app in Hcs. destruct Hcs as [Hmc Hmcs].
    now rewrite (Hc Hfc Hmc), (IHcs Hrest Hfcs Hmcs). }
  assert (Htext : innerText (flat_map processNode cs) = innerText cs).
  { apply innerText_flat_map. intros c Hc. apply processNode_text.
    now apply (elements_of_child unmarked cs). }
  simpl. rewrite Hcs'.
  rewrite (checkForHeadingMarker_text tag _ cs Htext), Hn.
  rewrite (Page_checkForHeadingMarker_text tag _ cs Htext).
  rewrite (Page_checkForHeadingMarker_none tag cs Hn).
  now rewrite convertSpan_stripped.
Qed.

(** X16.  On a body without comments and without heading marker
    paragraphs, the cleaner that the page runs computes exactly the Tree
    Sanitizer followed by the Empty Element Pruner of the library: the two
    copies of the code differ only in the comments, in the [H4:] marker and
    in the passes the page leaves out. *)
Theorem page_cleaner_agrees (cs : list node) :
  forallb comment_free cs = true ->
  Forall unmarked (flat_map elements cs) ->
  Page.cleanBody cs = removeEmptyBody (processBody cs).
Proof.
  intros Hf Hm. unfold Page.cleanBody. f_equal.
  unfold Page.processBody, processBody.
  induction cs as [|c cs IH]; [reflexivity|].
  cbn [forallb] in Hf. apply andb_true_iff in Hf. destruct Hf as [Hfc Hfcs].
  cbn [flat_map] in *. apply Forall_app in Hm. destruct Hm as [Hmc Hmcs].
  now rewrite (Page_processNode_agrees c Hfc Hmc), (IH Hfcs Hmcs).
Qed.

Lemma page_cleaner_agrees_witness :
  forallb comment_free sample_body = true
  /\ Forall unmarked (flat_map elements sample_body)
  /\ Page.cleanBody sample_body = removeEmptyBody (processBody sample_body).
Proof.
  assert (H1 : forallb comment_free sample_body = true) by reflexivity.
  assert (H2 : Forall unmarked (flat_map elements sample_body)).
  { cbn [sample_body flat_map elements app]. repeat constructor. }
  split; [exact H1|]. split; [exact H2|].
  exact (page_cleaner_agrees sample_body H1 H2).
Defined.

(** ** The page's cleaner keeps the comments *)

Lemma Page_processNode_text (n : node) :
  Forall page_unmarked (elements n) -> innerText (Page.processNode n) = innerText [n].
Proof.
  induction n as [tag attrs cs IH | d | d | tattrs tcs] using node_induction; intros H;
    try reflexivity.
  cbn [elements] in H. inversion H as [|? ? Hn Hcs]; subst. cbn [page_unmarked] in Hn.
  assert (Htext : innerText (flat_map Page.processNode cs) = innerText cs).
  { apply innerText_flat_map. intros c Hc. rewrite Forall_forall in IH.
    apply IH; [assumption|]. now apply (elements_of_child page_unmarked cs). }
  simpl Page.processNode.
  rewrite (Page_checkForHeadingMarker_text tag _ cs Htext), Hn.
  destruct (String.eqb (Dom.tagName tag) "SPAN"); now rewrite ?innerText_elem.
Qed.

Lemma Page_processNode_childless (n : node) :
  childless [n] -> childless (Page.processNode n).
Proof.
  induction n as [tag attrs cs IH | d | d | tattrs tcs] using node_induction; intros H;
    [|assumption|assumption|apply childless_template].
  apply childless_elem in H. destruct H as [Hn Hcs].
  assert (Hcs' : childless (flat_map Page.processNode cs)).
  { apply childless_flat_map; [|assumption]. intros c Hc.
    rewrite Forall_forall in IH. now apply IH. }
  simpl Page.processNode.
  destruct (Page.checkForHeadingMarker tag (flat_map Page.processNode cs))
    as [h|] eqn:Hh.
  - unfold Page.checkForHeadingMarker in Hh.
    destruct (negb (String.eqb (Dom.tagName tag) "P")); [discriminate|].
    cbv zeta in Hh.
    destruct (Page.headingMarker _) as [[level prefix]|] eqn:Hm; [|discriminate].
    inversion Hh; subst h. clear Hh. apply Page_headingMarker_level in Hm.
    apply childless_elem. split.
    + simpl in Hm. destruct Hm as [<- | [<- | [<- | []]]]; discriminate.
    + unfold Dom.setTextContent. destruct (String.eqb _ ""); constructor.
  - destruct (String.eqb (Dom.tagName tag) "SPAN"); [assumption|].
    apply childless_elem. split; [|assumption].
    cbn [childless_void] in *. intros Hv. now rewrite (Hn Hv).
Qed.

Lemma in_nodes_flat_map (x : node) (f : node -> list node) (l : list node) :
  (forall c, In c l -> In x (nodes_of c) -> In x (flat_map nodes_of (f c))) ->
  In x (flat_map nodes_of l) -> In x (flat_map nodes_of (flat_map f l)).
Proof.
  intros Hf H. apply in_flat_map in H. destruct H as [c [Hc Hx]].
  specialize (Hf c Hc Hx). apply in_flat_map in Hf. destruct Hf as [c' [Hc' Hx']].
  apply in_flat_map. exists c'. split; [|assumption].
  apply in_flat_map. now exists c.
Qed.

Lemma in_nodes_elem (x : node) (tag : string) (attrs : attributes) (cs : list node) :
  In x (flat_map nodes_of cs) -> In x (flat_map nodes_of [Elem tag attrs cs]).
Proof.
  intros H. cbn [flat_map nodes_of]. rewrite app_nil_r. now right.
Qed.

Lemma comment_in_elem (d tag : string) (attrs : attributes) (cs : list node) :
  In (Comment d) (nodes_of (Elem tag attrs cs)) ->
  In (Comment d) (flat_map nodes_of cs).
Proof. cbn [nodes_of]. intros [H | H]; [discriminate | assumption]. Qed.

Lemma Page_processNode_comments (d : string) (n : node) :
  Forall page_unmarked (elements n) ->
  In (Comment d) (nodes_of n) ->
  In (Comment d) (flat_map nodes_of (Page.processNode n)).
Proof.
  induction n as [tag attrs cs IH | t | t | tattrs tcs] using node_induction; intros Hm Hin.
  - apply comment_in_elem in Hin.
    cbn [elements] in Hm. inversion Hm as [|? ? Hn Hcs]; subst.
    cbn [page_unmarked] in Hn.
    assert (Htext : innerText (flat_map Page.processNode cs) = innerText cs).
    { apply innerText_flat_map. intros c Hc. apply Page_processNode_text.
      now apply (elements_of_child page_unmarked cs). }
    assert (Hin' : In (Comment d) (flat_map nodes_of (flat_map Page.processNode cs))).
    { apply in_nodes_flat_map; [|assumption]. intros c Hc Hx.
      rewrite Forall_forall in IH. apply IH; [assumption| |assumption].
      now apply (elements_of_child page_unmarked cs). }
    simpl Page.processNode.
    rewrite (Page_checkForHeadingMarker_text tag _ cs Htext), Hn.
    destruct (String.eqb (Dom.tagName tag) "SPAN"); [assumption|].
    now apply in_nodes_elem.
  - cbn [Page.processNode flat_map]. now rewrite app_nil_r.
  - cbn [Page.processNode flat_map]. now rewrite app_nil_r.
  - destruct Hin as [Hin | []]. discriminate.
Qed.

Lemma blank_node_is_text (raw : bool) (n : node) :
  blank_node raw n = true -> exists t, n = Text t.
Proof.
  destruct n as [tag attrs cs | t | t | tattrs tcs]; unfold blank_node; cbn [Dom.outerHTML].
  - discriminate.
  - now exists t.
  - discriminate.
  - discriminate.
Qed.

Lemma blank_children_no_comment (raw : bool) (cs : list node) (d : string) :
  forallb (blank_node raw) cs = true -> ~ In (Comment d) (flat_map nodes_of cs).
Proof.
  intros H Hin. apply in_flat_map in Hin. destruct Hin as [c [Hc Hin]].
  rewrite forallb_forall in H. specialize (H c Hc).
  apply blank_node_is_text in H. destruct H as [t ->].
  cbn [nodes_of] in Hin. destruct Hin as [Hin | []]. discriminate.
Qed.

Lemma blank_markup_no_comment (cs : list node) (d : string) :
  nonspace (String.concat "" (map (Dom.outerHTML false) cs)) = "" ->
  ~ In (Comment d) (flat_map nodes_of cs).
Proof.
  intros H. apply nonspace_empty_blank in H. rewrite blank_string_concat in H.
  apply (blank_children_no_comment false).
  clear - H. induction cs as [|c cs IH]; [reflexivity|].
  cbn [map forallb] in *. apply andb_true_iff in H. destruct H as [Hc Hcs].
  apply andb_true_iff. split; [exact Hc | now apply IH].
Qed.

(** When the markup of the children is, white space apart, one tag that
    does not open with [<!], no comment is among them or below them. *)
Lemma one_tag_no_comment (cs : list node) (d : string) :
  one_tag (nonspace (String.concat "" (map (Dom.outerHTML false) cs))) ->
  (forall r, nonspace (String.concat "" (map (Dom.outerHTML false) cs))
             <> String "<" (String "!" r)) ->
  Forall childless_void cs ->
  ~ In (Comment d) (flat_map nodes_of cs).
Proof.
  induction cs as [|c cs IH]; intros Htag Hbang Hvoid.
  - intros [].
  - inversion Hvoid as [|? ? Hc Hcs]; subst.
    cbn [map] in Htag, Hbang. rewrite concat_empty_cons, nonspace_app in Htag, Hbang.
    set (R := nonspace (String.concat "" (map (Dom.outerHTML false) cs))) in *.
    destruct Htag as [[r Hhead] [Hlt [Hgt Hlast]]].
    rewrite count_char_app in Hlt, Hgt.
    cbn [flat_map]. intros Hin. apply in_app_or in Hin.
    destruct c as [tag attrs gcs | t | t | tattrs tcs].
    + destruct (outerHTML_angles false (Elem tag attrs gcs)) as [_ [Hg Hl]].
      rewrite <- (count_char_nonspace ">") in Hg by reflexivity.
      assert (HR : R = "").
      { destruct R as [|a R'] eqn:HRe; [reflexivity|]. exfalso.
        rewrite last_char_app in Hlast by discriminate.
        apply last_char_count in Hlast. lia. }
      destruct Hin as [Hin | Hin]; [|now apply (blank_markup_no_comment cs d HR)].
      destruct (includes Dom.serializes_as_void tag) eqn:Hv.
      * rewrite (Hc Hv) in Hin. cbn [nodes_of flat_map] in Hin.
        destruct Hin as [Hin | []]. discriminate.
      * specialize (Hl eq_refl).
        rewrite <- (count_char_nonspace "<") in Hl by reflexivity. lia.
    + destruct Hin as [[Hin | []] | Hin]; [discriminate|].
      destruct (escape_no_angle t) as [E1 E2].
      cbn [Dom.outerHTML] in *.
      destruct (nonspace (Dom.escape false t)) as [|a x] eqn:Hx.
      * cbn [append] in Hhead, Hlast, Hbang. cbn [count_char] in Hlt, Hgt.
        apply IH; try assumption.
        repeat split; [now exists r | lia | lia | assumption].
      * cbn [append] in Hhead. inversion Hhead; subst a.
        rewrite <- (count_char_nonspace "<") in E1 by reflexivity.
        rewrite Hx, count_char_cons, Ascii.eqb_refl in E1. discriminate.
    + apply (Hbang (nonspace ("--" ++ t ++ "-->") ++ R)).
      cbn [Dom.outerHTML append]. now rewrite !nonspace_cons by reflexivity.
    + destruct (outerHTML_angles false (Template tattrs tcs)) as [_ [_ Hl]].
      rewrite <- (count_char_nonspace "<") in Hl by reflexivity. lia.
Qed.

Lemma removeEmptyElements_comments (d : string) (n : node) :
  childless [n] ->
  In (Comment d) (nodes_of n) ->
  In (Comment d) (flat_map nodes_of (removeEmptyElements n)).
Proof.
  induction n as [tag attrs cs IH | t | t | tattrs tcs] using node_induction; intros Hv Hin;
    [|now (cbn [removeEmptyElements flat_map]; rewrite app_nil_r)
     |now (cbn [removeEmptyElements flat_map]; rewrite app_nil_r)
     |destruct Hin as [Hin | []]; discriminate].
  apply comment_in_elem in Hin.
  apply childless_elem in Hv. destruct Hv as [Hn Hcs].
  assert (Hchild : forall c, In c cs -> childless [c]).
  { intros c Hc. unfold childless. cbn [flat_map]. rewrite app_nil_r.
    now apply (elements_of_child childless_void cs). }
  assert (Hin' : In (Comment d) (flat_map nodes_of (flat_map removeEmptyElements cs))).
  { apply in_nodes_flat_map; [|assumption]. intros c Hc Hx.
    rewrite Forall_forall in IH. apply IH; [assumption| |assumption].
    now apply Hchild. }
  assert (Hdirect : Forall childless_void (flat_map removeEmptyElements cs)).
  { apply Forall_flat_map. apply Forall_forall. intros c Hc.
    apply removeEmptyElements_childless.
    specialize (Hchild c Hc). destruct c; [|exact I ..].
    apply childless_elem in Hchild. now destruct Hchild. }
  rewrite removeEmptyElements_elem. cbv zeta.
  set (cs' := flat_map removeEmptyElements cs) in *.
  assert (Hne : String.eqb (JS.trim (Dom.innerHTML tag cs')) "" = false).
  { destruct (String.eqb_spec (JS.trim (Dom.innerHTML tag cs')) "") as [He|He];
      [|reflexivity].
    exfalso. apply trim_empty in He. rewrite innerHTML_blank in He.
    now apply (blank_children_no_comment _ cs' d He). }
  rewrite Hne, andb_false_r. cbn [andb orb].
  destruct (String.eqb (Dom.tagName tag) "P") eqn:HP; cbn [andb];
    [|now apply in_nodes_elem].
  assert (Hraw := tagName_P_not_raw tag HP).
  assert (Hns : nonspace (JS.trim (Dom.innerHTML tag cs'))
                = nonspace (String.concat "" (map (Dom.outerHTML false) cs'))).
  { rewrite trim_nonspace. unfold Dom.innerHTML. now rewrite Hraw. }
  destruct (String.eqb_spec (JS.trim (Dom.innerHTML tag cs')) "<br>") as [Hb|Hb];
    cbn [orb].
  { exfalso. apply (one_tag_no_comment cs' d); try assumption.
    - rewrite <- Hns, Hb. split; [now eexists | repeat split].
    - intros r. rewrite <- Hns, Hb. discriminate. }
  destruct (String.eqb_spec (JS.toLowerCase (JS.trim (Dom.innerHTML tag cs'))) "<br/>")
    as [Hl|Hl]; [|now apply in_nodes_elem].
  exfalso. apply (one_tag_no_comment cs' d); try assumption.
  - rewrite <- Hns. now apply lower_br_one_tag.
  - intros r. rewrite <- Hns. apply lower_br_cases in Hl. simpl in Hl.
    destruct Hl as [<- | [<- | [<- | [<- | []]]]]; discriminate.
Qed.

(** X17.  The cleaner that the page runs removes no comment: in a body
    without paragraphs marked [H1:], [H2:] or [H3:], and whose elements
    without end tag have no children, every comment of the input, at any
    depth, is still in the tree the page serialises.  (The library's
    [processNode] removes them all, see X1.) *)
Theorem page_keeps_comments (cs : list node) (d : string) :
  Forall page_unmarked (flat_map elements cs) ->
  Forall childless_void (flat_map elements cs) ->
  In (Comment d) (flat_map nodes_of cs) ->
  In (Comment d) (flat_map nodes_of (Page.cleanBody cs)).
Proof.
  intros Hm Hv Hin. unfold Page.cleanBody, removeEmptyBody.
  assert (Hv' : childless (Page.processBody cs)).
  { unfold Page.processBody. apply childless_flat_map; [|assumption].
    intros n _. apply Page_processNode_childless. }
  assert (Hin' : In (Comment d) (flat_map nodes_of (Page.processBody cs))).
  { unfold Page.processBody. apply in_nodes_flat_map; [|assumption].
    intros c Hc. apply Page_processNode_comments.
    now apply (elements_of_child page_unmarked cs). }
  apply in_nodes_flat_map; [|assumption]. intros c Hc.
  apply removeEmptyElements_comments.
  unfold childless. cbn [flat_map]. rewrite app_nil_r.
  now apply (elements_of_child childless_void (Page.processBody cs)).
Qed.

Lemma page_keeps_comments_witness :
  Forall page_unmarked (flat_map elements commented_page)
  /\ Forall childless_void (flat_map elements commented_page)
  /\ In (Comment "b") (flat_map nodes_of commented_page)
  /\ In (Comment "b") (flat_map nodes_of (Page.cleanBody commented_page)).
Proof.
  assert (H1 : Forall page_unmarked (flat_map elements commented_page)).
  { cbn [commented_page flat_map elements app]. repeat constructor. }
  assert (H2 : Forall childless_void (flat_map elements commented_page)).
  { cbn [commented_page flat_map elements app]. repeat constructor; vm_compute; discriminate. }
  assert (H3 : In (Comment "b") (flat_map nodes_of commented_page)).
  { vm_compute. tauto. }
  split; [exact H1|]. split; [exact H2|]. split; [exact H3|].
  exact (page_keeps_comments commented_page "b" H1 H2 H3).
Defined.
